(** * Ising-2D-Monte-Carlo: a shallow embedding of [Ising_montecarlo.py]

    The lattice is a NumPy [int8] array that the engine mutates in place and
    the random numbers come from NumPy's process-wide generator, so the
    Monte Carlo engine is embedded in a state-and-error monad over a [world]
    made of the lattice object and the generator state.  The WHAM solver
    reads its arguments only and is a pure function on arrays.

    Numbers.  Python and Numba integers ([int64], [intp]) are [Z]; the one
    [int64] product whose factors are not bounded by the size of an array,
    the divisor of [measure_magnetization_nb], wraps modulo 2^64.  The cells
    of the lattice are [int8] and every store wraps modulo 256.  A finite
    [float64] is the rational it denotes, and every floating-point operation
    is the exact operation followed by the rounding [rnd], about which only
    monotonicity and exactness on integers up to 2^53 are assumed.  In the
    engine, overflow to infinity is not represented and a division whose
    divisor is zero raises where Python or Numba raise; in the solver, whose
    NumPy arrays never raise, a number may also be an infinity or NaN.
    [np.exp], [np.log] and the generator behind [np.random] belong to NumPy
    and are parameters.

    The first part of the file is the embedding, function by function with
    the lines of the source it renders, and the definitions the statements
    need; the second part proves the properties. *)

From Stdlib Require Import ZArith QArith Qround Qabs Lia Lqa List Bool.
From stdpp Require Import base list.
Import ListNotations.
Open Scope Z_scope.

(** ** Exceptions and results *)

Inductive exn : Type :=
| ZeroDivisionError
| ValueError
| IndexError
| OverflowError.

Inductive result (A : Type) : Type :=
| OK (a : A)
| Err (e : exn).
Arguments OK {A} a.
Arguments Err {A} e.

(** ** Machine integers *)

(** The value kept by a store into an [int8] cell. *)
Definition wrap8 (z : Z) : Z := (z + 128) mod 256 - 128.

(** Numba's [int64]: a product that leaves the range wraps modulo 2^64. *)
Definition wrap64 (z : Z) : Z := (z + 2 ^ 63) mod 2 ^ 64 - 2 ^ 63.

Definition mul64 (a b : Z) : Z := wrap64 (a * b).

(** A cell that holds a spin. *)
Definition is_spin (v : Z) : Prop := v = -1 \/ v = 1.

(** Python's [int(x)] on a finite float: truncation towards zero. *)
Definition py_int (x : Q) : Z :=
  if Qle_bool 0 x then Qfloor x else Qceiling x.

(** ** The lattice: a two-dimensional array, row major *)

Abbreviation lattice := (list (list Z)).

Definition shape0 (lat : lattice) : nat := length lat.
Definition shape1 (lat : lattice) : nat :=
  match lat with [] => 0%nat | row :: _ => length row end.

(** NumPy index normalisation along an axis of size [n]: a negative index
    counts from the end, anything else out of range is an [IndexError]. *)
Definition norm_index (n : nat) (i : Z) : result nat :=
  if (0 <=? i) && (i <? Z.of_nat n) then OK (Z.to_nat i)
  else if (- Z.of_nat n <=? i) && (i <? 0) then OK (Z.to_nat (i + Z.of_nat n))
  else Err IndexError.

Definition cell (lat : lattice) (r c : nat) : option Z :=
  match lat !! r with
  | Some row => row !! c
  | None => None
  end.

Definition set_cell (lat : lattice) (r c : nat) (v : Z) : lattice :=
  match lat !! r with
  | Some row => <[r := <[c := v]> row]> lat
  | None => lat
  end.

(** [lattice.sum()] *)
Definition row_sum (row : list Z) : Z := fold_right Z.add 0 row.
Definition total_sum (lat : lattice) : Z := fold_right (fun row acc => row_sum row + acc) 0 lat.

(** An [L] by [L] array. *)
Definition rect (L : Z) (lat : lattice) : Prop :=
  Z.of_nat (length lat) = L /\ Forall (fun row => Z.of_nat (length row) = L) lat.

(** The cells before site [(i, j)] in row-major order hold spins. *)
Definition filled (L : Z) (lat : lattice) (i j : Z) : Prop :=
  forall r c, 0 <= r < L -> 0 <= c < L -> r < i \/ (r = i /\ c < j) ->
              exists v, cell lat (Z.to_nat r) (Z.to_nat c) = Some v /\ is_spin v.

(** How many entries of [idxs] are [k]. *)
Definition tally (idxs : list Z) (k : Z) : Z := Z.of_nat (count_occ Z.eq_dec idxs k).

(** An [L] by [L] array of spins. *)
Definition wf_lattice (L : Z) (lat : lattice) : Prop :=
  Z.of_nat (length lat) = L /\
  Forall (fun row => Z.of_nat (length row) = L /\ Forall is_spin row) lat.

(** ** Specification-side reading of the lattice (section 4.1 of the
    specification): the spin at a site, the flip of a site and the sum of
    the four neighbours with both indices wrapped modulo [L]. *)

Definition spin (lat : lattice) (i j : Z) : Z :=
  nth (Z.to_nat j) (nth (Z.to_nat i) lat []) 0.

Definition neighbor_sum (L : Z) (lat : lattice) (i j : Z) : Z :=
  spin lat ((i + 1) mod L) j + spin lat ((i - 1) mod L) j
  + spin lat i ((j + 1) mod L) + spin lat i ((j - 1) mod L).

Definition flip (lat : lattice) (i j : Z) : lattice :=
  set_cell lat (Z.to_nat i) (Z.to_nat j) (- spin lat i j).

(** ** Parameters: rounding, [np.exp] and the generator behind [np.random] *)

Class Float64 : Type := {
  (** rounding of an exact result to [float64] *)
  rnd : Q -> Q;
  (** [np.exp] and [np.log] on finite arguments ([np.log] on positive ones) *)
  exp : Q -> Q;
  log : Q -> Q
}.

Class Generator : Type := {
  rng : Type;
  (** [randint lo hi g]: one draw of [np.random.randint(lo, hi)] *)
  randint : Z -> Z -> rng -> Z * rng;
  (** [random g]: one draw of [np.random.random()] or [np.random.rand()] *)
  random : rng -> Q * rng
}.

(** What is assumed of the rounding: it is monotone and leaves the integers
    that [float64] represents exactly alone. *)
Class Float64Laws (F : Float64) : Prop := {
  rnd_mono : forall x y : Q, (x <= y)%Q -> (rnd x <= rnd y)%Q;
  rnd_int : forall z : Z, Z.abs z <= 2 ^ 53 -> (rnd (inject_Z z) == inject_Z z)%Q
}.

(** What is assumed of the generator: draws are in range. *)
Class GeneratorLaws (G : Generator) : Prop := {
  randint_range : forall lo hi g, lo < hi -> lo <= fst (randint lo hi g) < hi;
  random_range : forall g, (0 <= fst (random g) /\ fst (random g) < 1)%Q
}.

Section Engine.

Context {F : Float64} {G : Generator}.

(** ** Floating-point operations *)

Definition of_Z (z : Z) : Q := rnd (inject_Z z).
Definition fadd (x y : Q) : Q := rnd (x + y).
Definition fsub (x y : Q) : Q := rnd (x - y).
Definition fmul (x y : Q) : Q := rnd (x * y).
Definition fdiv (x y : Q) : Q := rnd (x / y).
Definition fneg (x : Q) : Q := (- x)%Q.
Definition fleb (x y : Q) : bool := Qle_bool x y.
Definition fltb (x y : Q) : bool := negb (Qle_bool y x).

(** ** The monad *)

Record world : Type := World { w_lat : lattice; w_gen : rng }.

Definition M (A : Type) : Type := world -> result (A * world).

Definition ret {A} (a : A) : M A := fun w => OK (a, w).
Definition bind {A B} (m : M A) (k : A -> M B) : M B :=
  fun w => match m w with
           | OK (a, w') => k a w'
           | Err e => Err e
           end.
Definition raise {A} (e : exn) : M A := fun _ => Err e.

Notation "'do' x <- m >> k" := (bind m (fun x => k))
  (at level 10, x name, m at level 100, k at level 200,
   format "'[v' 'do'  x  <-  m  >> '/' k ']'").
Notation "'run' m >> k" := (bind m (fun _ => k))
  (at level 10, m at level 100, k at level 200,
   format "'[v' 'run'  m  >> '/' k ']'").

(** [returns m w post]: run from [w], [m] raises nothing and its value and
    final world satisfy [post]. *)
Definition returns {A} (m : M A) (w : world) (post : A -> world -> Prop) : Prop :=
  exists a w', m w = OK (a, w') /\ post a w'.

(** [for i in range(n)] with the loop-carried locals in [a]. *)
Fixpoint for_loop {A} (n : nat) (i : Z) (body : Z -> A -> M A) (a : A) : M A :=
  match n with
  | O => ret a
  | S n' => do a' <- body i a >> for_loop n' (i + 1) body a'
  end.

Definition for_range {A} (n : Z) (body : Z -> A -> M A) (a : A) : M A :=
  for_loop (Z.to_nat n) 0 body a.

(** ** Primitives *)

(** Scalar [x / y] in Python and in Numba. *)
Definition py_div (x y : Q) : M Q :=
  if Qeq_bool y 0 then raise ZeroDivisionError else ret (fdiv x y).

(** Scalar [x / n] with an integer divisor. *)
Definition py_div_Z (x : Q) (n : Z) : M Q :=
  if n =? 0 then raise ZeroDivisionError else ret (fdiv x (of_Z n)).

(** Numba's [a % b] on integers: Python's floored remainder. *)
Definition nb_mod (a b : Z) : M Z :=
  if b =? 0 then raise ZeroDivisionError else ret (a mod b).

(** NumPy's [a % b] on an [int64] scalar: a zero divisor gives 0 and a
    warning. *)
Definition np_mod (a b : Z) : Z := if b =? 0 then 0 else a mod b.

(** [lattice.shape[0]] *)
Definition lat_shape0 : M Z := fun w => OK (Z.of_nat (shape0 (w_lat w)), w).

(** [lattice[i, j]] *)
Definition lat_get (i j : Z) : M Z := fun w =>
  match norm_index (shape0 (w_lat w)) i, norm_index (shape1 (w_lat w)) j with
  | OK r, OK c =>
      match cell (w_lat w) r c with
      | Some v => OK (v, w)
      | None => Err IndexError
      end
  | _, _ => Err IndexError
  end.

(** [lattice[i, j] = v] *)
Definition lat_set (i j : Z) (v : Z) : M unit := fun w =>
  match norm_index (shape0 (w_lat w)) i, norm_index (shape1 (w_lat w)) j with
  | OK r, OK c =>
      match cell (w_lat w) r c with
      | Some _ => OK (tt, World (set_cell (w_lat w) r c (wrap8 v)) (w_gen w))
      | None => Err IndexError
      end
  | _, _ => Err IndexError
  end.

(** [lattice.sum()] *)
Definition lat_sum : M Z := fun w => OK (total_sum (w_lat w), w).

(** [np.empty((L, L), dtype=np.int8)]: a new array takes the place of the
    lattice; its cells are written before they are read. *)
Definition np_empty (L : Z) : M unit := fun w =>
  if L <? 0 then Err ValueError
  else OK (tt, World (replicate (Z.to_nat L) (replicate (Z.to_nat L) 0)) (w_gen w)).

(** [np.random.randint(lo, hi)] *)
Definition np_randint (lo hi : Z) : M Z := fun w =>
  if lo <? hi then
    let (x, g) := randint lo hi (w_gen w) in OK (x, World (w_lat w) g)
  else Err ValueError.

(** [np.random.random()], [np.random.rand()] *)
Definition np_random : M Q := fun w =>
  let (u, g) := random (w_gen w) in OK (u, World (w_lat w) g).

(** One-dimensional [float64] arrays: [np.zeros(n)], [a[i]], [a[i] += x]. *)
Definition np_zeros (n : Z) : M (list Q) :=
  if n <? 0 then raise ValueError else ret (replicate (Z.to_nat n) 0%Q).

Definition arr_get (a : list Q) (i : Z) : M Q :=
  match norm_index (length a) i with
  | OK k => match a !! k with Some x => ret x | None => raise IndexError end
  | Err e => raise e
  end.

Definition arr_set (a : list Q) (i : Z) (x : Q) : M (list Q) :=
  match norm_index (length a) i with
  | OK k => ret (<[k := x]> a)
  | Err e => raise e
  end.

Definition arr_iadd (a : list Q) (i : Z) (x : Q) : M (list Q) :=
  do y <- arr_get a i >> arr_set a i (fadd y x).

(** [np.linspace(start, stop, num)] on integer end points. *)
Definition np_linspace (start stop num : Z) : M (list Q) :=
  if num <? 0 then raise ValueError
  else
    let fstart := of_Z start in
    let fstop := of_Z stop in
    let div := num - 1 in
    let delta := fsub fstop fstart in
    let step := fdiv delta (of_Z div) in
    let point (k : nat) : Q :=
      if 0 <? div then
        if Qeq_bool step 0
        then fadd (fmul (fdiv (of_Z (Z.of_nat k)) (of_Z div)) delta) fstart
        else fadd (fmul (of_Z (Z.of_nat k)) step) fstart
      else fadd (fmul (of_Z (Z.of_nat k)) delta) fstart in
    let y := map point (seq 0 (Z.to_nat num)) in
    ret (if 1 <? num then <[Z.to_nat (num - 1) := fstop]> y else y).

(** ** Lines 7-23: [init_lattice_nb] *)

Definition init_lattice_nb (L : Z) : M unit :=
  run np_empty L >>
  for_range L (fun i _ =>
    for_range L (fun j _ =>
      do r <- np_randint 0 2 >>
      lat_set i j (if r =? 0 then -1 else 1)) tt) tt.

(** ** Lines 26-51: [delta_energy_nb]

    Numba promotes [int8] operands to [int64], so the sums and products of
    cells do not wrap. *)

Definition delta_energy_nb (i j : Z) (J h : Q) : M Q :=
  do L <- lat_shape0 >>
  do s <- lat_get i j >>
  do i1 <- nb_mod (i + 1) L >> do n1 <- lat_get i1 j >>
  do i2 <- nb_mod (i - 1) L >> do n2 <- lat_get i2 j >>
  do j1 <- nb_mod (j + 1) L >> do n3 <- lat_get i j1 >>
  do j2 <- nb_mod (j - 1) L >> do n4 <- lat_get i j2 >>
  let nb := n1 + n2 + n3 + n4 in
  ret (fmul (of_Z (2 * s)) (fadd (fmul J (of_Z nb)) h)).

(** ** Lines 54-72: [metropolis_step_nb] *)

(** The test [dE <= 0 or np.random.random() < np.exp(-beta * dE)]; [or]
    draws only when its left operand is false. *)
Definition metropolis_accept (beta dE : Q) : M bool :=
  if fleb dE 0 then ret true
  else do u <- np_random >> ret (fltb u (exp (fmul (fneg beta) dE))).

(** The body of the loop of line 66. *)
Definition metropolis_trial (L : Z) (beta J h : Q) : M unit :=
  do i <- np_randint 0 L >>
  do j <- np_randint 0 L >>
  do dE <- delta_energy_nb i j J h >>
  do acc <- metropolis_accept beta dE >>
  if (acc : bool) then do v <- lat_get i j >> lat_set i j (- v)
  else ret tt.

Definition metropolis_step_nb (beta J h : Q) : M unit :=
  do L <- lat_shape0 >>
  for_range (L * L) (fun _ _ => metropolis_trial L beta J h) tt.

(** ** Lines 75-100: [measure_magnetization_nb]

    The divisor [n_steps * L * L] of line 100 is a product of [int64]
    values, taken from left to right; [n_steps] is not the size of any
    array, so the product can leave the range, and then it wraps. *)

Definition measure_magnetization_nb (L : Z) (T h : Q) (n_eq n_steps : Z) (J : Q) : M Q :=
  run init_lattice_nb L >>
  do beta <- py_div 1 T >>
  run for_range n_eq (fun _ _ => metropolis_step_nb beta J h) tt >>
  do m_accum <- for_range n_steps (fun _ m_accum =>
      run metropolis_step_nb beta J h >>
      do s <- lat_sum >>
      ret (fadd m_accum (of_Z s))) 0%Q >>
  py_div_Z m_accum (mul64 (mul64 n_steps L) L).

(** ** Lines 103-123: [compute_m_vs_h_nb]

    [np.empty(n)]: every cell is written before the array is returned, so
    any initial content stands for it. *)

Definition compute_m_vs_h_nb (L : Z) (T : Q) (h_values : list Q) (n_eq n_steps : Z) (J : Q)
  : M (list Q) :=
  let n := Z.of_nat (length h_values) in
  do m_vs_h <- np_zeros n >>
  for_range n (fun idx m_vs_h =>
    do h <- arr_get h_values idx >>
    do m <- measure_magnetization_nb L T h n_eq n_steps J >>
    arr_set m_vs_h idx m) m_vs_h.

(** ** Lines 126-151: [measure_abs_magnetization_nb] *)

Definition measure_abs_magnetization_nb (L : Z) (T : Q) (n_eq n_steps : Z) (J : Q) : M Q :=
  run init_lattice_nb L >>
  do beta <- py_div 1 T >>
  let N := L * L in
  run for_range n_eq (fun _ _ => metropolis_step_nb beta J 0) tt >>
  do abs_m_sum <- for_range n_steps (fun _ abs_m_sum =>
      run metropolis_step_nb beta J 0 >>
      do s <- lat_sum >>
      do a <- py_div_Z (of_Z (Z.abs s)) N >>
      ret (fadd abs_m_sum a)) 0%Q >>
  py_div_Z abs_m_sum n_steps.

(** ** Lines 154-211: [measure_spin_stats_explicit_nb] *)

(** Lines 185-188: the double loop that adds up the lattice. *)
Definition total_spin_loop (L : Z) : M Z :=
  for_range L (fun i acc =>
    for_range L (fun j acc => do v <- lat_get i j >> ret (acc + v)) acc) 0.

(** Lines 193-200: [pair_sum] and [shift_sum] at separation [r]. *)
Definition pair_shift_loop (L r : Z) : M (Q * Q) :=
  for_range L (fun i acc =>
    for_range L (fun j (acc : Q * Q) =>
      do si <- lat_get i j >>
      do ir <- nb_mod (i + r) L >>
      do sj <- lat_get ir j >>
      ret (fadd (fst acc) (of_Z (si * sj)), fadd (snd acc) (of_Z sj))) acc) (0%Q, 0%Q).

(** Lines 183-202: one measurement step; the locals are [sum_m],
    [sum_pair] and [sum_shift]. *)
Definition spin_stats_step (L N max_r : Z) (beta J h : Q)
           (acc : Q * list Q * list Q) : M (Q * list Q * list Q) :=
  let '(sum_m, sum_pair, sum_shift) := acc in
  run metropolis_step_nb beta J h >>
  do total_spin <- total_spin_loop L >>
  do m_inst <- py_div_Z (of_Z total_spin) N >>
  let sum_m := fadd sum_m m_inst in
  do arrs <- for_range (max_r + 1) (fun r (arrs : list Q * list Q) =>
      do ps <- pair_shift_loop L r >>
      do p <- py_div_Z (fst ps) N >>
      do sum_pair <- arr_iadd (fst arrs) r p >>
      do q <- py_div_Z (snd ps) N >>
      do sum_shift <- arr_iadd (snd arrs) r q >>
      ret (sum_pair, sum_shift)) (sum_pair, sum_shift) >>
  ret (sum_m, fst arrs, snd arrs).

Definition measure_spin_stats_explicit_nb (L : Z) (T h : Q) (n_eq n_steps : Z) (J : Q)
  : M (Q * list Q) :=
  run init_lattice_nb L >>
  do beta <- py_div 1 T >>
  let N := L * L in
  let max_r := L / 2 in
  run for_range n_eq (fun _ _ => metropolis_step_nb beta J h) tt >>
  do sum_pair <- np_zeros (max_r + 1) >>
  do sum_shift <- np_zeros (max_r + 1) >>
  do acc <- for_range n_steps (fun _ acc => spin_stats_step L N max_r beta J h acc)
              (0%Q, sum_pair, sum_shift) >>
  let '(sum_m, sum_pair, sum_shift) := acc in
  do m_avg <- py_div_Z sum_m n_steps >>
  do corr0 <- np_zeros (max_r + 1) >>
  do corr <- for_range (max_r + 1) (fun r corr =>
      do sp <- arr_get sum_pair r >>
      do avg_ss <- py_div_Z sp n_steps >>
      do ss <- arr_get sum_shift r >>
      do avg_sj <- py_div_Z ss n_steps >>
      arr_set corr r (fsub avg_ss (fmul m_avg avg_sj))) corr0 >>
  ret (m_avg, corr).

(** ** Lines 214-256: [measure_column_correlation_nb] *)

(** Lines 247-250: the pair sum down column [col_idx] at separation [r]. *)
Definition column_pair_loop (L col_idx r : Z) : M Q :=
  for_range L (fun i c =>
    do a <- lat_get i col_idx >>
    do ir <- nb_mod (i + r) L >>
    do b <- lat_get ir col_idx >>
    ret (fadd c (of_Z (a * b)))) 0%Q.

(** Lines 241-251: one measurement step; the locals are [sum_m] and
    [corr_sum]. *)
Definition column_step (L N max_r col_idx : Z) (beta J : Q)
           (acc : Q * list Q) : M (Q * list Q) :=
  run metropolis_step_nb beta J 0 >>
  do s <- lat_sum >>
  do m_inst <- py_div_Z (of_Z s) N >>
  let sum_m := fadd (fst acc) m_inst in
  do corr_sum <- for_range (max_r + 1) (fun r corr_sum =>
      do c <- column_pair_loop L col_idx r >>
      do q <- py_div_Z c L >>
      arr_iadd corr_sum r q) (snd acc) >>
  ret (sum_m, corr_sum).

Definition measure_column_correlation_nb (L : Z) (T : Q) (col_idx n_eq n_steps : Z) (J : Q)
  : M (Q * list Q) :=
  run init_lattice_nb L >>
  do beta <- py_div 1 T >>
  let N := L * L in
  let max_r := L / 2 in
  run for_range n_eq (fun _ _ => metropolis_step_nb beta J 0) tt >>
  do corr_sum <- np_zeros (max_r + 1) >>
  do acc <- for_range n_steps (fun _ acc => column_step L N max_r col_idx beta J acc)
              (0%Q, corr_sum) >>
  do m_avg <- py_div_Z (fst acc) n_steps >>
  ret (m_avg, map (fun x => fsub (fdiv x (of_Z n_steps)) (fmul m_avg m_avg)) (snd acc)).

(** ** Lines 380-405: [delta_E_and_dM]

    This function is interpreted by Python: the cells are NumPy [int8]
    scalars and their sums and products stay [int8]. *)

Definition delta_E_and_dM (i j : Z) (J k_bias M0 : Q) (M_ : Z) : M (Q * Z) :=
  do L <- lat_shape0 >>
  do s <- lat_get i j >>
  do n1 <- lat_get (np_mod (i + 1) L) j >>
  do n2 <- lat_get (np_mod (i - 1) L) j >>
  do n3 <- lat_get i (np_mod (j + 1) L) >>
  do n4 <- lat_get i (np_mod (j - 1) L) >>
  let nb := wrap8 (wrap8 (wrap8 (n1 + n2) + n3) + n4) in
  let dE_int := fmul (fmul (of_Z (wrap8 (2 * s))) J) (of_Z nb) in
  let dM := wrap8 (-2 * s) in
  let sq (x : Q) := fmul x x in
  let dV := fmul (fmul (1 # 2) k_bias)
                 (fsub (sq (fsub (of_Z (M_ + dM)) M0)) (sq (fsub (of_Z M_) M0))) in
  ret (fadd dE_int dV, dM).

(** ** Lines 408-452: [run_window_us] *)

(** Lines 432-438 and 441-447: one biased trial; the tracked magnetization
    is the loop-carried local.  [np.random.randint(0, L, 2)] fills an array
    with two successive draws. *)
Definition us_trial (L : Z) (beta J k_bias M0 : Q) (M_ : Z) : M Z :=
  do i <- np_randint 0 L >>
  do j <- np_randint 0 L >>
  do p <- delta_E_and_dM i j J k_bias M0 M_ >>
  do acc <- metropolis_accept beta (fst p) >>
  if (acc : bool)
  then do v <- lat_get i j >> run lat_set i j (v * -1) >> ret (M_ + snd p)
  else ret M_.

(** Line 449: the bin of [M].  NumPy's scalar division does not raise on a
    zero divisor: the quotient is infinite or not a number, and it is
    [int()] that raises. *)
Definition hist_index (M_ : Z) (Mgrid : list Q) (bins : Z) : M Z :=
  do g0 <- arr_get Mgrid 0 >>
  let num := fsub (of_Z M_) g0 in
  do g1 <- arr_get Mgrid (-1) >>
  do g0' <- arr_get Mgrid 0 >>
  let den := fsub g1 g0' in
  if Qeq_bool den 0 then
    if Qeq_bool num 0 || (bins - 1 =? 0) then raise ValueError
    else raise OverflowError
  else ret (py_int (fmul (fdiv num den) (of_Z (bins - 1)))).

(** Lines 441-450: one iteration of the measurement loop. *)
Definition us_measure (L : Z) (beta J k_bias M0 : Q) (Mgrid : list Q) (bins : Z)
           (st : Z * list Q) : M (Z * list Q) :=
  do M' <- us_trial L beta J k_bias M0 (fst st) >>
  do idx <- hist_index M' Mgrid bins >>
  do hist <- arr_iadd (snd st) idx 1 >>
  ret (M', hist).

(** Lines 425-438: set-up and equilibration; the value is
    [(beta, M, hist, Mgrid)] as the measurement loop finds them.  [T] is a
    Python float, for which [1.0 / T] raises at zero (a NumPy scalar would
    give an infinite [beta], which the finite numbers here do not
    represent). *)
Definition us_setup (L : Z) (T J k_bias M0 : Q) (n_eq bins : Z)
  : M (Q * Z * list Q * list Q) :=
  do beta <- py_div 1 T >>
  run init_lattice_nb L >>
  do M_init <- lat_sum >>
  do hist <- np_zeros bins >>
  do Mgrid <- np_linspace (- L * L) (L * L) bins >>
  do M1 <- for_range n_eq (fun _ M_ => us_trial L beta J k_bias M0 M_) M_init >>
  ret (beta, M1, hist, Mgrid).

(** Lines 425-450: the body up to the [return]; the value is the final
    [(M, hist, Mgrid)]. *)
Definition us_locals (L : Z) (T J k_bias M0 : Q) (n_eq n_steps bins : Z)
  : M (Z * list Q * list Q) :=
  do s <- us_setup L T J k_bias M0 n_eq bins >>
  let '(beta, M1, hist, Mgrid) := s in
  do st <- for_range n_steps (fun _ st => us_measure L beta J k_bias M0 Mgrid bins st)
             (M1, hist) >>
  ret (fst st, snd st, Mgrid).

Definition run_window_us (L : Z) (T J k_bias M0 : Q) (n_eq n_steps bins : Z)
  : M (list Q * list Q) :=
  do loc <- us_locals L T J k_bias M0 n_eq n_steps bins >>
  ret (snd (fst loc), snd loc).

(** ** Specification side (sections 4.2 and 4.3 of the specification) *)

(** [dE = 2 s (J nb + h)], evaluated in floating point in the order the
    formula is written. *)
Definition energy_change (L : Z) (lat : lattice) (i j : Z) (J h : Q) : Q :=
  fmul (of_Z (2 * spin lat i j))
       (fadd (fmul J (of_Z (neighbor_sum L lat i j))) h).

(** The biased change: [2 s J nb] plus the change of the harmonic bias
    [k_bias/2 ((M + dM - M0)^2 - (M - M0)^2)] with [dM = -2 s]. *)
Definition biased_change (L : Z) (lat : lattice) (i j : Z) (J k_bias M0 : Q) (M_ : Z) : Q :=
  let dM := -2 * spin lat i j in
  fadd (fmul (fmul (of_Z (2 * spin lat i j)) J) (of_Z (neighbor_sum L lat i j)))
       (fmul (fmul (1 # 2) k_bias)
             (fsub (fmul (fsub (of_Z (M_ + dM)) M0) (fsub (of_Z (M_ + dM)) M0))
                   (fmul (fsub (of_Z M_) M0) (fsub (of_Z M_) M0)))).

(** The same two quantities over the rationals, without rounding. *)
Definition energy_change_exact (L : Z) (lat : lattice) (i j : Z) (J h : Q) : Q :=
  (inject_Z 2 * inject_Z (spin lat i j)
   * (J * inject_Z (neighbor_sum L lat i j) + h))%Q.

Definition biased_change_exact (L : Z) (lat : lattice) (i j : Z) (J k_bias M0 : Q) (M_ : Z) : Q :=
  let dM := -2 * spin lat i j in
  (inject_Z 2 * inject_Z (spin lat i j) * J * inject_Z (neighbor_sum L lat i j)
   + (1 # 2) * k_bias
     * ((inject_Z (M_ + dM) - M0) * (inject_Z (M_ + dM) - M0)
        - (inject_Z M_ - M0) * (inject_Z M_ - M0)))%Q.

(** The Metropolis rule on a change [dE] and a draw [u]. *)
Definition accept_rule (beta dE u : Q) : bool :=
  fleb dE 0 || fltb u (exp (fmul (fneg beta) dE)).

(** One trial flip of a sweep: the site is a pair of successive draws of
    [randint(0, L)], [u] in [0, 1) is the next draw of [random()], and the
    spin is flipped exactly when the rule accepts.  The draw [u] is consumed
    only when [dE > 0]. *)
Inductive trial_spec (L : Z) (beta J h : Q) (w : world) : world -> Prop :=
| trial_spec_intro i g1 j g2 u g3 :
    randint 0 L (w_gen w) = (i, g1) ->
    randint 0 L g1 = (j, g2) ->
    0 <= i < L -> 0 <= j < L ->
    random g2 = (u, g3) ->
    (0 <= u /\ u < 1)%Q ->
    trial_spec L beta J h w
      (World (if accept_rule beta (energy_change L (w_lat w) i j J h) u
              then flip (w_lat w) i j else w_lat w)
             (if fleb (energy_change L (w_lat w) i j J h) 0 then g2 else g3)).

(** The bin of a magnetization: the linear map of line 449 on a grid. *)
Definition bin_of (Mgrid : list Q) (bins M_ : Z) : Z :=
  py_int (fmul (fdiv (fsub (of_Z M_) (nth 0 Mgrid 0%Q))
                     (fsub (List.last Mgrid 0%Q) (nth 0 Mgrid 0%Q)))
               (of_Z (bins - 1))).

(** The tracked magnetization after each of [n] successive biased trials. *)
Fixpoint us_trace (n : nat) (L : Z) (beta J k_bias M0 : Q) (M_ : Z) (w : world) : list Z :=
  match n with
  | O => []
  | S n' =>
      match us_trial L beta J k_bias M0 M_ w with
      | OK (M', w') => M' :: us_trace n' L beta J k_bias M0 M' w'
      | Err _ => []
      end
  end.

(** [n] successive trials. *)
Inductive trials_spec (L : Z) (beta J h : Q) : nat -> world -> world -> Prop :=
| trials_spec_O w : trials_spec L beta J h 0 w w
| trials_spec_S n w w1 w2 :
    trial_spec L beta J h w w1 ->
    trials_spec L beta J h n w1 w2 ->
    trials_spec L beta J h (S n) w w2.

(** One call of [measure_magnetization_nb] per field value, in order, each
    from the world its predecessor left; the first exception ends the
    run. *)
Fixpoint measure_each (L : Z) (T : Q) (hs : list Q) (n_eq n_steps : Z) (J : Q)
         (w : world) : result (list Q * world) :=
  match hs with
  | [] => OK ([], w)
  | h :: rest =>
      match measure_magnetization_nb L T h n_eq n_steps J w with
      | OK (m, w1) =>
          match measure_each L T rest n_eq n_steps J w1 with
          | OK (ms, w2) => OK (m :: ms, w2)
          | Err e => Err e
          end
      | Err e => Err e
      end
  end.

End Engine.

(** ** Lines 455-496: [wham_us]

    The solver works on NumPy [float64] arrays, whose operations never
    raise: a division by zero or an invalid operation yields an infinity or
    a NaN (and a warning).  Here a [float64] is a finite rational, an
    infinity or NaN; finite results are rounded by [rnd], zero is unsigned
    and counts as [+0.0] when it divides. *)

Inductive npfloat : Type :=
| Fin (q : Q)
| PInf
| NInf
| NaN.

Section Wham.

Context {F : Float64}.

Definition np_neg (a : npfloat) : npfloat :=
  match a with
  | Fin x => Fin (- x)
  | PInf => NInf
  | NInf => PInf
  | NaN => NaN
  end.

Definition np_add (a b : npfloat) : npfloat :=
  match a, b with
  | NaN, _ | _, NaN => NaN
  | Fin x, Fin y => Fin (rnd (x + y))
  | PInf, NInf | NInf, PInf => NaN
  | PInf, _ | _, PInf => PInf
  | NInf, _ | _, NInf => NInf
  end.

Definition np_sub (a b : npfloat) : npfloat := np_add a (np_neg b).

(** The sign of a non-NaN value as [-1], [0] or [1]. *)
Definition np_sign (a : npfloat) : Z :=
  match a with
  | Fin x => if Qle_bool x 0 then (if Qle_bool 0 x then 0 else -1) else 1
  | PInf => 1
  | NInf => -1
  | NaN => 0
  end.

Definition np_inf (sign : Z) : npfloat :=
  if sign =? 0 then NaN else if sign <? 0 then NInf else PInf.

Definition np_mul (a b : npfloat) : npfloat :=
  match a, b with
  | NaN, _ | _, NaN => NaN
  | Fin x, Fin y => Fin (rnd (x * y))
  | _, _ => np_inf (np_sign a * np_sign b)
  end.

Definition np_div (a b : npfloat) : npfloat :=
  match a, b with
  | NaN, _ | _, NaN => NaN
  | Fin x, Fin y =>
      if Qeq_bool y 0 then np_inf (np_sign a) else Fin (rnd (x / y))
  | Fin _, _ => Fin 0
  | _, Fin y => np_inf (np_sign a * (if Qle_bool 0 y then 1 else -1))
  | _, _ => NaN
  end.

Definition np_abs (a : npfloat) : npfloat :=
  match a with
  | Fin x => Fin (Qabs x)
  | PInf | NInf => PInf
  | NaN => NaN
  end.

Definition np_exp (a : npfloat) : npfloat :=
  match a with
  | Fin x => Fin (exp x)
  | PInf => PInf
  | NInf => Fin 0
  | NaN => NaN
  end.

Definition np_log (a : npfloat) : npfloat :=
  match a with
  | Fin x => if Qle_bool x 0 then (if Qle_bool 0 x then NInf else NaN) else Fin (log x)
  | PInf => PInf
  | NInf => NaN
  | NaN => NaN
  end.

(** [a < b]; every comparison with NaN is false. *)
Definition np_lt (a b : npfloat) : bool :=
  match a, b with
  | NaN, _ | _, NaN => false
  | Fin x, Fin y => negb (Qle_bool y x)
  | _, NInf => false
  | NInf, _ => true
  | PInf, _ => false
  | _, PInf => true
  end.

(** [np.sum] of a vector: the entries are added in order (NumPy's pairwise
    grouping of long sums is not represented). *)
Definition np_sum (l : list npfloat) : npfloat :=
  match l with
  | [] => Fin 0
  | x :: t => fold_left np_add t x
  end.

(** [np.max] of a non-empty vector; a NaN entry makes the maximum NaN. *)
Definition np_max2 (a b : npfloat) : npfloat :=
  match a, b with
  | NaN, _ | _, NaN => NaN
  | _, _ => if np_lt a b then b else a
  end.

Definition np_max (l : list npfloat) : npfloat :=
  match l with
  | [] => NaN
  | x :: t => fold_left np_max2 t x
  end.

(** The sum of a matrix along axis 0: one entry per column, [width] of
    them. *)
Definition sum_axis0 (rows : list (list npfloat)) (width : nat) : list npfloat :=
  map (fun j => np_sum (map (fun row => nth j row NaN) rows)) (seq 0 width).

(** [scipy.integrate.trapezoid(y, x)]:
    [(diff(x) * (y[1:] + y[:-1]) / 2.0).sum()]. *)
Definition trapezoid (y x : list npfloat) : npfloat :=
  np_sum (map (fun i =>
            np_div (np_mul (np_sub (nth (S i) x NaN) (nth i x NaN))
                           (np_add (nth (S i) y NaN) (nth i y NaN)))
                   (Fin 2))
          (seq 0 (pred (length x)))).

Definition wham_eps : npfloat := Fin (1 # 1000000000000000000000000000000).
Definition wham_tol : npfloat := Fin (1 # 1000000).

(** What the solver computes once before the loop (lines 469-472). *)
Record wham_input : Type := {
  wi_H : list (list npfloat);
  wi_Mgrid : list npfloat;
  wi_V : list (list npfloat);
  wi_n_k : list npfloat;
  wi_beta : npfloat
}.

(** Lines 479-488: the body of the loop up to the test; the value is
    [(P, f_new)]. *)
Definition wham_update (inp : wham_input) (f : list npfloat)
  : list npfloat * list npfloat :=
  let width := length (wi_Mgrid inp) in
  let terms :=
    map (fun k =>
           map (fun v => np_mul (nth k (wi_n_k inp) NaN)
                                (np_exp (np_mul (wi_beta inp) (np_sub (nth k f NaN) v))))
               (nth k (wi_V inp) []))
        (seq 0 (length (wi_n_k inp))) in
  let denom := sum_axis0 terms width in
  let totalH := sum_axis0 (wi_H inp) width in
  let P0 :=
    map (fun j => if np_lt wham_eps (nth j denom NaN)
                  then np_div (nth j totalH NaN) (nth j denom NaN)
                  else Fin 0)
        (seq 0 width) in
  let norm := trapezoid P0 (wi_Mgrid inp) in
  let P := map (fun p => np_div p norm) P0 in
  let integ :=
    map (fun Vk =>
           trapezoid (map (fun j => np_mul (nth j P NaN)
                                           (np_exp (np_mul (np_neg (wi_beta inp))
                                                           (nth j Vk NaN))))
                          (seq 0 width))
                     (wi_Mgrid inp))
        (wi_V inp) in
  let f_new := map (fun x => np_div (np_neg (np_log (np_add x wham_eps))) (wi_beta inp))
                   integ in
  (P, f_new).

(** Line 490: [np.max(np.abs(f_new - f)) < 1e-6]. *)
Definition wham_close (f_new f : list npfloat) : bool :=
  np_lt (np_max (map (fun k => np_abs (np_sub (nth k f_new NaN) (nth k f NaN)))
                     (seq 0 (length f))))
        wham_tol.

(** The state of the loop of line 477: the last [P], the current [f], the
    number of iterations made and whether the loop was left by [break]. *)
Record wham_state : Type := {
  ws_P : list npfloat;
  ws_f : list npfloat;
  ws_iters : nat;
  ws_converged : bool
}.

(** At most [n] more iterations. *)
Fixpoint wham_loop (inp : wham_input) (n : nat) (st : wham_state) : wham_state :=
  match n with
  | O => st
  | S n' =>
      let (P, f_new) := wham_update inp (ws_f st) in
      if wham_close f_new (ws_f st)
      then {| ws_P := P; ws_f := f_new; ws_iters := S (ws_iters st);
              ws_converged := true |}
      else wham_loop inp n'
             {| ws_P := P; ws_f := f_new; ws_iters := S (ws_iters st);
                ws_converged := false |}
  end.

(** Lines 469-473: [np.vstack] refuses an empty list and rows of different
    lengths; the arrays the loop uses. *)
Definition wham_prepare (hist_list : list (list npfloat)) (Mgrid : list npfloat)
           (k_bias : npfloat) (M0_list : list npfloat) (beta : npfloat)
  : result wham_input :=
  match hist_list with
  | [] => Err ValueError
  | h :: rest =>
      if forallb (fun h' => Nat.eqb (length h') (length h)) rest
      then OK {| wi_H := hist_list;
                 wi_Mgrid := Mgrid;
                 wi_V := map (fun M0 =>
                           map (fun m => np_mul (np_mul (Fin (1 # 2)) k_bias)
                                                (let d := np_sub m M0 in np_mul d d))
                               Mgrid)
                         M0_list;
                 wi_n_k := map np_sum hist_list;
                 wi_beta := beta |}
      else Err ValueError
  end.

Definition wham_start (inp : wham_input) : wham_state :=
  {| ws_P := []; ws_f := map (fun _ => Fin 0) (wi_n_k inp);
     ws_iters := 0; ws_converged := false |}.

(** The state in which the loop of line 477 ends. *)
Definition wham_run (inp : wham_input) : wham_state :=
  wham_loop inp 5000 (wham_start inp).

(** Line 495. *)
Definition wham_F (beta : npfloat) (P : list npfloat) : list npfloat :=
  map (fun p => np_div (np_neg (np_log (np_add p wham_eps))) beta) P.

Definition wham_us (hist_list : list (list npfloat)) (Mgrid : list npfloat)
           (k_bias : npfloat) (M0_list : list npfloat) (beta : npfloat)
  : result (list npfloat * list npfloat) :=
  match wham_prepare hist_list Mgrid k_bias M0_list beta with
  | Err e => Err e
  | OK inp =>
      let st := wham_run inp in
      OK (ws_P st, wham_F beta (ws_P st))
  end.

(** The shapes for which the arrays above are those of NumPy: at least one
    histogram, each as long as the grid, and one target per histogram.
    (Other shapes NumPy may still combine by broadcasting.) *)
Definition wham_shapes_ok (hist_list : list (list npfloat)) (Mgrid M0_list : list npfloat)
  : Prop :=
  hist_list <> [] /\
  Forall (fun h => length h = length Mgrid) hist_list /\
  length M0_list = length hist_list.

(** Specification side: the iterates of the fixed point without the
    [break], and the test of line 490 at iteration [m >= 1]. *)
Definition wham_iterate (inp : wham_input) (m : nat) : list npfloat :=
  Nat.iter m (fun f => snd (wham_update inp f)) (ws_f (wham_start inp)).

Definition wham_close_at (inp : wham_input) (m : nat) : bool :=
  wham_close (wham_iterate inp m) (wham_iterate inp (pred m)).

(** A value that is a finite zero or NaN. *)
Definition zero_or_nan (a : npfloat) : Prop :=
  a = NaN \/ exists q, a = Fin q /\ (q == 0)%Q.
End Wham.

(** ** Concrete parameters, used to run the embedding on examples *)

(** Rational stand-ins for [np.exp] (positive, increasing, 1 at 0) and for
    [np.log] (increasing, 0 at 1). *)
Definition exp_approx (x : Q) : Q :=
  if Qle_bool x 0 then (1 / (1 - x + x * x / 2))%Q else (1 + x + x * x / 2)%Q.

Definition log_approx (x : Q) : Q :=
  if Qle_bool x 1 then (1 - 1 / x)%Q else (x - 1)%Q.

(** Exact arithmetic: no rounding error, fractions kept in lowest terms. *)
Definition exact_arith : Float64 :=
  {| rnd := Qred; exp := exp_approx; log := log_approx |}.

(** Arithmetic with rounding error: every result is rounded to the nearest
    multiple of 1/1024, halves upwards. *)
Definition round_1024 (x : Q) : Q :=
  Qmake (Qfloor (x * inject_Z 1024 + (1 # 2))) 1024.

Definition fixed_point_arith : Float64 :=
  {| rnd := round_1024; exp := exp_approx; log := log_approx |}.

(** A generator that replays a tape of integers: [randint(lo, hi)] maps
    the next entry into the range, [random()] maps it to thousandths. *)
Definition tape : Generator := {|
  rng := list Z;
  randint := fun lo hi g =>
    match g with
    | [] => (lo, [])
    | x :: t => (lo + x mod (hi - lo), t)
    end;
  random := fun g =>
    match g with
    | [] => (0%Q, [])
    | x :: t => (Qmake (x mod 1000) 1000, t)
    end
|}.

(** The sum of a [float64] array, exactly. *)
Definition Qsum (a : list Q) : Q := fold_right Qplus 0%Q a.

(** Worlds on which the examples run: a lattice and a tape. *)
Definition demo_lattice : lattice := [[1; -1]; [-1; 1]].
Definition demo_world : world (G := tape) := World (G := tape) demo_lattice [0; 1; 250; 1; 1; 0; 0; 1; 900].
Definition fresh_world (t : list Z) : world (G := tape) := World (G := tape) [] t.

(** Two solver inputs on a one-point grid with an empty histogram: they
    differ in [beta] only. *)
Definition wham_demo (beta : Q) : result (list npfloat * list npfloat) :=
  wham_us (F := exact_arith) [[Fin 0]] [Fin 0] (Fin 2) [Fin 0] (Fin beta).

Definition wham_demo_state (beta : Q) : result wham_state :=
  match wham_prepare (F := exact_arith) [[Fin 0]] [Fin 0] (Fin 2) [Fin 0] (Fin beta) with
  | OK inp => OK (wham_run (F := exact_arith) inp)
  | Err e => Err e
  end.

(* ================================================================== *)
(** * Properties *)
(* ================================================================== *)

(** ** Integers, indices and the lattice *)

Lemma wrap8_small z : -128 <= z < 128 -> wrap8 z = z.
Proof. intros H. unfold wrap8. rewrite Z.mod_small; lia. Qed.

Lemma wrap64_small z : - 2 ^ 63 <= z < 2 ^ 63 -> wrap64 z = z.
Proof. intros H. unfold wrap64. rewrite Z.mod_small; lia. Qed.

(** A product [n * L * L] that fits [int64] is computed exactly. *)
Lemma mul64_product n L :
  0 <= L -> - 2 ^ 63 <= n * L * L < 2 ^ 63 -> mul64 (mul64 n L) L = n * L * L.
Proof.
  intros HL H. unfold mul64.
  destruct (Z.eq_dec L 0) as [->|HL0].
  - rewrite !Z.mul_0_r. reflexivity.
  - rewrite (wrap64_small (n * L)) by nia. now apply wrap64_small.
Qed.

Lemma is_spin_bound v : is_spin v -> -1 <= v <= 1.
Proof. intros [->| ->]; lia. Qed.

Lemma is_spin_opp v : is_spin v -> is_spin (- v).
Proof. intros [->| ->]; [right|left]; reflexivity. Qed.

Lemma is_spin_square v : is_spin v -> v * v = 1.
Proof. intros [->| ->]; reflexivity. Qed.

Lemma norm_index_in_range n i :
  0 <= i < Z.of_nat n -> norm_index n i = OK (Z.to_nat i).
Proof.
  intros H. unfold norm_index.
  destruct (Z.leb_spec 0 i); [|lia].
  destruct (Z.ltb_spec i (Z.of_nat n)); [|lia]. reflexivity.
Qed.

Lemma wf_lattice_row L lat i :
  wf_lattice L lat -> 0 <= i < L ->
  exists row, lat !! Z.to_nat i = Some row /\
              Z.of_nat (length row) = L /\ Forall is_spin row /\
              nth (Z.to_nat i) lat [] = row.
Proof.
  intros [Hlen Hrows] Hi.
  destruct (lookup_lt_is_Some_2 lat (Z.to_nat i)) as [row Hrow]; [lia|].
  exists row. rewrite Forall_lookup in Hrows.
  destruct (Hrows _ _ Hrow) as [H1 H2].
  repeat split; auto.
  rewrite nth_lookup, Hrow. reflexivity.
Qed.

Lemma wf_cell L lat i j :
  wf_lattice L lat -> 0 <= i < L -> 0 <= j < L ->
  cell lat (Z.to_nat i) (Z.to_nat j) = Some (spin lat i j) /\
  is_spin (spin lat i j).
Proof.
  intros Hwf Hi Hj.
  destruct (wf_lattice_row L lat i Hwf Hi) as (row & Hrow & Hlen & Hsp & Hnth).
  destruct (lookup_lt_is_Some_2 row (Z.to_nat j)) as [v Hv]; [lia|].
  unfold cell, spin. rewrite Hrow, Hnth, nth_lookup, Hv. simpl.
  split; [reflexivity|].
  rewrite Forall_lookup in Hsp. eauto.
Qed.

Lemma wf_shape L lat :
  wf_lattice L lat -> 0 < L ->
  Z.of_nat (shape0 lat) = L /\ Z.of_nat (shape1 lat) = L.
Proof.
  intros [Hlen Hrows] HL. split; [exact Hlen|].
  destruct lat as [|row lat]; [simpl in Hlen; lia|].
  simpl. inversion Hrows as [|? ? [H _] _]; subst. exact H.
Qed.

Lemma row_sum_insert row c v old :
  row !! c = Some old -> row_sum (<[c := v]> row) = row_sum row - old + v.
Proof.
  revert c. induction row as [|x row IH]; intros [|c] H; try discriminate.
  - injection H as ->. simpl. lia.
  - simpl in *. rewrite (IH c H). lia.
Qed.

Lemma total_sum_cons row lat : total_sum (row :: lat) = row_sum row + total_sum lat.
Proof. reflexivity. Qed.

Lemma total_sum_insert lat r row row' :
  lat !! r = Some row ->
  total_sum (<[r := row']> lat) = total_sum lat - row_sum row + row_sum row'.
Proof.
  revert r. induction lat as [|x lat IH]; intros [|r] H; try discriminate.
  - injection H as ->. simpl. lia.
  - change (<[S r := row']> (x :: lat)) with (x :: <[r := row']> lat).
    rewrite !total_sum_cons, (IH r H). lia.
Qed.

Lemma total_sum_set_cell lat r c v old :
  cell lat r c = Some old ->
  total_sum (set_cell lat r c v) = total_sum lat - old + v.
Proof.
  unfold cell, set_cell. destruct (lat !! r) as [row|] eqn:Hrow; [|discriminate].
  intros Hc. rewrite (total_sum_insert _ _ _ _ Hrow), (row_sum_insert _ _ _ _ Hc). lia.
Qed.

Lemma wf_lattice_set_cell L lat r c v :
  wf_lattice L lat -> is_spin v -> wf_lattice L (set_cell lat r c v).
Proof.
  intros [Hlen Hrows] Hv. unfold set_cell.
  destruct (lat !! r) as [row|] eqn:Hrow; [|now split].
  split; [now rewrite length_insert|].
  apply Forall_insert; [exact Hrows|].
  rewrite Forall_lookup in Hrows. destruct (Hrows _ _ Hrow) as [H1 H2].
  split; [now rewrite length_insert|].
  apply Forall_insert; auto.
Qed.

Lemma row_sum_bound row :
  Forall is_spin row -> - Z.of_nat (length row) <= row_sum row <= Z.of_nat (length row).
Proof.
  induction 1 as [|v row Hv Hs IH].
  - simpl. lia.
  - apply is_spin_bound in Hv.
    change (row_sum (v :: row)) with (v + row_sum row).
    rewrite length_cons, Nat2Z.inj_succ. lia.
Qed.

Lemma wf_lattice_bound L lat :
  wf_lattice L lat -> - (L * L) <= total_sum lat <= L * L.
Proof.
  intros [Hlen Hrows].
  assert (Hall : - (Z.of_nat (length lat) * L) <= total_sum lat
                 <= Z.of_nat (length lat) * L).
  { clear Hlen. induction Hrows as [|row lat [Hl Hr] Hrs IH].
    - simpl. lia.
    - apply row_sum_bound in Hr. rewrite Hl in Hr.
      rewrite total_sum_cons, length_cons, Nat2Z.inj_succ. lia. }
  rewrite Hlen in Hall. exact Hall.
Qed.

(** ** Rectangular arrays and [init_lattice_nb] *)

Lemma wf_lattice_rect L lat : wf_lattice L lat -> rect L lat.
Proof.
  intros [Hlen Hrows]. split; [exact Hlen|].
  eapply Forall_impl; [exact Hrows|]. now intros row [H _].
Qed.

Lemma rect_replicate L :
  0 <= L -> rect L (replicate (Z.to_nat L) (replicate (Z.to_nat L) 0)).
Proof.
  intros HL. split.
  - rewrite length_replicate. lia.
  - apply Forall_replicate. rewrite length_replicate. lia.
Qed.

Lemma rect_cell L lat i j :
  rect L lat -> 0 <= i < L -> 0 <= j < L ->
  exists v, cell lat (Z.to_nat i) (Z.to_nat j) = Some v.
Proof.
  intros [Hlen Hrows] Hi Hj.
  destruct (lookup_lt_is_Some_2 lat (Z.to_nat i)) as [row Hrow]; [lia|].
  rewrite Forall_lookup in Hrows. pose proof (Hrows _ _ Hrow) as Hl.
  destruct (lookup_lt_is_Some_2 row (Z.to_nat j)) as [v Hv]; [lia|].
  exists v. unfold cell. now rewrite Hrow.
Qed.

Lemma rect_shape L lat :
  rect L lat -> 0 < L -> Z.of_nat (shape0 lat) = L /\ Z.of_nat (shape1 lat) = L.
Proof.
  intros [Hlen Hrows] HL. split; [exact Hlen|].
  destruct lat as [|row lat]; [simpl in Hlen; lia|].
  simpl. now inversion Hrows.
Qed.

Lemma rect_set_cell L lat r c v : rect L lat -> rect L (set_cell lat r c v).
Proof.
  intros [Hlen Hrows]. unfold set_cell.
  destruct (lat !! r) as [row|] eqn:Hrow; [|now split].
  split; [now rewrite length_insert|].
  apply Forall_insert; [exact Hrows|].
  rewrite Forall_lookup in Hrows. rewrite length_insert. eauto.
Qed.

Lemma cell_set_cell_eq lat r c v old :
  cell lat r c = Some old -> cell (set_cell lat r c v) r c = Some v.
Proof.
  unfold cell, set_cell. destruct (lat !! r) as [row|] eqn:Hrow; [|discriminate].
  intros Hc. rewrite list_lookup_insert_eq by (eapply lookup_lt_Some; eauto).
  apply list_lookup_insert_eq. eapply lookup_lt_Some; eauto.
Qed.

Lemma cell_set_cell_ne lat r c v r' c' :
  (r, c) <> (r', c') -> cell (set_cell lat r c v) r' c' = cell lat r' c'.
Proof.
  intros Hne. unfold cell, set_cell.
  destruct (lat !! r) as [row|] eqn:Hrow; [|reflexivity].
  destruct (decide (r = r')) as [<-|Hr].
  - rewrite list_lookup_insert_eq by (eapply lookup_lt_Some; eauto).
    rewrite Hrow. apply list_lookup_insert_ne. congruence.
  - now rewrite list_lookup_insert_ne.
Qed.

Lemma filled_wf L lat : rect L lat -> filled L lat L 0 -> wf_lattice L lat.
Proof.
  intros [Hlen Hrows] Hf. split; [exact Hlen|].
  rewrite Forall_lookup in Hrows. apply Forall_lookup. intros r row Hrow.
  split; [eauto|].
  apply Forall_lookup. intros c v Hv.
  pose proof (lookup_lt_Some _ _ _ Hrow) as Hr.
  pose proof (lookup_lt_Some _ _ _ Hv) as Hc.
  pose proof (Hrows _ _ Hrow) as Hl.
  destruct (Hf (Z.of_nat r) (Z.of_nat c)) as (v' & Hcell & Hs); [lia | lia | lia |].
  unfold cell in Hcell. rewrite !Nat2Z.id, Hrow, Hv in Hcell.
  now injection Hcell as <-.
Qed.

Lemma tally_cons x l b :
  tally (x :: l) b = (if Z.eq_dec x b then 1 else 0) + tally l b.
Proof.
  unfold tally. cbn [count_occ]. destruct (Z.eq_dec x b); lia.
Qed.

Lemma tally_nonneg l b : 0 <= tally l b.
Proof. unfold tally. lia. Qed.

Lemma Qsum_insert (a : list Q) k x y :
  a !! k = Some y -> (Qsum (<[k := x]> a) == Qsum a - y + x)%Q.
Proof.
  revert k. induction a as [|z a IH]; intros [|k] H; try discriminate.
  - injection H as ->. cbn [insert list_insert Qsum fold_right]. ring.
  - change (<[S k := x]> (z :: a)) with (z :: <[k := x]> a).
    change (Qsum (z :: <[k := x]> a)) with (z + Qsum (<[k := x]> a))%Q.
    change (Qsum (z :: a)) with (z + Qsum a)%Q.
    rewrite (IH k H). ring.
Qed.

Lemma Qsum_replicate_0 n : (Qsum (replicate n 0%Q) == 0)%Q.
Proof.
  induction n as [|n IH]; [reflexivity|].
  change (Qsum (replicate (S n) 0%Q)) with (0 + Qsum (replicate n 0%Q))%Q.
  rewrite IH. reflexivity.
Qed.

(** ** The cells of a lattice in row-major order *)

Lemma concat_take_S (lat : lattice) i row :
  lat !! i = Some row -> concat (take (S i) lat) = concat (take i lat) ++ row.
Proof.
  intros H. rewrite (take_S_r _ _ _ H), concat_app. cbn [concat].
  now rewrite app_nil_r.
Qed.

Lemma rect_concat_take_length L lat (i : nat) :
  rect L lat -> (i <= length lat)%nat ->
  Z.of_nat (length (concat (take i lat))) = Z.of_nat i * L.
Proof.
  intros [Hlen Hrows] Hi. induction i as [|i IH].
  - rewrite take_0. simpl. lia.
  - destruct (lookup_lt_is_Some_2 lat i) as [row Hrow]; [lia|].
    rewrite (concat_take_S _ _ _ Hrow), length_app, Nat2Z.inj_add, IH by lia.
    rewrite Forall_lookup in Hrows. rewrite (Hrows _ _ Hrow). lia.
Qed.

Lemma row_sum_app l1 l2 : row_sum (l1 ++ l2) = row_sum l1 + row_sum l2.
Proof.
  induction l1 as [|x l1 IH]; [reflexivity|].
  change (row_sum ((x :: l1) ++ l2)) with (x + row_sum (l1 ++ l2)).
  change (row_sum (x :: l1)) with (x + row_sum l1). lia.
Qed.

Lemma total_sum_concat lat : total_sum lat = row_sum (concat lat).
Proof.
  induction lat as [|row lat IH]; [reflexivity|].
  cbn [concat]. rewrite row_sum_app, total_sum_cons. lia.
Qed.

Lemma wf_lattice_concat L lat :
  wf_lattice L lat -> Forall is_spin (concat lat).
Proof.
  intros [_ Hrows]. induction Hrows as [|row lat [_ Hr] _ IH]; [constructor|].
  cbn [concat]. apply Forall_app. now split.
Qed.

Lemma wf_concat_length L lat :
  wf_lattice L lat -> Z.of_nat (length (concat lat)) = L * L.
Proof.
  intros Hwf. pose proof (wf_lattice_rect L _ Hwf) as Hr.
  pose proof (rect_concat_take_length L lat (length lat) Hr (Nat.le_refl _)) as H.
  rewrite take_ge in H by lia. destruct Hr as [Hlen _]. now rewrite Hlen in H.
Qed.

Section EngineProofs.

Context {F : Float64} {G : Generator}.

(** ** Reasoning about monadic code *)

Lemma bind_OK {A B} (m : M A) (k : A -> M B) w a w' :
  m w = OK (a, w') -> bind m k w = k a w'.
Proof. intros H. unfold bind. now rewrite H. Qed.

Lemma bind_inv {A B} (m : M A) (k : A -> M B) w b w2 :
  bind m k w = OK (b, w2) ->
  exists a w1, m w = OK (a, w1) /\ k a w1 = OK (b, w2).
Proof.
  unfold bind. destruct (m w) as [[a w1]|e]; [|discriminate].
  intros H. now exists a, w1.
Qed.

Lemma bind_assoc {A B C} (m : M A) (f : A -> M B) (g : B -> M C) w :
  bind (bind m f) g w = bind m (fun a => bind (f a) g) w.
Proof. unfold bind. destruct (m w) as [[a w']|e]; reflexivity. Qed.

Lemma bind_ret {A B} (a : A) (k : A -> M B) w : bind (ret a) k w = k a w.
Proof. reflexivity. Qed.

Lemma returns_ret {A} (a : A) w (post : A -> world -> Prop) :
  post a w -> returns (ret a) w post.
Proof. intros H. now exists a, w. Qed.

Lemma returns_bind {A B} (m : M A) (k : A -> M B) w
      (mid : A -> world -> Prop) (post : B -> world -> Prop) :
  returns m w mid ->
  (forall a w', mid a w' -> returns (k a) w' post) ->
  returns (bind m k) w post.
Proof.
  intros (a & w' & Hm & Hmid) Hk.
  destruct (Hk a w' Hmid) as (b & w2 & Hb & Hpost).
  exists b, w2. split; [|exact Hpost].
  now rewrite (bind_OK _ _ _ _ _ Hm).
Qed.

Lemma returns_weaken {A} (m : M A) w (p q : A -> world -> Prop) :
  returns m w p -> (forall a w', p a w' -> q a w') -> returns m w q.
Proof. intros (a & w' & H & Hp) Hpq. exists a, w'. auto. Qed.

Lemma returns_eq {A} (m : M A) w a w' (post : A -> world -> Prop) :
  m w = OK (a, w') -> post a w' -> returns m w post.
Proof. intros H Hp. now exists a, w'. Qed.

(** The loop rule: an invariant indexed by the loop counter. *)
Lemma returns_for_loop {A} (inv : Z -> A -> world -> Prop)
      (body : Z -> A -> M A) n :
  forall i a w,
    inv i a w ->
    (forall k a w, i <= k < i + Z.of_nat n -> inv k a w ->
                   returns (body k a) w (inv (k + 1))) ->
    returns (for_loop n i body a) w (inv (i + Z.of_nat n)).
Proof.
  induction n as [|n IH]; intros i a w Hinv Hbody.
  - simpl. apply returns_ret. now replace (i + Z.of_nat 0) with i by lia.
  - cbn [for_loop]. eapply returns_bind.
    + apply Hbody; [lia | exact Hinv].
    + intros a' w' Hinv'. cbv beta.
      replace (i + Z.of_nat (S n)) with ((i + 1) + Z.of_nat n) by lia.
      apply IH; [exact Hinv'|].
      intros k a0 w0 Hk. apply Hbody. lia.
Qed.

Lemma returns_for_range {A} (inv : Z -> A -> world -> Prop)
      (body : Z -> A -> M A) n a w :
  0 <= n ->
  inv 0 a w ->
  (forall k a w, 0 <= k < n -> inv k a w -> returns (body k a) w (inv (k + 1))) ->
  returns (for_range n body a) w (inv n).
Proof.
  intros Hn Hinv Hbody. unfold for_range.
  replace n with (0 + Z.of_nat (Z.to_nat n)) at 2 by lia.
  apply returns_for_loop; [exact Hinv|].
  intros k a0 w0 Hk. apply Hbody. lia.
Qed.

(** A loop over an empty range does nothing. *)
Lemma for_range_nonpos {A} (body : Z -> A -> M A) n a w :
  n <= 0 -> for_range n body a w = OK (a, w).
Proof.
  intros Hn. unfold for_range.
  replace (Z.to_nat n) with 0%nat by lia. reflexivity.
Qed.

(** ** Reads and writes of a well-formed lattice *)

Lemma lat_get_wf L w i j :
  wf_lattice L (w_lat w) -> 0 <= i < L -> 0 <= j < L ->
  lat_get i j w = OK (spin (w_lat w) i j, w).
Proof.
  intros Hwf Hi Hj. unfold lat_get.
  destruct (wf_shape L _ Hwf ltac:(lia)) as [H0 H1].
  rewrite !norm_index_in_range by lia.
  destruct (wf_cell L _ i j Hwf Hi Hj) as [-> _]. reflexivity.
Qed.

Lemma lat_set_wf L w i j v :
  wf_lattice L (w_lat w) -> 0 <= i < L -> 0 <= j < L -> is_spin v ->
  lat_set i j v w =
    OK (tt, World (set_cell (w_lat w) (Z.to_nat i) (Z.to_nat j) v) (w_gen w)).
Proof.
  intros Hwf Hi Hj Hv. unfold lat_set.
  destruct (wf_shape L _ Hwf ltac:(lia)) as [H0 H1].
  rewrite !norm_index_in_range by lia.
  destruct (wf_cell L _ i j Hwf Hi Hj) as [-> _].
  rewrite wrap8_small by (apply is_spin_bound in Hv; lia). reflexivity.
Qed.

Lemma lat_get_frame i j w v w' : lat_get i j w = OK (v, w') -> w' = w.
Proof.
  unfold lat_get.
  destruct (norm_index _ i); [|discriminate].
  destruct (norm_index _ j); [|discriminate].
  destruct (cell _ _ _); [|discriminate].
  now intros [= _ <-].
Qed.

Lemma nb_mod_frame a b w v w' : nb_mod a b w = OK (v, w') -> w' = w.
Proof.
  unfold nb_mod. destruct (b =? 0); [discriminate|]. now intros [= _ <-].
Qed.

Lemma lat_shape0_wf L w :
  wf_lattice L (w_lat w) -> lat_shape0 w = OK (L, w).
Proof. intros [H _]. unfold lat_shape0, shape0. now rewrite H. Qed.

Lemma nb_mod_OK a b w : b <> 0 -> nb_mod a b w = OK (a mod b, w).
Proof.
  intros H. unfold nb_mod. destruct (Z.eqb_spec b 0); [contradiction|reflexivity].
Qed.

Lemma np_mod_nonzero a b : b <> 0 -> np_mod a b = a mod b.
Proof.
  intros H. unfold np_mod. destruct (Z.eqb_spec b 0); [contradiction|reflexivity].
Qed.

Ltac step_with H := rewrite (bind_OK _ _ _ _ _ H); cbv beta.

Ltac step_get L Hwf :=
  match goal with
  | |- context [bind (lat_get ?i ?j) _ ?w] =>
      let H := fresh in
      assert (H : lat_get i j w = OK (spin (w_lat w) i j, w))
        by (apply (lat_get_wf L); [exact Hwf | try lia; apply Z.mod_pos_bound; lia ..]);
      step_with H; clear H
  end.

Ltac step_mod :=
  match goal with
  | |- context [bind (nb_mod ?a ?b) _ ?w] =>
      let H := fresh in
      assert (H : nb_mod a b w = OK (a mod b, w)) by (apply nb_mod_OK; lia);
      step_with H; clear H
  end.

(** The value and the frame of [delta_energy_nb] on a lattice of spins. *)
Lemma delta_energy_nb_run L w i j J h :
  wf_lattice L (w_lat w) -> 0 <= i < L -> 0 <= j < L ->
  delta_energy_nb i j J h w = OK (energy_change L (w_lat w) i j J h, w).
Proof.
  intros Hwf Hi Hj. unfold delta_energy_nb.
  step_with (lat_shape0_wf L w Hwf).
  step_get L Hwf.
  step_mod. step_get L Hwf.
  step_mod. step_get L Hwf.
  step_mod. step_get L Hwf.
  step_mod. step_get L Hwf.
  reflexivity.
Qed.

Lemma neighbor_sum_bound L lat i j :
  wf_lattice L lat -> 0 <= i < L -> 0 <= j < L ->
  -4 <= neighbor_sum L lat i j <= 4.
Proof.
  intros Hwf Hi Hj. unfold neighbor_sum.
  assert (Hs : forall a b, 0 <= a < L -> 0 <= b < L -> -1 <= spin lat a b <= 1).
  { intros a b Ha Hb. apply is_spin_bound. now apply (wf_cell L). }
  pose proof (Hs ((i + 1) mod L) j ltac:(apply Z.mod_pos_bound; lia) Hj).
  pose proof (Hs ((i - 1) mod L) j ltac:(apply Z.mod_pos_bound; lia) Hj).
  pose proof (Hs i ((j + 1) mod L) Hi ltac:(apply Z.mod_pos_bound; lia)).
  pose proof (Hs i ((j - 1) mod L) Hi ltac:(apply Z.mod_pos_bound; lia)).
  lia.
Qed.

(** The value and the frame of [delta_E_and_dM] on a lattice of spins. *)
Lemma delta_E_and_dM_run L w i j J k_bias M0 M_ :
  wf_lattice L (w_lat w) -> 0 <= i < L -> 0 <= j < L ->
  delta_E_and_dM i j J k_bias M0 M_ w =
    OK ((biased_change L (w_lat w) i j J k_bias M0 M_, -2 * spin (w_lat w) i j), w).
Proof.
  intros Hwf Hi Hj. unfold delta_E_and_dM.
  step_with (lat_shape0_wf L w Hwf).
  rewrite !np_mod_nonzero by lia.
  step_get L Hwf. step_get L Hwf. step_get L Hwf. step_get L Hwf. step_get L Hwf.
  assert (Hs : forall a b, 0 <= a < L -> 0 <= b < L -> -1 <= spin (w_lat w) a b <= 1).
  { intros a b Ha Hb. apply is_spin_bound. now apply (wf_cell L). }
  pose proof (Hs i j Hi Hj).
  pose proof (Hs ((i + 1) mod L) j ltac:(apply Z.mod_pos_bound; lia) Hj).
  pose proof (Hs ((i - 1) mod L) j ltac:(apply Z.mod_pos_bound; lia) Hj).
  pose proof (Hs i ((j + 1) mod L) Hi ltac:(apply Z.mod_pos_bound; lia)).
  pose proof (Hs i ((j - 1) mod L) Hi ltac:(apply Z.mod_pos_bound; lia)).
  unfold ret, biased_change, neighbor_sum.
  rewrite (wrap8_small (_ + spin (w_lat w) ((i - 1) mod L) j)) by lia.
  rewrite (wrap8_small (_ + spin (w_lat w) i ((j + 1) mod L))) by lia.
  rewrite (wrap8_small (_ + spin (w_lat w) i ((j - 1) mod L))) by lia.
  rewrite (wrap8_small (2 * _)) by lia.
  rewrite (wrap8_small (-2 * _)) by lia.
  reflexivity.
Qed.

(** ** C2, C3, C10: the local energy model *)

(** C2.  On an [L] by [L] lattice of spins and a site in range,
    [delta_energy_nb] raises nothing and returns [2 s (J nb + h)], where [s]
    is the spin at the site and [nb] the sum of its four neighbours with both
    indices wrapped modulo [L]; without rounding this is the rational
    [2 s (J nb + h)]. *)
Theorem delta_energy_nb_formula L w i j J h :
  wf_lattice L (w_lat w) -> 0 <= i < L -> 0 <= j < L ->
  delta_energy_nb i j J h w = OK (energy_change L (w_lat w) i j J h, w) /\
  ((forall x, rnd x == x)%Q ->
   (energy_change L (w_lat w) i j J h == energy_change_exact L (w_lat w) i j J h)%Q).
Proof.
  intros Hwf Hi Hj. split; [now apply delta_energy_nb_run|].
  intros Hr. unfold energy_change, energy_change_exact, fmul, fadd, of_Z.
  rewrite !Hr, inject_Z_mult. reflexivity.
Qed.

(** C3.  On a lattice of spins, [delta_E_and_dM] returns [dM = -2 s] and
    the energy change [2 s J nb] plus the change of the bias potential
    [k_bias/2 ((M + dM - M0)^2 - (M - M0)^2)]; the field [h] is not among
    its arguments and does not occur in the result. *)
Theorem delta_E_and_dM_formula L w i j J k_bias M0 M_ :
  wf_lattice L (w_lat w) -> 0 <= i < L -> 0 <= j < L ->
  delta_E_and_dM i j J k_bias M0 M_ w =
    OK ((biased_change L (w_lat w) i j J k_bias M0 M_, -2 * spin (w_lat w) i j), w) /\
  ((forall x, rnd x == x)%Q ->
   (biased_change L (w_lat w) i j J k_bias M0 M_
    == biased_change_exact L (w_lat w) i j J k_bias M0 M_)%Q).
Proof.
  intros Hwf Hi Hj. split; [now apply delta_E_and_dM_run|].
  intros Hr. unfold biased_change, biased_change_exact, fmul, fadd, fsub, of_Z.
  cbv zeta. rewrite !Hr, inject_Z_mult. reflexivity.
Qed.

(** Whatever the world, the site and the parameters, a call of
    [delta_energy_nb] or of [delta_E_and_dM] that returns leaves the lattice
    and the generator as they were. *)
Lemma delta_calls_frame w i j J h k_bias M0 M_ :
  (forall v w', delta_energy_nb i j J h w = OK (v, w') -> w' = w) /\
  (forall v w', delta_E_and_dM i j J k_bias M0 M_ w = OK (v, w') -> w' = w).
Proof.
  split; intros v w' H.
  - unfold delta_energy_nb in H.
    repeat match type of H with
    | bind _ _ _ = OK _ =>
        let a := fresh "a" in let w1 := fresh "w" in
        let H1 := fresh "H" in let H2 := fresh "H" in
        apply bind_inv in H; destruct H as (a & w1 & H1 & H2);
        first [ apply lat_get_frame in H1 | apply nb_mod_frame in H1
              | (unfold lat_shape0 in H1; injection H1 as _ H1; symmetry in H1) ];
        subst w1; rename H2 into H
    end.
    unfold ret in H. now injection H as _ <-.
  - unfold delta_E_and_dM in H.
    repeat match type of H with
    | bind _ _ _ = OK _ =>
        let a := fresh "a" in let w1 := fresh "w" in
        let H1 := fresh "H" in let H2 := fresh "H" in
        apply bind_inv in H; destruct H as (a & w1 & H1 & H2);
        first [ apply lat_get_frame in H1
              | (unfold lat_shape0 in H1; injection H1 as _ H1; symmetry in H1) ];
        subst w1; rename H2 into H
    end.
    unfold ret in H. now injection H as _ <-.
Qed.

(** ** C1: the Metropolis sweep *)

Lemma np_randint_run {GL : GeneratorLaws G} lo hi w :
  lo < hi ->
  exists x g, randint lo hi (w_gen w) = (x, g) /\ lo <= x < hi /\
              np_randint lo hi w = OK (x, World (w_lat w) g).
Proof.
  intros H. unfold np_randint.
  destruct (Z.ltb_spec lo hi); [|lia].
  pose proof (randint_range lo hi (w_gen w) H) as Hr.
  destruct (randint lo hi (w_gen w)) as [x g]. now exists x, g.
Qed.

Lemma trials_spec_snoc L beta J h n w w1 w2 :
  trials_spec L beta J h n w w1 ->
  trial_spec L beta J h w1 w2 ->
  trials_spec L beta J h (S n) w w2.
Proof.
  induction 1 as [w|n w wa wb Hstep Hrest IH]; intros Hlast.
  - econstructor; [exact Hlast|constructor].
  - econstructor; [exact Hstep|]. apply IH, Hlast.
Qed.

Lemma wf_lattice_flip L lat i j :
  wf_lattice L lat -> 0 <= i < L -> 0 <= j < L -> wf_lattice L (flip lat i j).
Proof.
  intros Hwf Hi Hj. apply wf_lattice_set_cell; [exact Hwf|].
  apply is_spin_opp. now apply (wf_cell L).
Qed.

(** One trial of the loop of line 66 is one trial of the specification. *)
Lemma metropolis_trial_run {GL : GeneratorLaws G} L beta J h w :
  wf_lattice L (w_lat w) -> 0 < L ->
  returns (metropolis_trial L beta J h) w
    (fun _ w' => trial_spec L beta J h w w' /\ wf_lattice L (w_lat w')).
Proof.
  intros Hwf HL. unfold metropolis_trial.
  destruct (np_randint_run 0 L w HL) as (i & g1 & Ei & Hi & Ri).
  destruct (np_randint_run 0 L (World (w_lat w) g1) HL) as (j & g2 & Ej & Hj & Rj).
  cbn [w_lat w_gen] in Ej, Rj.
  assert (Hde := delta_energy_nb_run L (World (w_lat w) g2) i j J h Hwf Hi Hj).
  cbn [w_lat] in Hde.
  pose proof (random_range g2) as Hu01.
  destruct (random g2) as [u g3] eqn:Eu. cbn [fst] in Hu01.
  pose proof (trial_spec_intro L beta J h w i g1 j g2 u g3 Ei Ej Hi Hj Eu Hu01) as Hspec.
  unfold accept_rule in Hspec.
  unfold returns.
  step_with Ri. step_with Rj. step_with Hde.
  unfold metropolis_accept.
  destruct (fleb (energy_change L (w_lat w) i j J h) 0) eqn:Hle.
  - rewrite bind_ret.
    rewrite (bind_OK _ _ _ _ _ (lat_get_wf L (World (w_lat w) g2) i j Hwf Hi Hj)).
    cbn [w_lat].
    rewrite (lat_set_wf L (World (w_lat w) g2) i j _ Hwf Hi Hj)
      by (apply is_spin_opp; now apply (wf_cell L)).
    cbn [w_lat w_gen]. eexists _, _. split; [reflexivity|].
    split; [exact Hspec|]. now apply wf_lattice_flip.
  - assert (Hu : np_random (World (w_lat w) g2) = OK (u, World (w_lat w) g3)).
    { unfold np_random. cbn [w_gen w_lat]. now rewrite Eu. }
    rewrite bind_assoc. step_with Hu. rewrite bind_ret. cbn [orb] in Hspec.
    destruct (fltb u (exp (fmul (fneg beta) (energy_change L (w_lat w) i j J h)))).
    + rewrite (bind_OK _ _ _ _ _ (lat_get_wf L (World (w_lat w) g3) i j Hwf Hi Hj)).
      cbn [w_lat].
      rewrite (lat_set_wf L (World (w_lat w) g3) i j _ Hwf Hi Hj)
        by (apply is_spin_opp; now apply (wf_cell L)).
      cbn [w_lat w_gen]. eexists _, _. split; [reflexivity|].
      split; [exact Hspec|]. now apply wf_lattice_flip.
    + eexists _, _. split; [reflexivity|]. split; [exact Hspec|exact Hwf].
Qed.

Lemma wf_lattice_nonneg L lat : wf_lattice L lat -> 0 <= L.
Proof. intros [H _]. lia. Qed.

(** A sweep on a lattice of spins: [L * L] trials of the specification. *)
Lemma metropolis_step_nb_run {GL : GeneratorLaws G} L beta J h w :
  wf_lattice L (w_lat w) ->
  exists w', metropolis_step_nb beta J h w = OK (tt, w') /\
             trials_spec L beta J h (Z.to_nat (L * L)) w w' /\
             wf_lattice L (w_lat w').
Proof.
  intros Hwf. pose proof (wf_lattice_nonneg L _ Hwf) as HL.
  unfold metropolis_step_nb. step_with (lat_shape0_wf L w Hwf).
  destruct (returns_for_range
              (fun k (_ : unit) w' =>
                 trials_spec L beta J h (Z.to_nat k) w w' /\ wf_lattice L (w_lat w'))
              (fun _ _ => metropolis_trial L beta J h) (L * L) tt w)
    as ([] & w' & Hrun & Hspec & Hwf').
  - nia.
  - split; [constructor|exact Hwf].
  - intros k [] w1 Hk [Hs Hw1].
    eapply returns_weaken; [apply metropolis_trial_run; [exact Hw1|nia]|].
    intros _ w2 [Ht Hw2]. split; [|exact Hw2].
    replace (Z.to_nat (k + 1)) with (S (Z.to_nat k)) by lia.
    eapply trials_spec_snoc; eassumption.
  - exists w'. auto.
Qed.

(** C1.  On an [L] by [L] lattice of spins, a call of [metropolis_step_nb]
    raises nothing and performs exactly [L * L] trials; each trial takes its
    site from two fresh draws of [randint(0, L)] and flips that spin if and
    only if [dE <= 0] or the next draw of [random()] is below
    [exp(- beta * dE)].  (That the draws are uniform and independent is the
    contract of the generator.) *)
Theorem metropolis_step_nb_sweep {GL : GeneratorLaws G} L beta J h w :
  wf_lattice L (w_lat w) ->
  exists w', metropolis_step_nb beta J h w = OK (tt, w') /\
             trials_spec L beta J h (Z.to_nat (L * L)) w w' /\
             wf_lattice L (w_lat w').
Proof.
  intros Hwf. destruct (metropolis_step_nb_run L beta J h w Hwf) as (w' & Hrun & Hspec).
  exists w'. split; [exact Hrun|exact Hspec].
Qed.

(** ** [init_lattice_nb] builds a lattice of spins *)

Lemma lat_set_rect L w i j v :
  rect L (w_lat w) -> 0 <= i < L -> 0 <= j < L ->
  lat_set i j v w =
    OK (tt, World (set_cell (w_lat w) (Z.to_nat i) (Z.to_nat j) (wrap8 v)) (w_gen w)).
Proof.
  intros Hr Hi Hj. unfold lat_set.
  destruct (rect_shape L _ Hr ltac:(lia)) as [H0 H1].
  rewrite !norm_index_in_range by lia.
  destruct (rect_cell L _ i j Hr Hi Hj) as [old ->]. reflexivity.
Qed.

Lemma init_cell_run {GL : GeneratorLaws G} L i j w :
  rect L (w_lat w) -> 0 <= i < L -> 0 <= j < L -> filled L (w_lat w) i j ->
  returns (bind (np_randint 0 2) (fun r => lat_set i j (if r =? 0 then -1 else 1))) w
    (fun _ w' => rect L (w_lat w') /\ filled L (w_lat w') i (j + 1)).
Proof.
  intros Hr Hi Hj Hf.
  destruct (np_randint_run 0 2 w ltac:(lia)) as (x & g & Ex & Hx & Rx).
  unfold returns. step_with Rx.
  rewrite (lat_set_rect L) by assumption. cbn [w_lat w_gen].
  eexists _, _. split; [reflexivity|]. cbn [w_lat].
  split; [now apply rect_set_cell|].
  destruct (rect_cell L _ i j Hr Hi Hj) as [old Hold].
  intros r c Hr' Hc' Hlt.
  destruct (decide ((Z.to_nat i, Z.to_nat j) = (Z.to_nat r, Z.to_nat c))) as [E|E].
  - assert (r = i /\ c = j) as [-> ->] by (injection E; lia).
    rewrite (cell_set_cell_eq _ _ _ _ _ Hold). eexists. split; [reflexivity|].
    rewrite wrap8_small by (destruct (x =? 0); lia).
    destruct (x =? 0); [now left|now right].
  - rewrite cell_set_cell_ne by exact E. apply Hf; [lia|lia|].
    destruct Hlt as [Hlt|[-> Hlt]]; [now left|right].
    split; [reflexivity|].
    assert (c <> j) by (intros ->; now apply E). lia.
Qed.

Lemma init_lattice_nb_run {GL : GeneratorLaws G} L w :
  0 <= L ->
  returns (init_lattice_nb L) w (fun _ w' => wf_lattice L (w_lat w')).
Proof.
  intros HL. unfold init_lattice_nb.
  eapply returns_bind
    with (mid := fun _ w' => rect L (w_lat w') /\ filled L (w_lat w') 0 0).
  - unfold returns, np_empty. destruct (Z.ltb_spec L 0); [lia|].
    eexists _, _. split; [reflexivity|]. cbn [w_lat].
    split; [now apply rect_replicate|]. intros r c Hr Hc Hlt. lia.
  - intros _ w1 [Hr1 Hf1].
    eapply returns_weaken.
    + apply (returns_for_range
               (fun i (_ : unit) w' => rect L (w_lat w') /\ filled L (w_lat w') i 0));
        [exact HL | now split |].
      intros i [] w2 Hi [Hr2 Hf2].
      eapply returns_weaken.
      * apply (returns_for_range
                 (fun j (_ : unit) w' => rect L (w_lat w') /\ filled L (w_lat w') i j));
          [exact HL | now split |].
        intros j [] w3 Hj [Hr3 Hf3]. now apply init_cell_run.
      * intros _ w3 [Hr3 Hf3]. split; [exact Hr3|].
        intros r c Hr Hc Hlt. apply Hf3; [exact Hr|exact Hc|]. lia.
    + intros _ w2 [Hr2 Hf2]. now apply filled_wf.
Qed.

(** ** Rounding *)

Section Rounding.

Context {FL : Float64Laws F}.

Lemma rnd_proper x y : (x == y)%Q -> (rnd x == rnd y)%Q.
Proof.
  intros E. apply Qle_antisym; apply rnd_mono; rewrite E; apply Qle_refl.
Qed.

#[local] Instance rnd_Proper : Proper (Qeq ==> Qeq) rnd.
Proof. intros x y E. now apply rnd_proper. Qed.

Lemma rnd_Z z q : Z.abs z <= 2 ^ 53 -> (q == inject_Z z)%Q -> (rnd q == inject_Z z)%Q.
Proof. intros Hz E. rewrite E. now apply rnd_int. Qed.

Lemma of_Z_exact z : Z.abs z <= 2 ^ 53 -> (of_Z z == inject_Z z)%Q.
Proof. apply rnd_int. Qed.

Lemma rnd_nonneg x : (0 <= x)%Q -> (0 <= rnd x)%Q.
Proof.
  intros H. rewrite <- (rnd_int 0) by (vm_compute; discriminate).
  now apply rnd_mono.
Qed.

Lemma rnd_le_Z x z : Z.abs z <= 2 ^ 53 -> (x <= inject_Z z)%Q -> (rnd x <= inject_Z z)%Q.
Proof.
  intros Hz H. rewrite <- (rnd_int z) by exact Hz. now apply rnd_mono.
Qed.

Lemma fadd_Z a b x y :
  Z.abs (a + b) <= 2 ^ 53 ->
  (x == inject_Z a)%Q -> (y == inject_Z b)%Q -> (fadd x y == inject_Z (a + b))%Q.
Proof.
  intros Hz Ex Ey. unfold fadd. apply rnd_Z; [exact Hz|].
  rewrite Ex, Ey, inject_Z_plus. reflexivity.
Qed.

Lemma fsub_Z a b x y :
  Z.abs (a - b) <= 2 ^ 53 ->
  (x == inject_Z a)%Q -> (y == inject_Z b)%Q -> (fsub x y == inject_Z (a - b))%Q.
Proof.
  intros Hz Ex Ey. unfold fsub. apply rnd_Z; [exact Hz|].
  rewrite Ex, Ey. unfold Z.sub. rewrite inject_Z_plus, inject_Z_opp. reflexivity.
Qed.

(** A quotient of equal non-zero numbers is 1. *)
Lemma fdiv_same x y : (x == y)%Q -> ~ (y == 0)%Q -> (fdiv x y == 1)%Q.
Proof.
  intros E Hy. unfold fdiv. apply (rnd_Z 1); [vm_compute; discriminate|].
  rewrite E. field. exact Hy.
Qed.

Lemma inject_Z_nonzero z : z <> 0 -> ~ (inject_Z z == 0)%Q.
Proof.
  intros Hz E. apply Hz. now apply (inject_Z_injective z 0).
Qed.

(** ** C5: the histogram index *)

Lemma arr_get_first (a : list Q) w :
  (0 < length a)%nat -> arr_get a 0 w = OK (nth 0 a 0%Q, w).
Proof.
  intros Hlen. unfold arr_get. rewrite norm_index_in_range by lia.
  destruct a as [|x a]; [simpl in Hlen; lia|reflexivity].
Qed.

Lemma arr_get_last (a : list Q) w :
  (0 < length a)%nat -> arr_get a (-1) w = OK (List.last a 0%Q, w).
Proof.
  intros Hlen. unfold arr_get, norm_index.
  destruct (Z.leb_spec 0 (-1)); [lia|]. cbn [andb].
  destruct (Z.leb_spec (- Z.of_nat (length a)) (-1)); [|lia].
  destruct (Z.ltb_spec (-1) 0); [|lia]. cbn [andb].
  replace (Z.to_nat (-1 + Z.of_nat (length a))) with (pred (length a)) by lia.
  rewrite <- last_lookup.
  destruct (exists_last (l := a)) as (a' & x & ->); [now intros ->|].
  rewrite last_snoc, List.last_last. reflexivity.
Qed.

Lemma arr_get_in_range (a : list Q) k w :
  0 <= k < Z.of_nat (length a) ->
  exists x, a !! Z.to_nat k = Some x /\ arr_get a k w = OK (x, w).
Proof.
  intros Hk. destruct (lookup_lt_is_Some_2 a (Z.to_nat k)) as [x Hx]; [lia|].
  exists x. split; [exact Hx|].
  unfold arr_get. rewrite norm_index_in_range by lia. now rewrite Hx.
Qed.

Lemma arr_iadd_in_range (a : list Q) k x w :
  0 <= k < Z.of_nat (length a) ->
  exists y, a !! Z.to_nat k = Some y /\
            arr_iadd a k x w = OK (<[Z.to_nat k := fadd y x]> a, w).
Proof.
  intros Hk. destruct (arr_get_in_range a k w Hk) as (y & Hy & Hget).
  exists y. split; [exact Hy|]. unfold arr_iadd. step_with Hget.
  unfold arr_set. now rewrite norm_index_in_range by lia.
Qed.

Lemma last_insert_last {A} (y : list A) n x d :
  length y = S n -> List.last (<[n := x]> y) d = x.
Proof.
  intros Hlen. destruct (exists_last (l := y)) as (y' & a & ->).
  { intros ->. discriminate. }
  rewrite length_app in Hlen. simpl in Hlen.
  rewrite insert_app_r_alt by lia.
  replace (n - length y')%nat with 0%nat by lia.
  cbn [insert list_insert]. apply List.last_last.
Qed.

(** The grid of [run_window_us]: [bins] points from [-L*L] to [L*L]. *)
Lemma np_linspace_grid L bins w :
  1 <= L -> 2 * (L * L) <= 2 ^ 53 -> 2 <= bins ->
  exists Mgrid,
    np_linspace (- L * L) (L * L) bins w = OK (Mgrid, w) /\
    Z.of_nat (length Mgrid) = bins /\
    (nth 0 Mgrid 0 == inject_Z (- (L * L)))%Q /\
    (List.last Mgrid 0 == inject_Z (L * L))%Q.
Proof.
  intros HL Hb Hbins. unfold np_linspace.
  destruct (Z.ltb_spec bins 0); [lia|].
  destruct (Z.ltb_spec 1 bins); [|lia].
  destruct (Z.ltb_spec 0 (bins - 1)); [|lia].
  eexists. split; [reflexivity|].
  assert (Hstart : (of_Z (- L * L) == inject_Z (- (L * L)))%Q).
  { replace (- L * L) with (- (L * L)) by lia. apply of_Z_exact. nia. }
  assert (Hstop : (of_Z (L * L) == inject_Z (L * L))%Q) by (apply of_Z_exact; nia).
  assert (Hzero : (of_Z 0 == 0)%Q) by (apply (of_Z_exact 0); vm_compute; discriminate).
  split; [|split].
  - rewrite length_insert, length_map, length_seq. lia.
  - replace (Z.to_nat bins) with (S (S (Z.to_nat (bins - 2)))) by lia.
    replace (Z.to_nat (bins - 1)) with (S (Z.to_nat (bins - 2))) by lia.
    cbn [seq map insert list_insert nth Z.of_nat].
    assert (Hadd : forall q, (q == 0)%Q ->
                   (fadd q (of_Z (- L * L)) == inject_Z (- (L * L)))%Q).
    { intros q Hq. unfold fadd.
      apply rnd_Z; [nia|]. rewrite Hq, Hstart. ring. }
    destruct (Qeq_bool _ 0); apply Hadd; unfold fmul, fdiv.
    + apply (rnd_Z 0); [vm_compute; discriminate|].
      assert (E : (rnd (of_Z 0 / of_Z (bins - 1)) == 0)%Q).
      { apply (rnd_Z 0); [vm_compute; discriminate|]. rewrite Hzero.
        unfold Qdiv. ring. }
      rewrite E. ring.
    + apply (rnd_Z 0); [vm_compute; discriminate|]. rewrite Hzero. ring.
  - rewrite last_insert_last; [exact Hstop|].
    rewrite length_map, length_seq. lia.
Qed.

Lemma py_int_range x n :
  (0 <= x)%Q -> (x <= inject_Z n)%Q -> 0 <= py_int x <= n.
Proof.
  intros H0 Hn. unfold py_int.
  apply Qle_bool_iff in H0. rewrite H0. apply Qle_bool_iff in H0.
  split.
  - change 0 with (Qfloor (inject_Z 0)) at 1. rewrite Qfloor_Z.
    rewrite <- (Qfloor_Z 0). now apply Qfloor_resp_le.
  - rewrite <- (Qfloor_Z n). now apply Qfloor_resp_le.
Qed.

(** On the grid from [-L*L] to [L*L], the index of a magnetization between
    the end points is a valid bin. *)
Lemma hist_index_run L bins M_ Mgrid w :
  1 <= L -> 2 * (L * L) <= 2 ^ 53 -> 2 <= bins <= 2 ^ 53 ->
  - (L * L) <= M_ <= L * L ->
  (0 < length Mgrid)%nat ->
  (nth 0 Mgrid 0 == inject_Z (- (L * L)))%Q ->
  (List.last Mgrid 0 == inject_Z (L * L))%Q ->
  hist_index M_ Mgrid bins w = OK (bin_of Mgrid bins M_, w) /\
  0 <= bin_of Mgrid bins M_ <= bins - 1.
Proof.
  intros HL Hb Hbins HM Hlen Hg0 Hg1.
  assert (Hnum : (fsub (of_Z M_) (nth 0 Mgrid 0) == inject_Z (M_ + L * L))%Q).
  { replace (M_ + L * L) with (M_ - - (L * L)) by lia.
    apply fsub_Z; [nia | apply of_Z_exact; nia | exact Hg0]. }
  assert (Hden : (fsub (List.last Mgrid 0) (nth 0 Mgrid 0) == inject_Z (2 * (L * L)))%Q).
  { replace (2 * (L * L)) with (L * L - - (L * L)) by lia.
    apply fsub_Z; [nia | exact Hg1 | exact Hg0]. }
  assert (Hbm : (of_Z (bins - 1) == inject_Z (bins - 1))%Q) by (apply of_Z_exact; lia).
  assert (Hpos : (0 < inject_Z (2 * (L * L)))%Q).
  { change 0%Q with (inject_Z 0). rewrite <- Zlt_Qlt. nia. }
  split.
  - unfold hist_index.
    step_with (arr_get_first Mgrid w Hlen).
    step_with (arr_get_last Mgrid w Hlen).
    step_with (arr_get_first Mgrid w Hlen).
    destruct (Qeq_bool _ 0) eqn:E; [|reflexivity].
    apply Qeq_bool_eq in E. rewrite Hden in E. rewrite E in Hpos.
    now apply Qlt_irrefl in Hpos.
  - unfold bin_of.
    set (q := fdiv _ _).
    assert (Hq : (0 <= q /\ q <= 1)%Q).
    { unfold q, fdiv. split.
      - apply rnd_nonneg. rewrite Hnum, Hden.
        apply Qle_shift_div_l; [exact Hpos|]. rewrite Qmult_0_l.
        change 0%Q with (inject_Z 0). rewrite <- Zle_Qle. lia.
      - apply (rnd_le_Z _ 1); [vm_compute; discriminate|].
        rewrite Hnum, Hden. apply Qle_shift_div_r; [exact Hpos|].
        rewrite Qmult_1_l. rewrite <- Zle_Qle. lia. }
    destruct Hq as [Hq0 Hq1].
    assert (Hb1 : (0 <= inject_Z (bins - 1))%Q).
    { change 0%Q with (inject_Z 0). rewrite <- Zle_Qle. lia. }
    apply py_int_range; unfold fmul.
    + apply rnd_nonneg. rewrite Hbm. now apply Qmult_le_0_compat.
    + apply rnd_le_Z; [lia|]. rewrite Hbm.
      rewrite <- (Qmult_1_l (inject_Z (bins - 1))) at 2.
      now apply Qmult_le_compat_r.
Qed.

(** C5.  For [bins >= 2] and a magnetization between [-L*L] and [L*L] (the
    values that a run reaches), the index of line 449 on the grid of line
    429 is a bin between 0 and [bins - 1], and the increment of line 450 is
    within the histogram.  The sizes are those for which [float64] is exact
    on the integers involved. *)
Theorem hist_index_in_bounds L bins M_ w :
  1 <= L -> 2 * (L * L) <= 2 ^ 53 -> 2 <= bins <= 2 ^ 53 ->
  - (L * L) <= M_ <= L * L ->
  exists Mgrid idx,
    np_linspace (- L * L) (L * L) bins w = OK (Mgrid, w) /\
    hist_index M_ Mgrid bins w = OK (idx, w) /\
    0 <= idx <= bins - 1 /\
    forall hist, Z.of_nat (length hist) = bins ->
      exists hist', arr_iadd hist idx 1 w = OK (hist', w) /\
                    length hist' = length hist.
Proof.
  intros HL Hb Hbins HM.
  destruct (np_linspace_grid L bins w HL Hb ltac:(lia)) as (Mgrid & Hgrid & Hlen & Hg0 & Hg1).
  destruct (hist_index_run L bins M_ Mgrid w HL Hb Hbins HM ltac:(lia) Hg0 Hg1)
    as [Hidx Hrange].
  exists Mgrid, (bin_of Mgrid bins M_). repeat split; try assumption; try lia.
  intros hist Hh.
  assert (Hin : 0 <= bin_of Mgrid bins M_ < Z.of_nat (length hist)) by lia.
  destruct (arr_iadd_in_range hist _ 1 w Hin) as (y & Hy & Hr).
  eexists. split; [exact Hr|]. apply length_insert.
Qed.

(** ** C4: the tracked magnetization *)

Lemma total_sum_flip L lat i j :
  wf_lattice L lat -> 0 <= i < L -> 0 <= j < L ->
  total_sum (flip lat i j) = total_sum lat - 2 * spin lat i j.
Proof.
  intros Hwf Hi Hj. unfold flip.
  destruct (wf_cell L lat i j Hwf Hi Hj) as [Hc _].
  rewrite (total_sum_set_cell _ _ _ _ _ Hc). lia.
Qed.

(** One biased trial keeps the lattice a lattice of spins and moves the
    tracked magnetization together with the lattice sum: not at all, or by
    [- 2 s] where [s] is the flipped spin. *)
Lemma us_trial_run {GL : GeneratorLaws G} L beta J k_bias M0 M_ w :
  wf_lattice L (w_lat w) -> 0 < L ->
  returns (us_trial L beta J k_bias M0 M_) w
    (fun M' w' =>
       wf_lattice L (w_lat w') /\
       M' - total_sum (w_lat w') = M_ - total_sum (w_lat w) /\
       ((M' = M_ /\ w_lat w' = w_lat w) \/
        (exists i j, 0 <= i < L /\ 0 <= j < L /\
                     w_lat w' = flip (w_lat w) i j /\
                     (M' = M_ + 2 \/ M' = M_ - 2)))).
Proof.
  intros Hwf HL. unfold us_trial.
  destruct (np_randint_run 0 L w HL) as (i & g1 & Ei & Hi & Ri).
  destruct (np_randint_run 0 L (World (w_lat w) g1) HL) as (j & g2 & Ej & Hj & Rj).
  cbn [w_lat w_gen] in Ej, Rj.
  assert (Hde := delta_E_and_dM_run L (World (w_lat w) g2) i j J k_bias M0 M_ Hwf Hi Hj).
  cbn [w_lat] in Hde.
  unfold returns. step_with Ri. step_with Rj. step_with Hde. cbn [fst snd].
  destruct (wf_cell L _ i j Hwf Hi Hj) as [_ Hs].
  assert (Hflip : forall g, exists w',
    bind (lat_get i j)
         (fun v => bind (lat_set i j (v * -1))
                        (fun _ => ret (M_ + -2 * spin (w_lat w) i j)))
         (World (w_lat w) g)
    = OK (M_ + -2 * spin (w_lat w) i j, w') /\
    w_lat w' = flip (w_lat w) i j).
  { intros g.
    rewrite (bind_OK _ _ _ _ _ (lat_get_wf L (World (w_lat w) g) i j Hwf Hi Hj)).
    cbn [w_lat].
    replace (spin (w_lat w) i j * -1) with (- spin (w_lat w) i j) by lia.
    rewrite (bind_OK _ _ _ _ _
               (lat_set_wf L (World (w_lat w) g) i j _ Hwf Hi Hj (is_spin_opp _ Hs))).
    eexists. split; reflexivity. }
  assert (Hacc : forall w', w_lat w' = flip (w_lat w) i j ->
    wf_lattice L (w_lat w') /\
    M_ + -2 * spin (w_lat w) i j - total_sum (w_lat w') = M_ - total_sum (w_lat w) /\
    ((M_ + -2 * spin (w_lat w) i j = M_ /\ w_lat w' = w_lat w) \/
     (exists i' j', 0 <= i' < L /\ 0 <= j' < L /\
                    w_lat w' = flip (w_lat w) i' j' /\
                    (M_ + -2 * spin (w_lat w) i j = M_ + 2 \/
                     M_ + -2 * spin (w_lat w) i j = M_ - 2)))).
  { intros w' E. rewrite E. split; [now apply wf_lattice_flip|].
    split; [rewrite (total_sum_flip L) by assumption; lia|].
    right. exists i, j. repeat split; try assumption; try lia.
    destruct Hs as [-> | ->]; lia. }
  unfold metropolis_accept.
  destruct (fleb _ 0).
  - rewrite bind_ret. destruct (Hflip g2) as (w' & Hrun & E).
    eexists _, w'. split; [exact Hrun|]. now apply Hacc.
  - destruct (random g2) as [u g3] eqn:Eu.
    assert (Hu : np_random (World (w_lat w) g2) = OK (u, World (w_lat w) g3)).
    { unfold np_random. cbn [w_gen w_lat]. now rewrite Eu. }
    rewrite bind_assoc. step_with Hu. rewrite bind_ret.
    destruct (fltb u _).
    + destruct (Hflip g3) as (w' & Hrun & E).
      eexists _, w'. split; [exact Hrun|]. now apply Hacc.
    + eexists _, _. split; [reflexivity|]. cbn [w_lat].
      split; [exact Hwf|]. split; [reflexivity|]. now left.
Qed.

(** C10.  Whatever the world, the site and the parameters, a call of
    [delta_energy_nb] or of [delta_E_and_dM] that returns leaves the lattice
    and the generator as they were; in the two callers a trial ends with the
    lattice it found or with that lattice flipped at one site, which is the
    write of the accepted branch. *)
Theorem delta_functions_frame {GL : GeneratorLaws G} w i j J h k_bias M0 M_ :
  (forall v w', delta_energy_nb i j J h w = OK (v, w') -> w' = w) /\
  (forall v w', delta_E_and_dM i j J k_bias M0 M_ w = OK (v, w') -> w' = w) /\
  (forall L beta, wf_lattice L (w_lat w) -> 0 < L ->
     returns (metropolis_trial L beta J h) w
       (fun _ w' => w_lat w' = w_lat w \/
                    exists a b, w_lat w' = flip (w_lat w) a b) /\
     returns (us_trial L beta J k_bias M0 M_) w
       (fun _ w' => w_lat w' = w_lat w \/
                    exists a b, w_lat w' = flip (w_lat w) a b)).
Proof.
  destruct (delta_calls_frame w i j J h k_bias M0 M_) as [H1 H2].
  split; [exact H1|]. split; [exact H2|].
  intros L beta Hwf HL. split.
  - eapply returns_weaken; [now apply metropolis_trial_run|].
    intros _ w' [Hspec _]. inversion Hspec as [a g1 b g2 u g3 _ _ _ _ _ _ E].
    cbn [w_lat].
    destruct (accept_rule beta (energy_change L (w_lat w) a b J h) u);
      [right; now exists a, b|now left].
  - eapply returns_weaken; [now apply us_trial_run|].
    intros M' w' (_ & _ & [[_ Hsame]|(a & b & _ & _ & Hf & _)]);
      [now left|right; now exists a, b].
Qed.

(** A loop whose invariant does not mention the counter; the bound may be
    negative. *)
Lemma returns_for_range_inv {A} (inv : A -> world -> Prop)
      (body : Z -> A -> M A) n a w :
  inv a w ->
  (forall k a w, inv a w -> returns (body k a) w inv) ->
  returns (for_range n body a) w inv.
Proof.
  intros Hinv Hbody. unfold for_range.
  apply (returns_for_loop (fun _ => inv) body (Z.to_nat n) 0 a w Hinv).
  intros k a0 w0 _. apply Hbody.
Qed.

Lemma py_div_run x y w : ~ (y == 0)%Q -> py_div x y w = OK (fdiv x y, w).
Proof.
  intros Hy. unfold py_div. destruct (Qeq_bool y 0) eqn:E; [|reflexivity].
  apply Qeq_bool_eq in E. contradiction.
Qed.

Lemma py_div_Z_run x n w : n <> 0 -> py_div_Z x n w = OK (fdiv x (of_Z n), w).
Proof.
  intros Hn. unfold py_div_Z. destruct (Z.eqb_spec n 0); [contradiction|reflexivity].
Qed.

(** Set-up and equilibration: a grid, an empty histogram, a lattice of
    spins and its sum. *)
Lemma us_setup_run {GL : GeneratorLaws G} L T J k_bias M0 n_eq bins w :
  1 <= L -> 2 * (L * L) <= 2 ^ 53 -> 2 <= bins -> ~ (T == 0)%Q ->
  returns (us_setup L T J k_bias M0 n_eq bins) w
    (fun s w' =>
       let '(beta, M1, hist, Mgrid) := s in
       beta = fdiv 1 T /\
       wf_lattice L (w_lat w') /\ M1 = total_sum (w_lat w') /\
       hist = replicate (Z.to_nat bins) 0%Q /\
       Z.of_nat (length Mgrid) = bins /\
       (nth 0 Mgrid 0 == inject_Z (- (L * L)))%Q /\
       (List.last Mgrid 0 == inject_Z (L * L))%Q).
Proof.
  intros HL Hb Hbins HT. unfold us_setup.
  unfold returns. step_with (py_div_run 1 T w HT).
  destruct (init_lattice_nb_run L w ltac:(lia)) as ([] & w1 & Hinit & Hwf1).
  step_with Hinit.
  unfold lat_sum at 1. cbn [bind].
  unfold np_zeros at 1. destruct (Z.ltb_spec bins 0); [lia|]. rewrite bind_ret.
  destruct (np_linspace_grid L bins w1 HL Hb Hbins) as (Mgrid & Hgrid & Hlen & Hg0 & Hg1).
  step_with Hgrid.
  destruct (returns_for_range_inv
              (fun M_ w' => wf_lattice L (w_lat w') /\ M_ = total_sum (w_lat w'))
              (fun _ M_ => us_trial L (fdiv 1 T) J k_bias M0 M_)
              n_eq (total_sum (w_lat w1)) w1) as (M1 & w2 & Hloop & Hwf2 & HM2).
  - now split.
  - intros _ M_ w' [Hwf' HM'].
    eapply returns_weaken; [apply us_trial_run; [exact Hwf'|lia]|].
    intros M2 w3 (Hwf3 & Hd & _). split; [exact Hwf3|lia].
  - step_with Hloop. eexists _, _. split; [reflexivity|].
    cbv beta iota zeta.
    split; [reflexivity|]. split; [exact Hwf2|]. split; [exact HM2|].
    split; [reflexivity|]. split; [exact Hlen|]. split; [exact Hg0|exact Hg1].
Qed.

(** ** C9: the measurement loop and its histogram *)

(** [n] iterations of the measurement loop from a histogram that holds the
    counts [c]: each trial adds one to the bin of the magnetization it
    leaves. *)
Lemma measure_loop_run {GL : GeneratorLaws G} L beta J k_bias M0 Mgrid bins :
  1 <= L -> 2 * (L * L) <= 2 ^ 53 -> 2 <= bins <= 2 ^ 53 ->
  Z.of_nat (length Mgrid) = bins ->
  (nth 0 Mgrid 0 == inject_Z (- (L * L)))%Q ->
  (List.last Mgrid 0 == inject_Z (L * L))%Q ->
  forall n i M_ hist w (c : Z -> Z),
    wf_lattice L (w_lat w) -> M_ = total_sum (w_lat w) ->
    Z.of_nat (length hist) = bins ->
    (forall b, 0 <= b < bins ->
       exists x, hist !! Z.to_nat b = Some x /\ (x == inject_Z (c b))%Q) ->
    (forall b, 0 <= c b /\ c b + Z.of_nat n <= 2 ^ 53) ->
    exists M' hist' w',
      for_loop n i (fun _ st => us_measure L beta J k_bias M0 Mgrid bins st)
               (M_, hist) w = OK ((M', hist'), w') /\
      wf_lattice L (w_lat w') /\ M' = total_sum (w_lat w') /\
      Z.of_nat (length hist') = bins /\
      length (us_trace n L beta J k_bias M0 M_ w) = n /\
      (Qsum hist' == Qsum hist + inject_Z (Z.of_nat n))%Q /\
      (forall b, 0 <= b < bins ->
         exists x, hist' !! Z.to_nat b = Some x /\
           (x == inject_Z (c b + tally (map (bin_of Mgrid bins)
                                            (us_trace n L beta J k_bias M0 M_ w)) b))%Q).
Proof.
  intros HL Hb Hbins Hlen Hg0 Hg1.
  induction n as [|n IH]; intros i M_ hist w c Hwf HM Hh Hc Hbound.
  - exists M_, hist, w. cbn [for_loop us_trace map]. split; [reflexivity|].
    split; [exact Hwf|]. split; [exact HM|]. split; [exact Hh|].
    split; [reflexivity|]. split; [cbn; ring|].
    intros b Hbr. destruct (Hc b Hbr) as (x & Hx & Ex). exists x.
    split; [exact Hx|]. rewrite Ex. unfold tally. cbn [count_occ].
    now rewrite Z.add_0_r.
  - destruct (us_trial_run L beta J k_bias M0 M_ w Hwf ltac:(lia))
      as (M1 & w1 & Htrial & Hwf1 & Hd & _).
    assert (HM1 : M1 = total_sum (w_lat w1)) by lia.
    pose proof (wf_lattice_bound L _ Hwf1) as HMb. rewrite <- HM1 in HMb.
    destruct (hist_index_run L bins M1 Mgrid w1 HL Hb Hbins HMb ltac:(lia) Hg0 Hg1)
      as [Hidx Hrange].
    set (k := bin_of Mgrid bins M1) in *.
    assert (Hin : 0 <= k < Z.of_nat (length hist)) by lia.
    destruct (arr_iadd_in_range hist k 1 w1 Hin) as (y & Hy & Hadd).
    destruct (Hc k ltac:(lia)) as (y' & Hy' & Ey).
    rewrite Hy in Hy'. injection Hy' as <-.
    set (c' := fun b => c b + (if Z.eq_dec k b then 1 else 0)).
    destruct (IH (i + 1) M1 (<[Z.to_nat k := fadd y 1]> hist) w1 c' Hwf1 HM1)
      as (M' & hist' & w' & Hloop & Hwf' & HM' & Hh' & Htr & Hsum & Hc').
    + now rewrite length_insert.
    + intros b Hbr. unfold c'. destruct (Z.eq_dec k b) as [<-|Hne].
      * eexists. split; [apply list_lookup_insert_eq; lia|].
        apply fadd_Z; [|exact Ey|reflexivity].
        destruct (Hbound k). lia.
      * destruct (Hc b Hbr) as (x & Hx & Ex). exists x.
        split; [|now rewrite Z.add_0_r].
        rewrite list_lookup_insert_ne by lia. exact Hx.
    + intros b. unfold c'. destruct (Hbound b). destruct (Z.eq_dec k b); lia.
    + exists M', hist', w'. cbn [for_loop us_trace].
      rewrite Htrial. split.
      { assert (Hstep : us_measure L beta J k_bias M0 Mgrid bins (M_, hist) w
                        = OK ((M1, <[Z.to_nat k := fadd y 1]> hist), w1)).
        { unfold us_measure. cbn [fst snd].
          step_with Htrial. step_with Hidx. step_with Hadd. reflexivity. }
        step_with Hstep. exact Hloop. }
      split; [exact Hwf'|]. split; [exact HM'|]. split; [exact Hh'|].
      split; [cbn [length]; now rewrite Htr|].
      split.
      { rewrite Hsum, (Qsum_insert _ _ _ _ Hy).
        assert (E1 : (fadd y 1 == y + 1)%Q).
        { rewrite (fadd_Z (c k) 1 y 1); [|destruct (Hbound k); lia|exact Ey|reflexivity].
          rewrite Ey, inject_Z_plus. reflexivity. }
        rewrite E1, Nat2Z.inj_succ, <- Z.add_1_l, inject_Z_plus. ring. }
      intros b Hbr. destruct (Hc' b Hbr) as (x & Hx & Ex). exists x.
      split; [exact Hx|]. rewrite Ex. cbn [map]. rewrite tally_cons.
      fold k. unfold c'. now rewrite Z.add_assoc.
Qed.

(** The whole body of [run_window_us], in terms of the state that the
    equilibration leaves. *)
Lemma us_locals_run {GL : GeneratorLaws G} L T J k_bias M0 n_eq n_steps bins w :
  1 <= L -> 2 * (L * L) <= 2 ^ 53 -> 2 <= bins <= 2 ^ 53 -> ~ (T == 0)%Q ->
  n_steps <= 2 ^ 53 ->
  exists M1 Mgrid w1 M_ hist w',
    us_setup L T J k_bias M0 n_eq bins w
      = OK ((fdiv 1 T, M1, replicate (Z.to_nat bins) 0%Q, Mgrid), w1) /\
    us_locals L T J k_bias M0 n_eq n_steps bins w = OK ((M_, hist, Mgrid), w') /\
    wf_lattice L (w_lat w1) /\ M1 = total_sum (w_lat w1) /\
    wf_lattice L (w_lat w') /\ M_ = total_sum (w_lat w') /\
    Z.of_nat (length Mgrid) = bins /\
    (nth 0 Mgrid 0 == inject_Z (- (L * L)))%Q /\
    (List.last Mgrid 0 == inject_Z (L * L))%Q /\
    Z.of_nat (length hist) = bins /\
    length (us_trace (Z.to_nat n_steps) L (fdiv 1 T) J k_bias M0 M1 w1)
      = Z.to_nat n_steps /\
    (Qsum hist == inject_Z (Z.max 0 n_steps))%Q /\
    (forall b, 0 <= b < bins ->
       exists x, hist !! Z.to_nat b = Some x /\
         (x == inject_Z (tally (map (bin_of Mgrid bins)
                 (us_trace (Z.to_nat n_steps) L (fdiv 1 T) J k_bias M0 M1 w1)) b))%Q).
Proof.
  intros HL Hb Hbins HT Hn.
  destruct (us_setup_run L T J k_bias M0 n_eq bins w HL Hb ltac:(lia) HT)
    as ([[[beta M1] hist0] Mgrid] & w1 & Hsetup & Hpost).
  cbv beta iota zeta in Hpost.
  destruct Hpost as (-> & Hwf1 & HM1 & -> & Hlen & Hg0 & Hg1).
  destruct (measure_loop_run L (fdiv 1 T) J k_bias M0 Mgrid bins HL Hb Hbins Hlen Hg0 Hg1
              (Z.to_nat n_steps) 0 M1 (replicate (Z.to_nat bins) 0%Q) w1 (fun _ => 0)
              Hwf1 HM1)
    as (M_ & hist & w' & Hloop & Hwf' & HM' & Hh' & Htr & Hsum & Hc).
  - rewrite length_replicate. lia.
  - intros b Hbr. exists 0%Q. split; [|reflexivity].
    apply lookup_replicate_2. lia.
  - intros b. lia.
  - exists M1, Mgrid, w1, M_, hist, w'.
    split; [exact Hsetup|]. split.
    { unfold us_locals. step_with Hsetup. cbv beta iota zeta.
      unfold for_range. step_with Hloop. reflexivity. }
    split; [exact Hwf1|]. split; [exact HM1|]. split; [exact Hwf'|].
    split; [exact HM'|]. split; [exact Hlen|]. split; [exact Hg0|].
    split; [exact Hg1|]. split; [exact Hh'|]. split; [exact Htr|]. split.
    + rewrite Hsum, Qsum_replicate_0, Qplus_0_l.
      replace (Z.of_nat (Z.to_nat n_steps)) with (Z.max 0 n_steps) by lia.
      reflexivity.
    + intros b Hbr. destruct (Hc b Hbr) as (x & Hx & Ex). exists x.
      split; [exact Hx|]. now rewrite Ex.
Qed.

(** C4.  In [run_window_us] the tracked [M] starts as the sum of the fresh
    lattice; a trial either leaves [M] and the lattice alone or flips one
    spin and moves [M] by exactly 2 up or down; and after the [n_eq]
    equilibration trials as well as after all [n_eq + n_steps] trials (both
    counts are arbitrary, so after any number of trials) [M] is the sum of
    the lattice and lies between [-L*L] and [L*L]. *)
Theorem tracked_magnetization_is_lattice_sum
        {GL : GeneratorLaws G} L T J k_bias M0 n_eq n_steps bins w :
  1 <= L -> 2 * (L * L) <= 2 ^ 53 -> 2 <= bins <= 2 ^ 53 -> ~ (T == 0)%Q ->
  n_steps <= 2 ^ 53 ->
  (forall beta M_ w0,
     wf_lattice L (w_lat w0) -> M_ = total_sum (w_lat w0) ->
     returns (us_trial L beta J k_bias M0 M_) w0
       (fun M' w' =>
          M' = total_sum (w_lat w') /\ - (L * L) <= M' <= L * L /\
          ((M' = M_ /\ w_lat w' = w_lat w0) \/
           (exists i j, w_lat w' = flip (w_lat w0) i j /\
                        (M' = M_ + 2 \/ M' = M_ - 2))))) /\
  returns (us_setup L T J k_bias M0 n_eq bins) w
    (fun s w' => snd (fst (fst s)) = total_sum (w_lat w') /\
                 - (L * L) <= snd (fst (fst s)) <= L * L) /\
  returns (us_locals L T J k_bias M0 n_eq n_steps bins) w
    (fun s w' => fst (fst s) = total_sum (w_lat w') /\
                 - (L * L) <= fst (fst s) <= L * L).
Proof.
  intros HL Hb Hbins HT Hn. split; [|split].
  - intros beta M_ w0 Hwf HM.
    eapply returns_weaken; [apply us_trial_run; [exact Hwf|lia]|].
    intros M' w' (Hwf' & Hd & Hcases). cbv beta.
    assert (HM' : M' = total_sum (w_lat w')) by lia.
    split; [exact HM'|]. split; [rewrite HM'; now apply wf_lattice_bound|].
    destruct Hcases as [Hsame|(i & j & _ & _ & Hf & Hpm)]; [now left|].
    right. now exists i, j.
  - destruct (us_locals_run L T J k_bias M0 n_eq n_steps bins w HL Hb Hbins HT Hn)
      as (M1 & Mgrid & w1 & M_ & hist & w' & Hsetup & _ & Hwf1 & HM1 & _).
    eapply returns_eq; [exact Hsetup|]. cbn [fst snd].
    split; [exact HM1|]. rewrite HM1. now apply wf_lattice_bound.
  - destruct (us_locals_run L T J k_bias M0 n_eq n_steps bins w HL Hb Hbins HT Hn)
      as (M1 & Mgrid & w1 & M_ & hist & w' & _ & Hrun & _ & _ & Hwf' & HM' & _).
    eapply returns_eq; [exact Hrun|]. cbn [fst snd].
    split; [exact HM'|]. rewrite HM'. now apply wf_lattice_bound.
Qed.

(** ** C9: what [run_window_us] does before and between the samples *)

(** The lattice that [init_lattice_nb] returns does not depend on the one
    that was there. *)
Lemma init_lattice_nb_any_lattice L lat lat' g :
  init_lattice_nb L (World lat g) = init_lattice_nb L (World lat' g).
Proof.
  unfold init_lattice_nb, bind, np_empty. cbn [w_gen].
  destruct (L <? 0); reflexivity.
Qed.

(** Reading an array, computing a bin and incrementing a histogram entry
    leave the lattice and the generator alone. *)
Lemma arr_get_world (a : list Q) i x w w' : arr_get a i w = OK (x, w') -> w' = w.
Proof.
  unfold arr_get, ret, raise. destruct (norm_index _ i); [|discriminate].
  destruct (a !! _); [|discriminate]. intros E. now injection E.
Qed.

Lemma hist_index_world M_ Mgrid bins idx w w' :
  hist_index M_ Mgrid bins w = OK (idx, w') -> w' = w.
Proof.
  unfold hist_index. intros H.
  apply bind_inv in H as (g0 & u1 & H1 & H). apply arr_get_world in H1 as ->.
  apply bind_inv in H as (g1 & u2 & H2 & H). apply arr_get_world in H2 as ->.
  apply bind_inv in H as (g0' & u3 & H3 & H). apply arr_get_world in H3 as ->.
  unfold raise, ret in H.
  destruct (Qeq_bool _ 0); [destruct (_ || _); discriminate|].
  now injection H.
Qed.

Lemma arr_iadd_world (a : list Q) i x a' w w' :
  arr_iadd a i x w = OK (a', w') -> w' = w.
Proof.
  unfold arr_iadd. intros H.
  apply bind_inv in H as (y & u & H1 & H). apply arr_get_world in H1 as ->.
  unfold arr_set, ret, raise in H. destruct (norm_index _ i); [|discriminate].
  now injection H.
Qed.

(** The measurement loop moves the lattice, the generator and the tracked
    magnetization exactly as the same number of bare trials does. *)
Lemma measure_loop_trials L beta J k_bias M0 Mgrid bins n :
  forall i st w st' w',
    for_loop n i (fun _ st => us_measure L beta J k_bias M0 Mgrid bins st) st w
      = OK (st', w') ->
    for_loop n i (fun _ M_ => us_trial L beta J k_bias M0 M_) (fst st) w
      = OK (fst st', w').
Proof.
  induction n as [|n IH]; intros i st w st' w' H; cbn [for_loop] in *.
  - unfold ret in *. now injection H as <- <-.
  - apply bind_inv in H as (st1 & w1 & Hbody & Hrest).
    cbv beta in Hbody. unfold us_measure in Hbody.
    apply bind_inv in Hbody as (M' & u1 & Htrial & Hbody).
    apply bind_inv in Hbody as (idx & u2 & Hidx & Hbody).
    apply hist_index_world in Hidx as ->.
    apply bind_inv in Hbody as (h & u3 & Hadd & Hret).
    apply arr_iadd_world in Hadd as ->.
    unfold ret in Hret. injection Hret as <- <-.
    step_with Htrial. exact (IH _ _ _ _ _ Hrest).
Qed.

(** What [us_setup] has done when it returns: a lattice initialised from the
    generator alone, then [n_eq] trials from it. *)
Lemma us_setup_equilibration
      {GL : GeneratorLaws G} L T J k_bias M0 n_eq bins w beta M1 hist Mgrid w1 :
  0 <= L ->
  us_setup L T J k_bias M0 n_eq bins w = OK ((beta, M1, hist, Mgrid), w1) ->
  exists w0,
    (forall lat, init_lattice_nb L (World lat (w_gen w)) = OK (tt, w0)) /\
    wf_lattice L (w_lat w0) /\
    for_range n_eq (fun _ M_ => us_trial L beta J k_bias M0 M_)
              (total_sum (w_lat w0)) w0 = OK (M1, w1).
Proof.
  intros HL H. unfold us_setup in H.
  apply bind_inv in H as (b & u1 & Hdiv & H).
  assert (u1 = w) as ->.
  { unfold py_div, raise, ret in Hdiv. destruct (Qeq_bool T 0); [discriminate|].
    now injection Hdiv. }
  apply bind_inv in H as ([] & w0 & Hinit & H).
  apply bind_inv in H as (Mi & u3 & Hsum & H).
  unfold lat_sum in Hsum. injection Hsum as <- <-.
  apply bind_inv in H as (h0 & u4 & Hz & H).
  assert (u4 = w0) as ->.
  { unfold np_zeros, raise, ret in Hz. destruct (bins <? 0); [discriminate|].
    now injection Hz. }
  apply bind_inv in H as (g0 & u5 & Hg & H).
  assert (u5 = w0) as ->.
  { unfold np_linspace, raise, ret in Hg. destruct (bins <? 0); [discriminate|].
    now injection Hg. }
  apply bind_inv in H as (M1' & u6 & Hloop & Hret).
  unfold ret in Hret. injection Hret as <- <- <- <- <-.
  exists w0. split; [|split].
  - intros lat. rewrite <- Hinit. destruct w as [l g]. cbn [w_gen].
    apply init_lattice_nb_any_lattice.
  - destruct (init_lattice_nb_run L w HL) as ([] & w0' & Hinit' & Hwf).
    rewrite Hinit in Hinit'. injection Hinit' as <-. exact Hwf.
  - exact Hloop.
Qed.

(** C9, as the code has it.  [run_window_us] builds a fresh lattice (it
    depends on the generator only, not on what was there), makes [n_eq]
    single biased trials from it that leave the histogram empty, then
    [n_steps] single biased trials; each of these adds one to the bin of the
    magnetization it leaves, whether or not it flipped a spin, and the
    bookkeeping draws nothing, so the run ends in the world that
    [n_eq + n_steps] bare trials lead to.  The grid has [bins] points from
    [-L*L] to [L*L], and the histogram counts [n_steps] samples in all. *)
Theorem run_window_us_histogram
        {GL : GeneratorLaws G} L T J k_bias M0 n_eq n_steps bins w :
  1 <= L -> 2 * (L * L) <= 2 ^ 53 -> 2 <= bins <= 2 ^ 53 -> ~ (T == 0)%Q ->
  n_steps <= 2 ^ 53 ->
  exists w0 M1 w1 hist Mgrid M2 w',
    (forall lat, init_lattice_nb L (World lat (w_gen w)) = OK (tt, w0)) /\
    wf_lattice L (w_lat w0) /\
    for_range n_eq (fun _ M_ => us_trial L (fdiv 1 T) J k_bias M0 M_)
              (total_sum (w_lat w0)) w0 = OK (M1, w1) /\
    for_range n_steps (fun _ M_ => us_trial L (fdiv 1 T) J k_bias M0 M_) M1 w1
      = OK (M2, w') /\
    us_setup L T J k_bias M0 n_eq bins w
      = OK ((fdiv 1 T, M1, replicate (Z.to_nat bins) 0%Q, Mgrid), w1) /\
    run_window_us L T J k_bias M0 n_eq n_steps bins w = OK ((hist, Mgrid), w') /\
    Z.of_nat (length Mgrid) = bins /\
    (nth 0 Mgrid 0 == inject_Z (- (L * L)))%Q /\
    (List.last Mgrid 0 == inject_Z (L * L))%Q /\
    Z.of_nat (length hist) = bins /\
    let Ms := us_trace (Z.to_nat n_steps) L (fdiv 1 T) J k_bias M0 M1 w1 in
    Z.of_nat (length Ms) = Z.max 0 n_steps /\
    (Qsum hist == inject_Z (Z.max 0 n_steps))%Q /\
    (forall b, 0 <= b < bins ->
       exists x, hist !! Z.to_nat b = Some x /\
                 (x == inject_Z (tally (map (bin_of Mgrid bins) Ms) b))%Q).
Proof.
  intros HL Hb Hbins HT Hn.
  destruct (us_locals_run L T J k_bias M0 n_eq n_steps bins w HL Hb Hbins HT Hn)
    as (M1 & Mgrid & w1 & M_ & hist & w' & Hsetup & Hrun & _ & _ & _ & _
        & Hlen & Hg0 & Hg1 & Hh & Htr & Hsum & Hc).
  destruct (us_setup_equilibration L T J k_bias M0 n_eq bins w _ _ _ _ _
              ltac:(lia) Hsetup) as (w0 & Hfresh & Hwf0 & Heq).
  assert (Hmeas : for_range n_steps
                    (fun _ M_ => us_trial L (fdiv 1 T) J k_bias M0 M_) M1 w1
                  = OK (M_, w')).
  { pose proof Hrun as Hrun'. unfold us_locals in Hrun'.
    rewrite (bind_OK _ _ _ _ _ Hsetup) in Hrun'. cbv beta iota zeta in Hrun'.
    apply bind_inv in Hrun' as (st & u & Hloop & Hret).
    unfold ret in Hret. injection Hret as <- <- <-.
    unfold for_range in *. exact (measure_loop_trials _ _ _ _ _ _ _ _ _ _ _ _ _ Hloop). }
  exists w0, M1, w1, hist, Mgrid, M_, w'.
  split; [exact Hfresh|]. split; [exact Hwf0|]. split; [exact Heq|].
  split; [exact Hmeas|].
  split; [exact Hsetup|]. split.
  { unfold run_window_us. step_with Hrun. reflexivity. }
  split; [exact Hlen|]. split; [exact Hg0|]. split; [exact Hg1|].
  split; [exact Hh|]. cbv zeta.
  split; [rewrite Htr; lia|]. split; [exact Hsum|exact Hc].
Qed.

(** ** C6: what the entry points do with an invalid configuration *)

Lemma bind_Err {A B} (m : M A) (k : A -> M B) w e :
  m w = Err e -> bind m k w = Err e.
Proof. intros H. unfold bind. now rewrite H. Qed.

Lemma init_lattice_nb_negative L w : L < 0 -> init_lattice_nb L w = Err ValueError.
Proof.
  intros HL. unfold init_lattice_nb. apply bind_Err.
  unfold np_empty. destruct (Z.ltb_spec L 0); [reflexivity|lia].
Qed.

(** Any number of sweeps keeps a lattice of spins. *)
Lemma sweeps_run {GL : GeneratorLaws G} L beta J h n w :
  wf_lattice L (w_lat w) ->
  returns (for_range n (fun _ _ => metropolis_step_nb beta J h) tt) w
    (fun _ w' => wf_lattice L (w_lat w')).
Proof.
  intros Hwf.
  apply (returns_for_range_inv (fun (_ : unit) w' => wf_lattice L (w_lat w'))).
  - exact Hwf.
  - intros _ [] w1 Hw1.
    destruct (metropolis_step_nb_run L beta J h w1 Hw1) as (w2 & Hrun & _ & Hw2).
    now exists tt, w2.
Qed.

(** Lines 91-98 of [measure_magnetization_nb]: nothing there fails once the
    lattice exists and [T] is not zero. *)
Lemma magnetization_accum_run {GL : GeneratorLaws G} L beta h n_eq n_steps J w :
  wf_lattice L (w_lat w) ->
  returns
    (bind (for_range n_eq (fun _ _ => metropolis_step_nb beta J h) tt)
       (fun _ => for_range n_steps (fun _ m_accum =>
          bind (metropolis_step_nb beta J h)
               (fun _ => bind lat_sum (fun s => ret (fadd m_accum (of_Z s))))) 0%Q))
    w (fun _ w' => wf_lattice L (w_lat w')).
Proof.
  intros Hwf. eapply returns_bind; [now apply (sweeps_run L)|].
  intros [] w1 Hw1. cbv beta in *.
  apply (returns_for_range_inv (fun (_ : Q) w' => wf_lattice L (w_lat w'))).
  - exact Hw1.
  - intros _ m w2 Hw2.
    destruct (metropolis_step_nb_run L beta J h w2 Hw2) as (w3 & Hrun & _ & Hw3).
    unfold returns. step_with Hrun. unfold lat_sum. cbn [bind].
    eexists _, _. split; [reflexivity|exact Hw3].
Qed.

Lemma np_linspace_total start stop num w :
  0 <= num ->
  exists Mgrid, np_linspace start stop num w = OK (Mgrid, w).
Proof.
  intros Hn. unfold np_linspace. destruct (Z.ltb_spec num 0); [lia|].
  eexists. reflexivity.
Qed.

Lemma np_zeros_run n w : 0 <= n -> np_zeros n w = OK (replicate (Z.to_nat n) 0%Q, w).
Proof. intros Hn. unfold np_zeros. destruct (Z.ltb_spec n 0); [lia|reflexivity]. Qed.

(** Set-up and equilibration return for any number of bins that is not
    negative. *)
Lemma us_setup_total {GL : GeneratorLaws G} L T J k_bias M0 n_eq bins w :
  1 <= L -> ~ (T == 0)%Q -> 0 <= bins ->
  exists M1 Mgrid w',
    (forall w0, np_linspace (- L * L) (L * L) bins w0 = OK (Mgrid, w0)) /\
    us_setup L T J k_bias M0 n_eq bins w
      = OK ((fdiv 1 T, M1, replicate (Z.to_nat bins) 0%Q, Mgrid), w') /\
    wf_lattice L (w_lat w').
Proof.
  intros HL HT Hbins. unfold us_setup.
  step_with (py_div_run 1 T w HT).
  destruct (init_lattice_nb_run L w ltac:(lia)) as ([] & w1 & Hinit & Hwf1).
  step_with Hinit. unfold lat_sum at 1. cbn [bind].
  step_with (np_zeros_run bins w1 Hbins).
  destruct (np_linspace_total (- L * L) (L * L) bins w1 Hbins) as (Mgrid & Hgrid).
  step_with Hgrid.
  destruct (returns_for_range_inv
              (fun (_ : Z) w' => wf_lattice L (w_lat w'))
              (fun _ M_ => us_trial L (fdiv 1 T) J k_bias M0 M_)
              n_eq (total_sum (w_lat w1)) w1) as (M1 & w2 & Hloop & Hwf2).
  - exact Hwf1.
  - intros _ M_ w' Hwf'.
    eapply returns_weaken; [apply us_trial_run; [exact Hwf'|lia]|].
    now intros M2 w3 (Hwf3 & _).
  - step_with Hloop. exists M1, Mgrid, w2. split; [|split; [reflexivity|exact Hwf2]].
    intros w0. unfold np_linspace in *.
    destruct (bins <? 0); [discriminate|].
    unfold ret in *. injection Hgrid as <-. reflexivity.
Qed.

(** On a grid of one point the index of line 449 is not a number. *)
Lemma hist_index_single_point M_ p w :
  hist_index M_ [p] 1 w = Err ValueError.
Proof.
  unfold hist_index.
  step_with (arr_get_first [p] w ltac:(simpl; lia)).
  step_with (arr_get_last [p] w ltac:(simpl; lia)).
  step_with (arr_get_first [p] w ltac:(simpl; lia)).
  cbn [nth List.last].
  assert (E : (fsub p p == 0)%Q).
  { unfold fsub. apply (rnd_Z 0); [vm_compute; discriminate|]. ring. }
  apply Qeq_bool_iff in E. rewrite E. cbn [Z.sub Z.eqb Z.add Z.opp Z.pos_sub].
  now rewrite orb_true_r.
Qed.

(** C6, as the code has it.  No entry point validates its configuration: a
    call fails only if an operation of the body does.
    [measure_magnetization_nb] raises [ValueError] in [np.empty] when
    [L < 0], [ZeroDivisionError] in [1.0 / T] when [T = 0] and in the final
    division when the [int64] product [n_steps * L * L] is 0, and returns a
    number in every other case, negative [T] and negative [n_steps]
    included.  The product is the mathematical one whenever that fits
    [int64]; a product that wraps to 0, as for [L = 2] and
    [n_steps = -2^62], raises like any other zero.  [run_window_us]
    with [L >= 1], [T <> 0] and [n_steps <= 0] returns the histogram of zeros
    for any [bins >= 0], so also for fewer than two bins; with one bin and
    [n_steps >= 1] it raises [ValueError], from [int()] at the first
    histogram update. *)
Theorem entry_points_do_not_validate
        {GL : GeneratorLaws G} L T h J k_bias M0 n_eq n_steps bins w :
  (L < 0 ->
   measure_magnetization_nb L T h n_eq n_steps J w = Err ValueError) /\
  (0 <= L -> (T == 0)%Q ->
   measure_magnetization_nb L T h n_eq n_steps J w = Err ZeroDivisionError) /\
  (0 <= L -> ~ (T == 0)%Q -> mul64 (mul64 n_steps L) L = 0 ->
   measure_magnetization_nb L T h n_eq n_steps J w = Err ZeroDivisionError) /\
  (0 <= L -> ~ (T == 0)%Q -> mul64 (mul64 n_steps L) L <> 0 ->
   exists m w', measure_magnetization_nb L T h n_eq n_steps J w = OK (m, w')) /\
  (0 <= L -> - 2 ^ 63 <= n_steps * L * L < 2 ^ 63 ->
   mul64 (mul64 n_steps L) L = n_steps * L * L) /\
  (1 <= L -> ~ (T == 0)%Q -> 0 <= bins -> n_steps <= 0 ->
   exists Mgrid w',
     run_window_us L T J k_bias M0 n_eq n_steps bins w
       = OK ((replicate (Z.to_nat bins) 0%Q, Mgrid), w')) /\
  (1 <= L -> ~ (T == 0)%Q -> bins = 1 -> 1 <= n_steps ->
   run_window_us L T J k_bias M0 n_eq n_steps bins w = Err ValueError).
Proof.
  split; [|split; [|split; [|split; [|split; [|split]]]]].
  - intros HL. unfold measure_magnetization_nb.
    apply bind_Err. now apply init_lattice_nb_negative.
  - intros HL HT. unfold measure_magnetization_nb.
    destruct (init_lattice_nb_run L w HL) as ([] & w1 & Hinit & Hwf1).
    step_with Hinit. apply bind_Err. unfold py_div.
    apply Qeq_bool_iff in HT. now rewrite HT.
  - intros HL HT Hn. unfold measure_magnetization_nb.
    destruct (init_lattice_nb_run L w HL) as ([] & w1 & Hinit & Hwf1).
    step_with Hinit. step_with (py_div_run 1 T w1 HT).
    destruct (magnetization_accum_run L (fdiv 1 T) h n_eq n_steps J w1 Hwf1)
      as (m & w2 & Hrun & _).
    apply bind_inv in Hrun. destruct Hrun as ([] & w3 & Heq & Hmeas).
    step_with Heq. step_with Hmeas.
    unfold py_div_Z. rewrite Hn. reflexivity.
  - intros HL HT Hn. unfold measure_magnetization_nb.
    destruct (init_lattice_nb_run L w HL) as ([] & w1 & Hinit & Hwf1).
    step_with Hinit. step_with (py_div_run 1 T w1 HT).
    destruct (magnetization_accum_run L (fdiv 1 T) h n_eq n_steps J w1 Hwf1)
      as (m & w2 & Hrun & _).
    apply bind_inv in Hrun. destruct Hrun as ([] & w3 & Heq & Hmeas).
    step_with Heq. step_with Hmeas.
    rewrite py_div_Z_run by exact Hn. eexists _, _. reflexivity.
  - apply mul64_product.
  - intros HL HT Hbins Hn.
    destruct (us_setup_total L T J k_bias M0 n_eq bins w HL HT Hbins)
      as (M1 & Mgrid & w2 & _ & Hsetup & _).
    unfold run_window_us, us_locals. rewrite bind_assoc. step_with Hsetup.
    cbv beta iota zeta. rewrite bind_assoc.
    rewrite (bind_OK _ _ _ _ _ (for_range_nonpos _ n_steps _ w2 Hn)).
    eexists _, _. reflexivity.
  - intros HL HT -> Hn.
    destruct (us_setup_total L T J k_bias M0 n_eq 1 w HL HT ltac:(lia))
      as (M1 & Mgrid & w2 & Hgrid & Hsetup & Hwf2).
    unfold run_window_us, us_locals. rewrite bind_assoc. step_with Hsetup.
    cbv beta iota zeta. apply bind_Err. apply bind_Err.
    unfold for_range. replace (Z.to_nat n_steps) with (S (Z.to_nat (n_steps - 1))) by lia.
    cbn [for_loop]. apply bind_Err. unfold us_measure. cbn [fst snd].
    destruct (us_trial_run L (fdiv 1 T) J k_bias M0 M1 w2 Hwf2 ltac:(lia))
      as (M' & w3 & Htrial & _).
    step_with Htrial. apply bind_Err.
    specialize (Hgrid w2). unfold np_linspace in Hgrid. cbn in Hgrid.
    unfold ret in Hgrid. injection Hgrid as <-.
    apply hist_index_single_point.
Qed.

(** ** C8: the correlation at separation 0 *)

(** A double loop over the sites that only reads the lattice: it visits the
    cells in row-major order, and a property of the cells seen so far and of
    the loop-carried locals that each step maintains holds at the end of all
    the cells. *)
Lemma lattice_scan {A} (P : list Z -> A -> Prop) (body : Z -> Z -> A -> M A) L w a0 :
  wf_lattice L (w_lat w) ->
  P [] a0 ->
  (forall i j a seen,
     0 <= i < L -> 0 <= j < L -> Z.of_nat (length seen) = i * L + j ->
     P seen a ->
     exists a', body i j a w = OK (a', w) /\ P (seen ++ [spin (w_lat w) i j]) a') ->
  exists a', for_range L (fun i acc => for_range L (fun j acc => body i j acc) acc) a0 w
               = OK (a', w) /\
             P (concat (w_lat w)) a'.
Proof.
  intros Hwf H0 Hstep.
  pose proof (wf_lattice_nonneg L _ Hwf) as HL.
  pose proof (wf_lattice_rect L _ Hwf) as Hrect.
  destruct Hwf as [Hlen Hrows].
  destruct (returns_for_range
    (fun i a w' => w' = w /\ P (concat (take (Z.to_nat i) (w_lat w))) a)
    (fun i acc => for_range L (fun j acc => body i j acc) acc) L a0 w HL)
    as (a' & w' & Hrun & -> & HP).
  - split; [reflexivity|]. exact H0.
  - intros i a w1 Hi [-> HPi].
    destruct (wf_lattice_row L (w_lat w) i (conj Hlen Hrows) Hi)
      as (row & Hrow & Hrl & Hsp & Hnth).
    eapply returns_weaken.
    + apply (returns_for_range
        (fun j a w' => w' = w /\
           P (concat (take (Z.to_nat i) (w_lat w)) ++ take (Z.to_nat j) row) a)
        (fun j acc => body i j acc) L a w HL).
      * split; [reflexivity|]. now rewrite take_0, app_nil_r.
      * intros j a1 w2 Hj [-> HPj].
        destruct (lookup_lt_is_Some_2 row (Z.to_nat j)) as [v Hv]; [lia|].
        assert (Hseen : Z.of_nat (length (concat (take (Z.to_nat i) (w_lat w))
                                          ++ take (Z.to_nat j) row)) = i * L + j).
        { rewrite length_app, Nat2Z.inj_add, (rect_concat_take_length L) by (auto; lia).
          rewrite length_take_le by lia. lia. }
        destruct (Hstep i j a1 _ Hi Hj Hseen HPj) as (a2 & Hb & HP2).
        exists a2, w. split; [exact Hb|]. split; [reflexivity|].
        replace (Z.to_nat (j + 1)) with (S (Z.to_nat j)) by lia.
        rewrite (take_S_r _ _ _ Hv), app_assoc.
        replace v with (spin (w_lat w) i j); [exact HP2|].
        unfold spin. rewrite Hnth. now apply nth_lookup_Some.
    + intros a1 w2 [-> HPL]. split; [reflexivity|].
      replace (Z.to_nat (i + 1)) with (S (Z.to_nat i)) by lia.
      rewrite (concat_take_S _ _ _ Hrow).
      rewrite (take_ge row) in HPL by lia. exact HPL.
  - exists a'. split; [exact Hrun|].
    rewrite take_ge in HP by lia. exact HP.
Qed.

(** Lines 185-188 add up the lattice. *)
Lemma total_spin_loop_run L w :
  wf_lattice L (w_lat w) ->
  total_spin_loop L w = OK (total_sum (w_lat w), w).
Proof.
  intros Hwf. unfold total_spin_loop.
  destruct (lattice_scan (fun seen acc => acc = row_sum seen)
              (fun i j acc => bind (lat_get i j) (fun v => ret (acc + v))) L w 0 Hwf)
    as (a' & Hrun & Ha).
  - reflexivity.
  - intros i j a seen Hi Hj _ ->.
    eexists. rewrite (bind_OK _ _ _ _ _ (lat_get_wf L w i j Hwf Hi Hj)).
    split; [reflexivity|]. rewrite row_sum_app. simpl. lia.
  - rewrite Hrun, Ha, total_sum_concat. reflexivity.
Qed.

(** Lines 193-200 only read the lattice; at separation 0 every product of a
    spin with itself is 1, so [pair_sum] is the number of sites and
    [shift_sum] is the sum of the lattice. *)
Lemma pair_shift_loop_run L r w :
  wf_lattice L (w_lat w) -> L * L <= 2 ^ 53 ->
  exists ps, pair_shift_loop L r w = OK (ps, w) /\
             (r = 0 -> (fst ps == inject_Z (L * L))%Q /\
                       (snd ps == inject_Z (total_sum (w_lat w)))%Q).
Proof.
  intros Hwf Hb. unfold pair_shift_loop.
  destruct (lattice_scan
    (fun seen (acc : Q * Q) =>
       r = 0 -> (fst acc == inject_Z (Z.of_nat (length seen)))%Q /\
                (snd acc == inject_Z (row_sum seen))%Q /\ Forall is_spin seen)
    (fun i j (acc : Q * Q) =>
       bind (lat_get i j) (fun si =>
       bind (nb_mod (i + r) L) (fun ir =>
       bind (lat_get ir j) (fun sj =>
       ret (fadd (fst acc) (of_Z (si * sj)), fadd (snd acc) (of_Z sj))))))
    L w (0%Q, 0%Q) Hwf) as (ps & Hrun & HP).
  - intros _. cbn [fst snd length row_sum fold_right].
    split; [reflexivity|]. split; [reflexivity|constructor].
  - intros i j a seen Hi Hj Hseen HPa.
    eexists.
    rewrite (bind_OK _ _ _ _ _ (lat_get_wf L w i j Hwf Hi Hj)).
    rewrite (bind_OK _ _ _ _ _ (nb_mod_OK (i + r) L w ltac:(lia))).
    rewrite (bind_OK _ _ _ _ _
      (lat_get_wf L w ((i + r) mod L) j Hwf ltac:(apply Z.mod_pos_bound; lia) Hj)).
    split; [reflexivity|].
    intros ->. destruct (HPa eq_refl) as (Hp & Hq & Hs). cbn [fst snd].
    rewrite Z.add_0_r, Z.mod_small by lia.
    destruct (wf_cell L _ i j Hwf Hi Hj) as [_ Hspin].
    rewrite (is_spin_square _ Hspin).
    pose proof (row_sum_bound _ Hs) as Hrb.
    pose proof (is_spin_bound _ Hspin) as Hsb.
    assert (Hlt : i * L + j < L * L) by nia.
    rewrite length_app, row_sum_app. cbn [length row_sum fold_right].
    rewrite Nat2Z.inj_add.
    split; [|split].
    + apply fadd_Z; [lia|exact Hp|apply of_Z_exact; vm_compute; discriminate].
    + rewrite Z.add_0_r. apply fadd_Z; [lia|exact Hq|apply of_Z_exact; lia].
    + apply Forall_app. split; [exact Hs|]. now constructor.
  - exists ps. split; [exact Hrun|].
    intros Hr. destruct (HP Hr) as (Hp & Hq & _).
    rewrite (wf_concat_length L) in Hp by exact Hwf.
    rewrite <- total_sum_concat in Hq. now split.
Qed.

(** Lines 247-250 only read the lattice; at separation 0 the pair sum down
    a column is the number of rows. *)
Lemma column_pair_loop_run L col_idx r w :
  wf_lattice L (w_lat w) -> L <= 2 ^ 53 -> 0 <= col_idx < L ->
  exists c, column_pair_loop L col_idx r w = OK (c, w) /\
            (r = 0 -> (c == inject_Z L)%Q).
Proof.
  intros Hwf Hb Hcol. unfold column_pair_loop.
  destruct (returns_for_range
    (fun i (c : Q) w' => w' = w /\ (r = 0 -> (c == inject_Z i)%Q))
    (fun i c =>
       bind (lat_get i col_idx) (fun a =>
       bind (nb_mod (i + r) L) (fun ir =>
       bind (lat_get ir col_idx) (fun b =>
       ret (fadd c (of_Z (a * b)))))))
    L 0%Q w ltac:(lia)) as (c & w' & Hrun & -> & Hc).
  - split; [reflexivity|]. intros _. reflexivity.
  - intros i c w1 Hi [-> Hc].
    unfold returns.
    rewrite (bind_OK _ _ _ _ _ (lat_get_wf L w i col_idx Hwf Hi Hcol)).
    rewrite (bind_OK _ _ _ _ _ (nb_mod_OK (i + r) L w ltac:(lia))).
    rewrite (bind_OK _ _ _ _ _
      (lat_get_wf L w ((i + r) mod L) col_idx Hwf
                  ltac:(apply Z.mod_pos_bound; lia) Hcol)).
    eexists _, _. split; [reflexivity|]. split; [reflexivity|].
    intros ->. rewrite Z.add_0_r, Z.mod_small by lia.
    destruct (wf_cell L _ i col_idx Hwf Hi Hcol) as [_ Hspin].
    rewrite (is_spin_square _ Hspin).
    apply fadd_Z; [lia|now apply Hc|apply of_Z_exact; vm_compute; discriminate].
  - now exists c.
Qed.

Lemma lookup_0_insert {A} (a : list A) (r : Z) x :
  0 < r -> <[Z.to_nat r := x]> a !! 0%nat = a !! 0%nat.
Proof. intros Hr. apply list_lookup_insert_ne. lia. Qed.

(** One measurement step of [measure_spin_stats_explicit_nb] after [t]
    steps: entry 0 of [sum_pair] counts the steps and entry 0 of [sum_shift]
    follows [sum_m]. *)
Lemma spin_stats_step_run {GL : GeneratorLaws G} L max_r beta J h sum_m sp ss t w :
  wf_lattice L (w_lat w) -> 1 <= L -> L * L <= 2 ^ 53 -> 0 <= max_r ->
  0 <= t -> t + 1 <= 2 ^ 53 ->
  Z.of_nat (length sp) = max_r + 1 -> Z.of_nat (length ss) = max_r + 1 ->
  (exists x, sp !! 0%nat = Some x /\ (x == inject_Z t)%Q) ->
  (exists y, ss !! 0%nat = Some y /\ (y == sum_m)%Q) ->
  returns (spin_stats_step L (L * L) max_r beta J h (sum_m, sp, ss)) w
    (fun acc w' =>
       wf_lattice L (w_lat w') /\
       Z.of_nat (length (snd (fst acc))) = max_r + 1 /\
       Z.of_nat (length (snd acc)) = max_r + 1 /\
       (exists x, snd (fst acc) !! 0%nat = Some x /\ (x == inject_Z (t + 1))%Q) /\
       (exists y, snd acc !! 0%nat = Some y /\ (y == fst (fst acc))%Q)).
Proof.
  intros Hwf HL Hb Hmax Ht Htb Hlsp Hlss (x0 & Hx0 & Ex0) (y0 & Hy0 & Ey0).
  unfold spin_stats_step, returns.
  destruct (metropolis_step_nb_run L beta J h w Hwf) as (w1 & Hsweep & _ & Hwf1).
  step_with Hsweep. step_with (total_spin_loop_run L w1 Hwf1).
  assert (HN : L * L <> 0) by nia.
  step_with (py_div_Z_run (of_Z (total_sum (w_lat w1))) (L * L) w1 HN).
  set (m_inst := fdiv (of_Z (total_sum (w_lat w1))) (of_Z (L * L))).
  pose proof (wf_lattice_bound L _ Hwf1) as Htot.
  assert (HofN : (of_Z (L * L) == inject_Z (L * L))%Q) by (apply of_Z_exact; lia).
  assert (HNz : ~ (of_Z (L * L) == 0)%Q).
  { rewrite HofN. now apply inject_Z_nonzero. }
  destruct (returns_for_range
    (fun r (arrs : list Q * list Q) w' =>
       w' = w1 /\
       Z.of_nat (length (fst arrs)) = max_r + 1 /\
       Z.of_nat (length (snd arrs)) = max_r + 1 /\
       (r = 0 -> arrs = (sp, ss)) /\
       (0 < r ->
        (exists x, fst arrs !! 0%nat = Some x /\ (x == inject_Z (t + 1))%Q) /\
        (exists y, snd arrs !! 0%nat = Some y /\ (y == fadd sum_m m_inst)%Q)))
    (fun r (arrs : list Q * list Q) =>
       bind (pair_shift_loop L r) (fun ps =>
       bind (py_div_Z (fst ps) (L * L)) (fun p =>
       bind (arr_iadd (fst arrs) r p) (fun sum_pair =>
       bind (py_div_Z (snd ps) (L * L)) (fun q =>
       bind (arr_iadd (snd arrs) r q) (fun sum_shift =>
       ret (sum_pair, sum_shift)))))))
    (max_r + 1) (sp, ss) w1 ltac:(lia))
    as ([sp' ss'] & w2 & Hloop & -> & Hl1 & Hl2 & _ & Hpost).
  - cbn [fst snd]. split; [reflexivity|]. split; [exact Hlsp|]. split; [exact Hlss|].
    split; [reflexivity|]. lia.
  - intros r [sp1 ss1] w2 Hr (-> & Hl1 & Hl2 & Hfirst & Hrest). cbn [fst snd] in *.
    destruct (pair_shift_loop_run L r w1 Hwf1 Hb) as (ps & Hps & Hval).
    unfold returns. step_with Hps.
    step_with (py_div_Z_run (fst ps) (L * L) w1 HN).
    destruct (arr_iadd_in_range sp1 r (fdiv (fst ps) (of_Z (L * L))) w1 ltac:(lia))
      as (y1 & Hy1 & Hadd1).
    step_with Hadd1.
    step_with (py_div_Z_run (snd ps) (L * L) w1 HN).
    destruct (arr_iadd_in_range ss1 r (fdiv (snd ps) (of_Z (L * L))) w1 ltac:(lia))
      as (y2 & Hy2 & Hadd2).
    step_with Hadd2.
    eexists _, _. split; [reflexivity|]. cbn [fst snd].
    split; [reflexivity|]. rewrite !length_insert.
    split; [exact Hl1|]. split; [exact Hl2|]. split; [lia|]. intros _.
    destruct (Z.eq_dec r 0) as [->|Hne].
    + specialize (Hfirst eq_refl). injection Hfirst as -> ->.
      destruct (Hval eq_refl) as [Hp Hq].
      change (Z.to_nat 0) with 0%nat in *.
      rewrite Hx0 in Hy1. injection Hy1 as <-.
      rewrite Hy0 in Hy2. injection Hy2 as <-.
      rewrite !list_lookup_insert_eq by lia.
      split; eexists; (split; [reflexivity|]).
      * apply fadd_Z; [lia|exact Ex0|].
        apply fdiv_same; [now rewrite Hp, HofN|exact HNz].
      * unfold fadd, m_inst, fdiv. rewrite Ey0, Hq.
        rewrite (of_Z_exact (total_sum (w_lat w1))) by lia. reflexivity.
    + rewrite !lookup_0_insert by lia. apply Hrest. lia.
  - step_with Hloop. eexists _, _. split; [reflexivity|]. cbn [fst snd].
    split; [exact Hwf1|]. split; [exact Hl1|]. split; [exact Hl2|].
    apply Hpost. lia.
Qed.

Lemma arr_set_in_range (a : list Q) k x w :
  0 <= k < Z.of_nat (length a) ->
  arr_set a k x w = OK (<[Z.to_nat k := x]> a, w).
Proof. intros Hk. unfold arr_set. now rewrite norm_index_in_range by lia. Qed.

(** [measure_spin_stats_explicit_nb] returns, and its correlation at
    separation 0 is [1 - m_avg * m_avg]. *)
Lemma measure_spin_stats_run {GL : GeneratorLaws G} L T h n_eq n_steps J w :
  1 <= L -> L * L <= 2 ^ 53 -> ~ (T == 0)%Q -> 0 < n_steps <= 2 ^ 53 ->
  exists m_avg corr w' c0,
    measure_spin_stats_explicit_nb L T h n_eq n_steps J w = OK ((m_avg, corr), w') /\
    corr !! 0%nat = Some c0 /\
    (c0 == fsub 1 (fmul m_avg m_avg))%Q.
Proof.
  intros HL Hb HT Hn. unfold measure_spin_stats_explicit_nb.
  destruct (init_lattice_nb_run L w ltac:(lia)) as ([] & w1 & Hinit & Hwf1).
  step_with Hinit. step_with (py_div_run 1 T w1 HT). cbv zeta.
  destruct (sweeps_run L (fdiv 1 T) J h n_eq w1 Hwf1) as ([] & w2 & Heq & Hwf2).
  step_with Heq.
  assert (Hmax : 0 <= L / 2) by (apply Z.div_pos; lia).
  step_with (np_zeros_run (L / 2 + 1) w2 ltac:(lia)).
  step_with (np_zeros_run (L / 2 + 1) w2 ltac:(lia)).
  set (zs := replicate (Z.to_nat (L / 2 + 1)) 0%Q).
  assert (Hzl : Z.of_nat (length zs) = L / 2 + 1)
    by (unfold zs; rewrite length_replicate; lia).
  assert (Hz0 : zs !! 0%nat = Some 0%Q) by (apply lookup_replicate_2; lia).
  destruct (returns_for_range
    (fun t (acc : Q * list Q * list Q) w' =>
       wf_lattice L (w_lat w') /\
       Z.of_nat (length (snd (fst acc))) = L / 2 + 1 /\
       Z.of_nat (length (snd acc)) = L / 2 + 1 /\
       (exists x, snd (fst acc) !! 0%nat = Some x /\ (x == inject_Z t)%Q) /\
       (exists y, snd acc !! 0%nat = Some y /\ (y == fst (fst acc))%Q))
    (fun _ acc => spin_stats_step L (L * L) (L / 2) (fdiv 1 T) J h acc)
    n_steps (0%Q, zs, zs) w2 ltac:(lia))
    as ([[sum_m sp] ss] & w3 & Hloop & Hwf3 & Hlsp & Hlss & (x0 & Hx0 & Ex0) & (y0 & Hy0 & Ey0)).
  - cbn [fst snd]. split; [exact Hwf2|]. split; [exact Hzl|]. split; [exact Hzl|].
    split; exists 0%Q; (split; [exact Hz0|reflexivity]).
  - intros t [[sum_m sp] ss] w' Ht (Hwf' & Hl1 & Hl2 & Hp & Hq). cbn [fst snd] in *.
    apply spin_stats_step_run; auto; lia.
  - cbn [fst snd] in *. step_with Hloop. cbv iota beta.
    assert (Hnz : n_steps <> 0) by lia.
    step_with (py_div_Z_run sum_m n_steps w3 Hnz).
    step_with (np_zeros_run (L / 2 + 1) w3 ltac:(lia)). fold zs.
    set (m_avg := fdiv sum_m (of_Z n_steps)).
    assert (Hofn : (of_Z n_steps == inject_Z n_steps)%Q) by (apply of_Z_exact; lia).
    assert (Hofnz : ~ (of_Z n_steps == 0)%Q).
    { rewrite Hofn. now apply inject_Z_nonzero. }
    destruct (returns_for_range
      (fun r (corr : list Q) w' =>
         w' = w3 /\ Z.of_nat (length corr) = L / 2 + 1 /\
         (0 < r -> exists c0, corr !! 0%nat = Some c0 /\
                              (c0 == fsub 1 (fmul m_avg m_avg))%Q))
      (fun r corr =>
         bind (arr_get sp r) (fun sp_r =>
         bind (py_div_Z sp_r n_steps) (fun avg_ss =>
         bind (arr_get ss r) (fun ss_r =>
         bind (py_div_Z ss_r n_steps) (fun avg_sj =>
         arr_set corr r (fsub avg_ss (fmul m_avg avg_sj)))))))
      (L / 2 + 1) zs w3 ltac:(lia))
      as (corr & w4 & Hcorr & -> & Hlc & Hc0).
    + split; [reflexivity|]. split; [exact Hzl|]. lia.
    + intros r corr w' Hr (-> & Hlc & Hprev).
      destruct (arr_get_in_range sp r w3 ltac:(lia)) as (a & Ha & Hga).
      destruct (arr_get_in_range ss r w3 ltac:(lia)) as (b & Hb' & Hgb).
      unfold returns. step_with Hga. step_with (py_div_Z_run a n_steps w3 Hnz).
      step_with Hgb. step_with (py_div_Z_run b n_steps w3 Hnz).
      rewrite arr_set_in_range by lia.
      eexists _, _. split; [reflexivity|]. split; [reflexivity|].
      rewrite length_insert. split; [exact Hlc|]. intros _.
      destruct (Z.eq_dec r 0) as [->|Hne].
      * change (Z.to_nat 0) with 0%nat in *.
        rewrite Hx0 in Ha. injection Ha as <-.
        rewrite Hy0 in Hb'. injection Hb' as <-.
        rewrite list_lookup_insert_eq by lia. eexists. split; [reflexivity|].
        assert (E1 : (fdiv x0 (of_Z n_steps) == 1)%Q).
        { apply fdiv_same; [now rewrite Ex0, Hofn|exact Hofnz]. }
        assert (E2 : (fdiv y0 (of_Z n_steps) == m_avg)%Q).
        { unfold m_avg, fdiv. now rewrite Ey0. }
        unfold fsub, fmul. rewrite E1, E2. reflexivity.
      * rewrite lookup_0_insert by lia. apply Hprev. lia.
    + step_with Hcorr. destruct (Hc0 ltac:(lia)) as (c0 & Hc & Ec).
      exists m_avg, corr, w3, c0. split; [reflexivity|]. now split.
Qed.

(** One measurement step of [measure_column_correlation_nb] after [t]
    steps: entry 0 of [corr_sum] counts the steps. *)
Lemma column_step_run {GL : GeneratorLaws G} L max_r col_idx beta J sum_m cs t w :
  wf_lattice L (w_lat w) -> 1 <= L -> L * L <= 2 ^ 53 -> 0 <= col_idx < L ->
  0 <= max_r -> 0 <= t -> t + 1 <= 2 ^ 53 ->
  Z.of_nat (length cs) = max_r + 1 ->
  (exists x, cs !! 0%nat = Some x /\ (x == inject_Z t)%Q) ->
  returns (column_step L (L * L) max_r col_idx beta J (sum_m, cs)) w
    (fun acc w' =>
       wf_lattice L (w_lat w') /\
       Z.of_nat (length (snd acc)) = max_r + 1 /\
       (exists x, snd acc !! 0%nat = Some x /\ (x == inject_Z (t + 1))%Q)).
Proof.
  intros Hwf HL Hb Hcol Hmax Ht Htb Hlcs (x0 & Hx0 & Ex0).
  unfold column_step, returns.
  destruct (metropolis_step_nb_run L beta J 0 w Hwf) as (w1 & Hsweep & _ & Hwf1).
  step_with Hsweep. unfold lat_sum at 1. cbn [bind].
  assert (HN : L * L <> 0) by nia.
  step_with (py_div_Z_run (of_Z (total_sum (w_lat w1))) (L * L) w1 HN).
  assert (HLz : L <> 0) by lia.
  assert (HLb : L <= 2 ^ 53) by nia.
  assert (HofL : (of_Z L == inject_Z L)%Q) by (apply of_Z_exact; lia).
  assert (HofLz : ~ (of_Z L == 0)%Q).
  { rewrite HofL. now apply inject_Z_nonzero. }
  cbn [fst snd].
  destruct (returns_for_range
    (fun r (cs' : list Q) w' =>
       w' = w1 /\ Z.of_nat (length cs') = max_r + 1 /\
       (r = 0 -> cs' = cs) /\
       (0 < r -> exists x, cs' !! 0%nat = Some x /\ (x == inject_Z (t + 1))%Q))
    (fun r corr_sum =>
       bind (column_pair_loop L col_idx r) (fun c =>
       bind (py_div_Z c L) (fun q => arr_iadd corr_sum r q)))
    (max_r + 1) cs w1 ltac:(lia))
    as (cs' & w2 & Hloop & -> & Hl & _ & Hpost).
  - split; [reflexivity|]. split; [exact Hlcs|]. split; [reflexivity|]. lia.
  - intros r cs1 w2 Hr (-> & Hl1 & Hfirst & Hrest).
    destruct (column_pair_loop_run L col_idx r w1 Hwf1 HLb Hcol) as (c & Hc & Hval).
    unfold returns. step_with Hc. step_with (py_div_Z_run c L w1 HLz).
    destruct (arr_iadd_in_range cs1 r (fdiv c (of_Z L)) w1 ltac:(lia))
      as (y1 & Hy1 & Hadd1).
    rewrite Hadd1. eexists _, _. split; [reflexivity|]. split; [reflexivity|].
    rewrite length_insert. split; [exact Hl1|]. split; [lia|]. intros _.
    destruct (Z.eq_dec r 0) as [->|Hne].
    + specialize (Hfirst eq_refl). subst cs1.
      change (Z.to_nat 0) with 0%nat in *.
      rewrite Hx0 in Hy1. injection Hy1 as <-.
      rewrite list_lookup_insert_eq by lia. eexists. split; [reflexivity|].
      apply fadd_Z; [lia|exact Ex0|].
      apply fdiv_same; [now rewrite (Hval eq_refl), HofL|exact HofLz].
    + rewrite lookup_0_insert by lia. apply Hrest. lia.
  - step_with Hloop. eexists _, _. split; [reflexivity|]. cbn [fst snd].
    split; [exact Hwf1|]. split; [exact Hl|]. apply Hpost. lia.
Qed.

(** [measure_column_correlation_nb] returns, and its correlation at
    separation 0 is [1 - m_avg * m_avg]. *)
Lemma measure_column_correlation_run {GL : GeneratorLaws G} L T col_idx n_eq n_steps J w :
  1 <= L -> L * L <= 2 ^ 53 -> ~ (T == 0)%Q -> 0 < n_steps <= 2 ^ 53 ->
  0 <= col_idx < L ->
  exists m_avg corr w' c0,
    measure_column_correlation_nb L T col_idx n_eq n_steps J w
      = OK ((m_avg, corr), w') /\
    corr !! 0%nat = Some c0 /\
    (c0 == fsub 1 (fmul m_avg m_avg))%Q.
Proof.
  intros HL Hb HT Hn Hcol. unfold measure_column_correlation_nb.
  destruct (init_lattice_nb_run L w ltac:(lia)) as ([] & w1 & Hinit & Hwf1).
  step_with Hinit. step_with (py_div_run 1 T w1 HT). cbv zeta.
  destruct (sweeps_run L (fdiv 1 T) J 0 n_eq w1 Hwf1) as ([] & w2 & Heq & Hwf2).
  step_with Heq.
  assert (Hmax : 0 <= L / 2) by (apply Z.div_pos; lia).
  step_with (np_zeros_run (L / 2 + 1) w2 ltac:(lia)).
  set (zs := replicate (Z.to_nat (L / 2 + 1)) 0%Q).
  assert (Hzl : Z.of_nat (length zs) = L / 2 + 1)
    by (unfold zs; rewrite length_replicate; lia).
  assert (Hz0 : zs !! 0%nat = Some 0%Q) by (apply lookup_replicate_2; lia).
  destruct (returns_for_range
    (fun t (acc : Q * list Q) w' =>
       wf_lattice L (w_lat w') /\
       Z.of_nat (length (snd acc)) = L / 2 + 1 /\
       (exists x, snd acc !! 0%nat = Some x /\ (x == inject_Z t)%Q))
    (fun _ acc => column_step L (L * L) (L / 2) col_idx (fdiv 1 T) J acc)
    n_steps (0%Q, zs) w2 ltac:(lia))
    as ([sum_m cs] & w3 & Hloop & Hwf3 & Hlcs & (x0 & Hx0 & Ex0)).
  - cbn [fst snd]. split; [exact Hwf2|]. split; [exact Hzl|].
    exists 0%Q. split; [exact Hz0|reflexivity].
  - intros t [sum_m cs] w' Ht (Hwf' & Hl1 & Hp). cbn [fst snd] in *.
    apply column_step_run; auto; lia.
  - cbn [fst snd] in *. step_with Hloop. cbn [fst snd].
    assert (Hnz : n_steps <> 0) by lia.
    step_with (py_div_Z_run sum_m n_steps w3 Hnz).
    set (m_avg := fdiv sum_m (of_Z n_steps)).
    assert (Hofn : (of_Z n_steps == inject_Z n_steps)%Q) by (apply of_Z_exact; lia).
    assert (Hofnz : ~ (of_Z n_steps == 0)%Q).
    { rewrite Hofn. now apply inject_Z_nonzero. }
    eexists m_avg, _, w3, _. split; [reflexivity|]. split.
    + rewrite list_lookup_fmap, Hx0. reflexivity.
    + cbv beta. unfold fsub at 1.
      assert (E1 : (fdiv x0 (of_Z n_steps) == 1)%Q).
      { apply fdiv_same; [now rewrite Ex0, Hofn|exact Hofnz]. }
      rewrite E1. reflexivity.
Qed.

(** C8, as the code has it.  For [n_steps > 0] both accumulators return a
    correlation whose entry at separation 0 is the mean square spin, 1,
    minus the square of the returned mean magnetization: [1 - m_avg^2]. *)
Theorem correlation_at_zero
        {GL : GeneratorLaws G} L T h col_idx n_eq n_steps J w :
  1 <= L -> L * L <= 2 ^ 53 -> ~ (T == 0)%Q -> 0 < n_steps <= 2 ^ 53 ->
  0 <= col_idx < L ->
  (exists m_avg corr w' c0,
     measure_spin_stats_explicit_nb L T h n_eq n_steps J w = OK ((m_avg, corr), w') /\
     corr !! 0%nat = Some c0 /\
     (c0 == fsub 1 (fmul m_avg m_avg))%Q) /\
  (exists m_avg corr w' c0,
     measure_column_correlation_nb L T col_idx n_eq n_steps J w
       = OK ((m_avg, corr), w') /\
     corr !! 0%nat = Some c0 /\
     (c0 == fsub 1 (fmul m_avg m_avg))%Q).
Proof.
  intros HL Hb HT Hn Hcol. split.
  - now apply measure_spin_stats_run.
  - now apply measure_column_correlation_run.
Qed.

End Rounding.
End EngineProofs.

(* ================================================================== *)
(** * C7: the loop of [wham_us] *)
(* ================================================================== *)

Section WhamProofs.

Context {F : Float64}.

Lemma wham_iterate_S inp m :
  wham_iterate inp (S m) = snd (wham_update inp (wham_iterate inp m)).
Proof. reflexivity. Qed.

Lemma wham_loop_S inp n st :
  wham_loop inp (S n) st =
  let (P, f_new) := wham_update inp (ws_f st) in
  if wham_close f_new (ws_f st)
  then {| ws_P := P; ws_f := f_new; ws_iters := S (ws_iters st);
          ws_converged := true |}
  else wham_loop inp n
         {| ws_P := P; ws_f := f_new; ws_iters := S (ws_iters st);
            ws_converged := false |}.
Proof. reflexivity. Qed.

(** The loop from a state on the iterates, with at least one and at most
    [S n] more iterations: it follows the iterates, stops at the first that
    passes the test of line 490, and otherwise makes all [S n]. *)
Lemma wham_loop_spec inp n :
  forall st,
    ws_f st = wham_iterate inp (ws_iters st) ->
    let r := wham_loop inp (S n) st in
    (ws_iters st < ws_iters r <= ws_iters st + S n)%nat /\
    ws_P r = fst (wham_update inp (wham_iterate inp (pred (ws_iters r)))) /\
    ws_f r = wham_iterate inp (ws_iters r) /\
    (forall m, (ws_iters st < m < ws_iters r)%nat -> wham_close_at inp m = false) /\
    ws_converged r = wham_close_at inp (ws_iters r) /\
    (ws_converged r = false -> ws_iters r = (ws_iters st + S n)%nat).
Proof.
  induction n as [|n IH]; intros st Hf; cbv zeta.
  - rewrite wham_loop_S. cbn [wham_loop].
    destruct (wham_update inp (ws_f st)) as [P f_new] eqn:Hupd.
    assert (Hnew : f_new = wham_iterate inp (S (ws_iters st))).
    { rewrite wham_iterate_S, <- Hf, Hupd. reflexivity. }
    assert (Hclose : wham_close f_new (ws_f st) = wham_close_at inp (S (ws_iters st))).
    { unfold wham_close_at. cbn [pred]. now rewrite <- Hnew, <- Hf. }
    destruct (wham_close f_new (ws_f st)) eqn:Hc;
      cbn [ws_iters ws_f ws_P ws_converged pred];
      (split; [lia|]); (split; [now rewrite <- Hf, Hupd|]);
      (split; [exact Hnew|]); (split; [intros m Hm; lia|]);
      (split; [exact Hclose|]); intros H; first [discriminate H | lia].
  - rewrite wham_loop_S.
    destruct (wham_update inp (ws_f st)) as [P f_new] eqn:Hupd.
    assert (Hnew : f_new = wham_iterate inp (S (ws_iters st))).
    { rewrite wham_iterate_S, <- Hf, Hupd. reflexivity. }
    assert (Hclose : wham_close f_new (ws_f st) = wham_close_at inp (S (ws_iters st))).
    { unfold wham_close_at. cbn [pred]. now rewrite <- Hnew, <- Hf. }
    destruct (wham_close f_new (ws_f st)) eqn:Hc.
    + cbn [ws_iters ws_f ws_P ws_converged pred].
      split; [lia|]. split; [now rewrite <- Hf, Hupd|].
      split; [exact Hnew|]. split; [intros m Hm; lia|].
      split; [exact Hclose|]. intros H. discriminate H.
    + specialize (IH {| ws_P := P; ws_f := f_new; ws_iters := S (ws_iters st);
                        ws_converged := false |} Hnew).
      cbv zeta in IH.
      set (r := wham_loop inp (S n) _) in *.
      cbn [ws_iters] in IH.
      destruct IH as (Hrange & HP & Hfr & Hbefore & Hconv & Hfull).
      split; [lia|]. split; [exact HP|]. split; [exact Hfr|].
      split.
      { intros m Hm. destruct (Nat.eq_dec m (S (ws_iters st))) as [->|Hne].
        - now rewrite <- Hclose.
        - apply Hbefore. lia. }
      split; [exact Hconv|].
      intros Hcf. rewrite (Hfull Hcf). lia.
Qed.

Lemma wham_prepare_ok hist_list Mgrid k_bias M0_list beta :
  wham_shapes_ok hist_list Mgrid M0_list ->
  exists inp, wham_prepare hist_list Mgrid k_bias M0_list beta = OK inp /\
              wi_H inp = hist_list /\ wi_Mgrid inp = Mgrid /\ wi_beta inp = beta /\
              length (wi_V inp) = length hist_list /\
              length (wi_n_k inp) = length hist_list.
Proof.
  intros (Hne & Hrows & Hlen). unfold wham_prepare.
  destruct hist_list as [|h rest]; [contradiction|].
  inversion Hrows as [|? ? Hh Hrest]; subst.
  assert (Hall : forallb (fun h' => Nat.eqb (length h') (length h)) rest = true).
  { apply forallb_forall. intros h' Hin. apply Nat.eqb_eq.
    rewrite Forall_forall in Hrest. rewrite Hh. apply Hrest.
    now apply list_elem_of_In. }
  rewrite Hall. eexists. split; [reflexivity|]. cbn.
  repeat split; try reflexivity.
  - now rewrite length_map.
  - now rewrite length_map.
Qed.

(** C7, as the code has it.  On histograms, grid and targets of matching
    shapes [wham_us] raises nothing; its loop makes at least 1 and at most
    5000 iterations, leaves at the first iteration at which the largest
    change of [f] is below [1e-6] and otherwise makes all 5000; the value
    returned is the [P] of the last iteration made and the [F] computed from
    that [P] alone -- a pair without a convergence indicator. *)
Theorem wham_us_iterations hist_list Mgrid k_bias M0_list beta :
  wham_shapes_ok hist_list Mgrid M0_list ->
  exists inp,
    wham_prepare hist_list Mgrid k_bias M0_list beta = OK inp /\
    let st := wham_run inp in
    wham_us hist_list Mgrid k_bias M0_list beta
      = OK (ws_P st, wham_F beta (ws_P st)) /\
    (1 <= ws_iters st <= 5000)%nat /\
    ws_P st = fst (wham_update inp (wham_iterate inp (pred (ws_iters st)))) /\
    (forall m, (1 <= m < ws_iters st)%nat -> wham_close_at inp m = false) /\
    ws_converged st = wham_close_at inp (ws_iters st) /\
    (ws_converged st = false -> ws_iters st = 5000%nat).
Proof.
  intros Hshape.
  destruct (wham_prepare_ok hist_list Mgrid k_bias M0_list beta Hshape)
    as (inp & Hprep & _).
  exists inp. split; [exact Hprep|]. cbv zeta.
  split; [unfold wham_us; now rewrite Hprep|].
  unfold wham_run.
  change 5000%nat with (S 4999) at 1 2 3 4 5 6.
  destruct (wham_loop_spec inp 4999 (wham_start inp) eq_refl)
    as (Hrange & HP & _ & Hbefore & Hconv & Hfull).
  cbn [wham_start ws_iters] in Hrange, Hbefore, Hfull.
  set (r := wham_loop inp (S 4999) (wham_start inp)) in *.
  split; [lia|]. split; [exact HP|].
  split; [intros m Hm; apply Hbefore; lia|].
  split; [exact Hconv|].
  intros Hcf. rewrite (Hfull Hcf). reflexivity.
Qed.

End WhamProofs.

(* ================================================================== *)
(** * Further properties of the engine and of the solver *)
(* ================================================================== *)

Section LocalModel.
Context {F : Float64} {G : Generator}.

Ltac step_with H := rewrite (bind_OK _ _ _ _ _ H); cbv beta.

(** ** The lattice under a flip *)

Lemma spin_flip_same L lat i j :
  wf_lattice L lat -> 0 <= i < L -> 0 <= j < L ->
  spin (flip lat i j) i j = - spin lat i j.
Proof.
  intros Hwf Hi Hj.
  destruct (wf_cell L lat i j Hwf Hi Hj) as [Hc _].
  destruct (wf_cell L _ i j (wf_lattice_flip L lat i j Hwf Hi Hj) Hi Hj) as [Hc' _].
  unfold flip in Hc' at 1. rewrite (cell_set_cell_eq _ _ _ _ _ Hc) in Hc'.
  now injection Hc' as <-.
Qed.

Lemma spin_flip_other L lat i j a b :
  wf_lattice L lat -> 0 <= i < L -> 0 <= j < L -> 0 <= a < L -> 0 <= b < L ->
  (a, b) <> (i, j) ->
  spin (flip lat i j) a b = spin lat a b.
Proof.
  intros Hwf Hi Hj Ha Hb Hne.
  destruct (wf_cell L lat a b Hwf Ha Hb) as [Hc _].
  destruct (wf_cell L _ a b (wf_lattice_flip L lat i j Hwf Hi Hj) Ha Hb) as [Hc' _].
  unfold flip in Hc' at 1. rewrite cell_set_cell_ne in Hc'.
  - rewrite Hc in Hc'. now injection Hc'.
  - intros E. apply Hne. injection E as E1 E2. f_equal; lia.
Qed.

Lemma flip_flip L lat i j :
  wf_lattice L lat -> 0 <= i < L -> 0 <= j < L ->
  flip (flip lat i j) i j = lat.
Proof.
  intros Hwf Hi Hj.
  unfold flip at 1. rewrite (spin_flip_same L) by assumption.
  rewrite Z.opp_involutive.
  destruct (wf_lattice_row L lat i Hwf Hi) as (row & Hrow & Hlen & _ & Hnth).
  unfold flip, set_cell. rewrite Hrow.
  rewrite list_lookup_insert_eq by (apply lookup_lt_Some in Hrow; exact Hrow).
  rewrite list_insert_insert_eq, list_insert_insert_eq.
  rewrite (list_insert_id row).
  - now apply list_insert_id.
  - unfold spin. rewrite Hnth. rewrite nth_lookup.
    destruct (lookup_lt_is_Some_2 row (Z.to_nat j)) as [v Hv]; [lia|].
    now rewrite Hv.
Qed.

Lemma neighbor_sum_flip L lat i j :
  wf_lattice L lat -> 2 <= L -> 0 <= i < L -> 0 <= j < L ->
  neighbor_sum L (flip lat i j) i j = neighbor_sum L lat i j.
Proof.
  intros Hwf HL Hi Hj. unfold neighbor_sum.
  assert (Hup : forall k, 0 <= k < L -> (k + 1) mod L <> k).
  { intros k Hk E. destruct (Z.eq_dec (k + 1) L) as [E1|Hn].
    - rewrite E1, Z.mod_same in E by lia. lia.
    - rewrite Z.mod_small in E by lia. lia. }
  assert (Hdn : forall k, 0 <= k < L -> (k - 1) mod L <> k).
  { intros k Hk E. destruct (Z.eq_dec k 0) as [->|Hn].
    - assert (E' : L - 1 = (0 - 1) mod L)
        by (apply (Z.mod_unique_pos _ _ (-1)); lia).
      lia.
    - rewrite Z.mod_small in E by lia. lia. }
  rewrite !(spin_flip_other L); try assumption;
    try (apply Z.mod_pos_bound; lia); try reflexivity.
  - intros E. injection E as E. now apply (Hdn j).
  - intros E. injection E as E. now apply (Hup j).
  - intros E. injection E as E. now apply (Hdn i).
  - intros E. injection E as E. now apply (Hup i).
Qed.

Lemma exact_rnd_Proper : (forall x, rnd x == x)%Q -> Proper (Qeq ==> Qeq) rnd.
Proof. intros Hex x y E. now rewrite !Hex. Qed.

(** ** The fresh lattice *)

(** X1.  [init_lattice_nb] allocates its lattice: the result does not depend
    on the lattice that was there before, only on [L] and the generator.
    For [L >= 0] it returns an [L] by [L] array in which every cell is -1
    or 1 (so its sum lies within [-L^2, L^2]); for [L < 0] it raises
    [ValueError]. *)
Theorem init_lattice_nb_fresh {GL : GeneratorLaws G} L lat1 lat2 g :
  init_lattice_nb L (World lat1 g) = init_lattice_nb L (World lat2 g) /\
  (0 <= L ->
   returns (init_lattice_nb L) (World lat1 g)
     (fun _ w' => wf_lattice L (w_lat w') /\
                  - (L * L) <= total_sum (w_lat w') <= L * L)) /\
  (L < 0 -> init_lattice_nb L (World lat1 g) = Err ValueError).
Proof.
  split; [|split].
  - unfold init_lattice_nb, bind, np_empty. cbn [w_gen].
    destruct (L <? 0); reflexivity.
  - intros HL. eapply returns_weaken; [now apply init_lattice_nb_run|].
    intros [] w' Hwf. split; [exact Hwf|now apply wf_lattice_bound].
  - apply init_lattice_nb_negative.
Qed.

(** ** Reversing a flip *)

(** X2.  On a lattice of side at least 2 a site is not its own neighbour,
    so after the spin at [(i, j)] is flipped, flipping it again restores the
    lattice, and [delta_energy_nb] at the same site returns the same
    expression with the spin negated and the neighbour sum unchanged:
    without rounding, the opposite of the energy change of the first
    flip. *)
Theorem delta_energy_nb_reverse L lat g i j J h :
  wf_lattice L lat -> 2 <= L -> 0 <= i < L -> 0 <= j < L ->
  flip (flip lat i j) i j = lat /\
  delta_energy_nb i j J h (World (flip lat i j) g)
    = OK (fmul (of_Z (2 * - spin lat i j))
               (fadd (fmul J (of_Z (neighbor_sum L lat i j))) h),
          World (flip lat i j) g) /\
  ((forall x, rnd x == x)%Q ->
   (energy_change L (flip lat i j) i j J h == - energy_change L lat i j J h)%Q).
Proof.
  intros Hwf HL Hi Hj. split; [now apply (flip_flip L)|].
  assert (Hwf' : wf_lattice L (flip lat i j)) by now apply wf_lattice_flip.
  assert (E : energy_change L (flip lat i j) i j J h
              = fmul (of_Z (2 * - spin lat i j))
                     (fadd (fmul J (of_Z (neighbor_sum L lat i j))) h)).
  { unfold energy_change.
    now rewrite (spin_flip_same L), (neighbor_sum_flip L) by assumption. }
  split.
  - rewrite <- E. now apply (delta_energy_nb_run L (World (flip lat i j) g)).
  - intros Hex. pose proof (exact_rnd_Proper Hex).
    rewrite E. unfold energy_change, fmul, fadd, of_Z.
    rewrite !Hex, !inject_Z_mult, inject_Z_opp. ring.
Qed.

Lemma biased_change_exact_eq L lat i j J k_bias M0 M_ :
  (forall x, rnd x == x)%Q ->
  (biased_change L lat i j J k_bias M0 M_
   == biased_change_exact L lat i j J k_bias M0 M_)%Q.
Proof.
  intros Hex. pose proof (exact_rnd_Proper Hex).
  unfold biased_change, biased_change_exact, fmul, fadd, fsub, of_Z.
  cbv zeta. rewrite !Hex, !inject_Z_mult. ring.
Qed.

(** X3.  The biased counterpart.  A flip changes the lattice sum by
    [dM = -2 s], which is 2 or -2; on the flipped lattice, with the tracked
    magnetization advanced to [M + dM], [delta_E_and_dM] at the same site
    returns [-dM] (so that a second flip brings [M] back) and, without
    rounding, the opposite of the biased energy change of the first flip. *)
Theorem delta_E_and_dM_reverse L lat g i j J k_bias M0 M_ :
  wf_lattice L lat -> 2 <= L -> 0 <= i < L -> 0 <= j < L ->
  let dM := -2 * spin lat i j in
  (dM = 2 \/ dM = -2) /\
  total_sum (flip lat i j) = total_sum lat + dM /\
  exists dE',
    delta_E_and_dM i j J k_bias M0 (M_ + dM) (World (flip lat i j) g)
      = OK ((dE', - dM), World (flip lat i j) g) /\
    ((forall x, rnd x == x)%Q ->
     (dE' == - biased_change L lat i j J k_bias M0 M_)%Q).
Proof.
  intros Hwf HL Hi Hj dM. subst dM.
  assert (Hwf' : wf_lattice L (flip lat i j)) by now apply wf_lattice_flip.
  destruct (wf_cell L lat i j Hwf Hi Hj) as [_ Hs].
  split; [destruct Hs as [-> | ->]; [left|right]; reflexivity|].
  split; [rewrite (total_sum_flip L) by assumption; lia|].
  eexists. split.
  - rewrite (delta_E_and_dM_run L (World (flip lat i j) g)) by assumption.
    cbn [w_lat]. rewrite (spin_flip_same L) by assumption.
    repeat f_equal. lia.
  - intros Hex. rewrite !biased_change_exact_eq by exact Hex.
    unfold biased_change_exact. cbv zeta.
    rewrite (spin_flip_same L), (neighbor_sum_flip L) by assumption.
    replace (M_ + -2 * spin lat i j + -2 * - spin lat i j) with M_ by lia.
    rewrite inject_Z_opp. ring.
Qed.

(** ** Indices of [delta_E_and_dM] *)

Lemma norm_index_negative n i :
  - Z.of_nat n <= i < 0 -> norm_index n i = OK (Z.to_nat (i + Z.of_nat n)).
Proof.
  intros H. unfold norm_index.
  destruct (Z.leb_spec 0 i); [lia|]. cbn [andb].
  destruct (Z.leb_spec (- Z.of_nat n) i); [|lia].
  destruct (Z.ltb_spec i 0); [|lia]. reflexivity.
Qed.

Lemma norm_index_out_of_range n i :
  i < - Z.of_nat n \/ Z.of_nat n <= i -> norm_index n i = Err IndexError.
Proof.
  intros H. unfold norm_index.
  destruct (Z.leb_spec 0 i), (Z.ltb_spec i (Z.of_nat n)),
           (Z.leb_spec (- Z.of_nat n) i), (Z.ltb_spec i 0);
    cbn [andb]; try reflexivity; lia.
Qed.

Lemma norm_index_wrap n a a' :
  0 <= a < Z.of_nat n -> a' = a \/ a' = a - Z.of_nat n ->
  norm_index n a' = OK (Z.to_nat a).
Proof.
  intros Ha [-> | ->].
  - now apply norm_index_in_range.
  - rewrite norm_index_negative by lia. do 2 f_equal. lia.
Qed.

Lemma lat_get_wrap L w a b a' b' :
  wf_lattice L (w_lat w) -> 0 <= a < L -> 0 <= b < L ->
  a' = a \/ a' = a - L -> b' = b \/ b' = b - L ->
  lat_get a' b' w = OK (spin (w_lat w) a b, w).
Proof.
  intros Hwf Ha Hb Ha' Hb'. unfold lat_get.
  destruct (wf_shape L _ Hwf ltac:(lia)) as [H0 H1].
  rewrite (norm_index_wrap _ a), (norm_index_wrap _ b) by (rewrite ?H0, ?H1; assumption).
  destruct (wf_cell L _ a b Hwf Ha Hb) as [-> _]. reflexivity.
Qed.

Lemma lat_get_out_of_range L w a' b' :
  wf_lattice L (w_lat w) -> 0 < L ->
  a' < - L \/ L <= a' \/ b' < - L \/ L <= b' ->
  lat_get a' b' w = Err IndexError.
Proof.
  intros Hwf HL H. unfold lat_get.
  destruct (wf_shape L _ Hwf HL) as [H0 H1].
  destruct (Z_lt_dec a' (- L)) as [Ha|Ha];
    [rewrite (norm_index_out_of_range _ a') by lia; reflexivity|].
  destruct (Z_le_dec L a') as [Ha2|Ha2];
    [rewrite (norm_index_out_of_range _ a') by lia; reflexivity|].
  rewrite (norm_index_out_of_range _ b') by lia.
  destruct (norm_index _ a'); reflexivity.
Qed.

Lemma mod_shift a L : L <> 0 -> (a - L) mod L = a mod L.
Proof.
  intros HL. replace (a - L) with (a + (-1) * L) by lia. now apply Z.mod_add.
Qed.

(** X4.  [delta_E_and_dM] is interpreted by Python, where array indices are
    checked: a negative site index in [-L, 0) counts from the end, so the
    site [(i - L, j - L)] is the site [(i, j)] and gives the same result; an
    index below [-L] or at least [L] raises [IndexError]. *)
Theorem delta_E_and_dM_indices L w i j J k_bias M0 M_ :
  wf_lattice L (w_lat w) -> 0 <= i < L -> 0 <= j < L ->
  (forall i' j', i' = i \/ i' = i - L -> j' = j \/ j' = j - L ->
     delta_E_and_dM i' j' J k_bias M0 M_ w = delta_E_and_dM i j J k_bias M0 M_ w) /\
  (forall i' j', i' < - L \/ L <= i' \/ j' < - L \/ L <= j' ->
     delta_E_and_dM i' j' J k_bias M0 M_ w = Err IndexError).
Proof.
  intros Hwf Hi Hj.
  assert (Hgen : forall i' j', i' = i \/ i' = i - L -> j' = j \/ j' = j - L ->
    delta_E_and_dM i' j' J k_bias M0 M_ w =
    (let s := spin (w_lat w) i j in
     let nb := wrap8 (wrap8 (wrap8 (spin (w_lat w) ((i + 1) mod L) j
                                    + spin (w_lat w) ((i - 1) mod L) j)
                             + spin (w_lat w) i ((j + 1) mod L))
                      + spin (w_lat w) i ((j - 1) mod L)) in
     let dM := wrap8 (-2 * s) in
     OK ((fadd (fmul (fmul (of_Z (wrap8 (2 * s))) J) (of_Z nb))
               (fmul (fmul (1 # 2) k_bias)
                     (fsub (fmul (fsub (of_Z (M_ + dM)) M0) (fsub (of_Z (M_ + dM)) M0))
                           (fmul (fsub (of_Z M_) M0) (fsub (of_Z M_) M0)))), dM), w))).
  { intros i' j' Hi' Hj'. unfold delta_E_and_dM.
    step_with (lat_shape0_wf L w Hwf).
    rewrite !np_mod_nonzero by lia.
    assert (E1 : (i' + 1) mod L = (i + 1) mod L).
    { destruct Hi' as [-> | ->]; [reflexivity|].
      replace (i - L + 1) with (i + 1 - L) by lia. apply mod_shift; lia. }
    assert (E2 : (i' - 1) mod L = (i - 1) mod L).
    { destruct Hi' as [-> | ->]; [reflexivity|].
      replace (i - L - 1) with (i - 1 - L) by lia. apply mod_shift; lia. }
    assert (E3 : (j' + 1) mod L = (j + 1) mod L).
    { destruct Hj' as [-> | ->]; [reflexivity|].
      replace (j - L + 1) with (j + 1 - L) by lia. apply mod_shift; lia. }
    assert (E4 : (j' - 1) mod L = (j - 1) mod L).
    { destruct Hj' as [-> | ->]; [reflexivity|].
      replace (j - L - 1) with (j - 1 - L) by lia. apply mod_shift; lia. }
    rewrite E1, E2, E3, E4.
    rewrite (bind_OK _ _ _ _ _ (lat_get_wrap L w i j i' j' Hwf Hi Hj Hi' Hj')); cbv beta.
    rewrite (bind_OK _ _ _ _ _ (lat_get_wrap L w ((i + 1) mod L) j _ j' Hwf
               ltac:(apply Z.mod_pos_bound; lia) Hj (or_introl eq_refl) Hj')); cbv beta.
    rewrite (bind_OK _ _ _ _ _ (lat_get_wrap L w ((i - 1) mod L) j _ j' Hwf
               ltac:(apply Z.mod_pos_bound; lia) Hj (or_introl eq_refl) Hj')); cbv beta.
    rewrite (bind_OK _ _ _ _ _ (lat_get_wrap L w i ((j + 1) mod L) i' _ Hwf
               Hi ltac:(apply Z.mod_pos_bound; lia) Hi' (or_introl eq_refl))); cbv beta.
    rewrite (bind_OK _ _ _ _ _ (lat_get_wrap L w i ((j - 1) mod L) i' _ Hwf
               Hi ltac:(apply Z.mod_pos_bound; lia) Hi' (or_introl eq_refl))); cbv beta.
    reflexivity. }
  split.
  - intros i' j' Hi' Hj'.
    rewrite (Hgen i' j' Hi' Hj').
    now rewrite (Hgen i j (or_introl eq_refl) (or_introl eq_refl)).
  - intros i' j' Hout. unfold delta_E_and_dM.
    step_with (lat_shape0_wf L w Hwf).
    apply bind_Err. apply (lat_get_out_of_range L); [exact Hwf|lia|exact Hout].
Qed.

(** X5.  With no bias ([k_bias = 0]) the biased energy change of
    [delta_E_and_dM] is, without rounding, the energy change of
    [delta_energy_nb] at zero field. *)
Theorem zero_bias_is_zero_field L w i j J M0 M_ :
  wf_lattice L (w_lat w) -> 0 <= i < L -> 0 <= j < L ->
  (forall x, rnd x == x)%Q ->
  exists dE dEb dM,
    delta_energy_nb i j J 0 w = OK (dE, w) /\
    delta_E_and_dM i j J 0 M0 M_ w = OK ((dEb, dM), w) /\
    (dEb == dE)%Q.
Proof.
  intros Hwf Hi Hj Hex. eexists _, _, _.
  split; [now apply (delta_energy_nb_run L)|].
  split; [now apply (delta_E_and_dM_run L)|].
  pose proof (exact_rnd_Proper Hex).
  rewrite biased_change_exact_eq by exact Hex.
  unfold biased_change_exact, energy_change, fmul, fadd, of_Z. cbv zeta.
  rewrite !Hex, !inject_Z_mult. ring.
Qed.

End LocalModel.

Section Magnetization.
Context {F : Float64} {G : Generator} {FL : Float64Laws F}.

Ltac step_with H := rewrite (bind_OK _ _ _ _ _ H); cbv beta.

Ltac step_div :=
  match goal with
  | |- context [bind (py_div_Z ?x ?n) _ ?w] =>
      let H := fresh in
      assert (H : py_div_Z x n w = OK (fdiv x (of_Z n), w))
        by (apply py_div_Z_run; nia);
      step_with H; clear H
  end.

#[local] Instance rnd_Proper_laws : Proper (Qeq ==> Qeq) rnd.
Proof. intros x y E. now apply rnd_proper. Qed.

(** ** Bounds through the rounding *)

Lemma rnd_ge_Z x z : Z.abs z <= 2 ^ 53 -> (inject_Z z <= x)%Q -> (inject_Z z <= rnd x)%Q.
Proof.
  intros Hz Hx. rewrite <- (rnd_int z Hz). now apply rnd_mono.
Qed.

Lemma rnd_0 : (rnd 0 == 0)%Q.
Proof. apply (rnd_int 0). cbn. lia. Qed.

Lemma rnd_unit x : (0 <= x <= 1)%Q -> (0 <= rnd x <= 1)%Q.
Proof.
  intros [H0 H1]. split.
  - now apply rnd_nonneg.
  - apply (rnd_le_Z x 1); [cbn; lia|exact H1].
Qed.

Lemma rnd_sym_unit x : (-1 <= x <= 1)%Q -> (-1 <= rnd x <= 1)%Q.
Proof.
  intros [H0 H1]. split.
  - apply (rnd_ge_Z x (-1)); [cbn; lia|exact H0].
  - apply (rnd_le_Z x 1); [cbn; lia|exact H1].
Qed.

(** A quotient by a positive integer of a number within that integer. *)
Lemma fdiv_sym_unit a D :
  0 < D <= 2 ^ 53 -> (inject_Z (- D) <= a <= inject_Z D)%Q ->
  (-1 <= fdiv a (of_Z D) <= 1)%Q.
Proof.
  intros HD [Hlo Hhi]. unfold fdiv. apply rnd_sym_unit.
  rewrite (of_Z_exact D) by lia.
  assert (Hpos : (0 < inject_Z D)%Q) by (rewrite <- (Zlt_Qlt 0); lia).
  split.
  - apply Qle_shift_div_l; [exact Hpos|].
    rewrite inject_Z_opp in Hlo. lra.
  - apply Qle_shift_div_r; [exact Hpos|]. lra.
Qed.

Lemma fdiv_unit a D :
  0 < D <= 2 ^ 53 -> (0 <= a <= inject_Z D)%Q ->
  (0 <= fdiv a (of_Z D) <= 1)%Q.
Proof.
  intros HD [Hlo Hhi]. unfold fdiv. apply rnd_unit.
  rewrite (of_Z_exact D) by lia.
  assert (Hpos : (0 < inject_Z D)%Q) by (rewrite <- (Zlt_Qlt 0); lia).
  split.
  - apply Qle_shift_div_l; [exact Hpos|]. lra.
  - apply Qle_shift_div_r; [exact Hpos|]. lra.
Qed.

Lemma fdiv_0 y : (fdiv 0 y == 0)%Q.
Proof.
  unfold fdiv. rewrite <- rnd_0 at 2. apply rnd_proper.
  unfold Qdiv. ring.
Qed.

(** ** [measure_magnetization_nb] *)

Lemma magnetization_loop_bound {GL : GeneratorLaws G} L beta h J n w :
  wf_lattice L (w_lat w) -> 1 <= L -> 0 <= n -> n * (L * L) <= 2 ^ 53 ->
  returns (for_range n (fun _ m_accum =>
             bind (metropolis_step_nb beta J h)
                  (fun _ => bind lat_sum (fun s => ret (fadd m_accum (of_Z s))))) 0%Q) w
    (fun m w' => wf_lattice L (w_lat w') /\
                 (inject_Z (- (n * (L * L))) <= m <= inject_Z (n * (L * L)))%Q).
Proof.
  intros Hwf HL Hn Hb.
  apply (returns_for_range
           (fun k (m : Q) w' =>
              wf_lattice L (w_lat w') /\
              (inject_Z (- (k * (L * L))) <= m <= inject_Z (k * (L * L)))%Q)).
  - exact Hn.
  - split; [exact Hwf|]. cbn. split; apply Qle_refl.
  - intros k m w1 Hk [Hw1 [Hlo Hhi]].
    destruct (metropolis_step_nb_run L beta J h w1 Hw1) as (w2 & Hrun & _ & Hw2).
    unfold returns. step_with Hrun. unfold lat_sum. cbn [bind]. unfold ret.
    eexists _, _. split; [reflexivity|]. split; [exact Hw2|].
    pose proof (wf_lattice_bound L _ Hw2) as Hs.
    assert (Hs' : (of_Z (total_sum (w_lat w2)) == inject_Z (total_sum (w_lat w2)))%Q)
      by (apply of_Z_exact; nia).
    unfold fadd. split.
    + apply rnd_ge_Z; [nia|]. rewrite Hs'.
      apply Qle_trans with (inject_Z (- (k * (L * L))) + inject_Z (- (L * L)))%Q.
      * rewrite <- inject_Z_plus, <- Zle_Qle. lia.
      * apply Qplus_le_compat; [exact Hlo|]. rewrite <- Zle_Qle. lia.
    + apply rnd_le_Z; [nia|]. rewrite Hs'.
      apply Qle_trans with (inject_Z (k * (L * L)) + inject_Z (L * L))%Q.
      * apply Qplus_le_compat; [exact Hhi|]. rewrite <- Zle_Qle. lia.
      * rewrite <- inject_Z_plus, <- Zle_Qle. lia.
Qed.

Lemma measure_magnetization_nb_bound {GL : GeneratorLaws G} L T h n_eq n_steps J w :
  1 <= L -> ~ (T == 0)%Q -> 0 < n_steps -> n_steps * (L * L) <= 2 ^ 53 ->
  returns (measure_magnetization_nb L T h n_eq n_steps J) w
    (fun m _ => (-1 <= m <= 1)%Q).
Proof.
  intros HL HT Hn Hb. unfold measure_magnetization_nb.
  destruct (init_lattice_nb_run L w ltac:(lia)) as ([] & w1 & H1 & Hw1).
  unfold returns. step_with H1. step_with (py_div_run 1 T w1 HT).
  destruct (sweeps_run L (fdiv 1 T) J h n_eq w1 Hw1) as ([] & w2 & H2 & Hw2).
  step_with H2.
  destruct (magnetization_loop_bound L (fdiv 1 T) h J n_steps w2 Hw2 HL ltac:(lia) Hb)
    as (m & w3 & H3 & Hw3 & Hm).
  step_with H3.
  rewrite (mul64_product n_steps L) by nia.
  rewrite py_div_Z_run by nia.
  eexists _, _. split; [reflexivity|].
  replace (n_steps * L * L) with (n_steps * (L * L)) by lia.
  apply fdiv_sym_unit; [nia|exact Hm].
Qed.

(** X6.  For a lattice of side [L >= 1] and [T] not zero, the value of
    [measure_magnetization_nb] lies in [-1, 1] when [n_steps > 0] (for
    [n_steps * L^2 <= 2^53], so that the bound on the accumulated sum is a
    number that [float64] represents exactly); with a negative [n_steps]
    whose product [n_steps * L^2] fits [int64] the measurement loop is empty
    and the value is zero. *)
Theorem measure_magnetization_nb_range
        {GL : GeneratorLaws G} L T h n_eq n_steps J w :
  1 <= L -> ~ (T == 0)%Q ->
  (0 < n_steps -> n_steps * (L * L) <= 2 ^ 53 ->
   returns (measure_magnetization_nb L T h n_eq n_steps J) w
     (fun m _ => (-1 <= m <= 1)%Q)) /\
  (n_steps < 0 -> - 2 ^ 63 <= n_steps * (L * L) ->
   returns (measure_magnetization_nb L T h n_eq n_steps J) w
     (fun m _ => (m == 0)%Q)).
Proof.
  intros HL HT. split.
  - intros Hn Hb. now apply measure_magnetization_nb_bound.
  - intros Hn Hfit. unfold measure_magnetization_nb.
    rewrite (mul64_product n_steps L) by nia.
    destruct (init_lattice_nb_run L w ltac:(lia)) as ([] & w1 & H1 & Hw1).
    unfold returns. step_with H1. step_with (py_div_run 1 T w1 HT).
    destruct (sweeps_run L (fdiv 1 T) J h n_eq w1 Hw1) as ([] & w2 & H2 & Hw2).
    step_with H2.
    rewrite (bind_OK _ _ _ _ _ (for_range_nonpos _ n_steps 0%Q w2 ltac:(lia))).
    rewrite py_div_Z_run by nia.
    eexists _, _. split; [reflexivity|]. apply fdiv_0.
Qed.

(** ** [measure_abs_magnetization_nb] *)

Lemma abs_magnetization_loop_bound {GL : GeneratorLaws G} L beta J n w :
  wf_lattice L (w_lat w) -> 1 <= L -> L * L <= 2 ^ 53 -> 0 <= n <= 2 ^ 53 ->
  returns (for_range n (fun _ abs_m_sum =>
             bind (metropolis_step_nb beta J 0)
               (fun _ => bind lat_sum
                  (fun s => bind (py_div_Z (of_Z (Z.abs s)) (L * L))
                     (fun a => ret (fadd abs_m_sum a))))) 0%Q) w
    (fun m w' => wf_lattice L (w_lat w') /\ (0 <= m <= inject_Z n)%Q).
Proof.
  intros Hwf HL HN Hn.
  apply (returns_for_range
           (fun k (m : Q) w' =>
              wf_lattice L (w_lat w') /\ (0 <= m <= inject_Z k)%Q)).
  - lia.
  - split; [exact Hwf|]. cbn. split; apply Qle_refl.
  - intros k m w1 Hk [Hw1 [Hlo Hhi]].
    destruct (metropolis_step_nb_run L beta J 0 w1 Hw1) as (w2 & Hrun & _ & Hw2).
    unfold returns. step_with Hrun. unfold lat_sum. cbn [bind].
    step_div. unfold ret.
    eexists _, _. split; [reflexivity|]. split; [exact Hw2|].
    pose proof (wf_lattice_bound L _ Hw2) as Hs.
    assert (Ha : (0 <= fdiv (of_Z (Z.abs (total_sum (w_lat w2)))) (of_Z (L * L)) <= 1)%Q).
    { apply fdiv_unit; [nia|]. rewrite of_Z_exact by lia.
      split; rewrite <- ?(Zle_Qle 0), <- ?Zle_Qle; lia. }
    destruct Ha as [Ha0 Ha1].
    unfold fadd at 1. split.
    + apply rnd_nonneg. lra.
    + apply rnd_le_Z; [lia|]. rewrite inject_Z_plus.
      change (inject_Z 1) with 1%Q. lra.
Qed.

(** X7.  For [L >= 1], [T] not zero and [n_steps > 0], the value of
    [measure_abs_magnetization_nb] lies in [0, 1]. *)
Theorem measure_abs_magnetization_nb_range
        {GL : GeneratorLaws G} L T n_eq n_steps J w :
  1 <= L -> L * L <= 2 ^ 53 -> ~ (T == 0)%Q -> 0 < n_steps <= 2 ^ 53 ->
  returns (measure_abs_magnetization_nb L T n_eq n_steps J) w
    (fun m w' => (0 <= m <= 1)%Q /\ wf_lattice L (w_lat w')).
Proof.
  intros HL HN HT Hn. unfold measure_abs_magnetization_nb.
  destruct (init_lattice_nb_run L w ltac:(lia)) as ([] & w1 & H1 & Hw1).
  unfold returns. step_with H1. step_with (py_div_run 1 T w1 HT). cbv zeta.
  destruct (sweeps_run L (fdiv 1 T) J 0 n_eq w1 Hw1) as ([] & w2 & H2 & Hw2).
  step_with H2.
  destruct (abs_magnetization_loop_bound L (fdiv 1 T) J n_steps w2 Hw2 HL HN ltac:(lia))
    as (m & w3 & H3 & Hw3 & Hm).
  step_with H3.
  rewrite py_div_Z_run by lia.
  eexists _, _. split; [reflexivity|]. split; [|exact Hw3].
  apply fdiv_unit; [lia|exact Hm].
Qed.

Lemma for_range_first_Err {A} (body : Z -> A -> M A) n a w e :
  1 <= n -> body 0 a w = Err e -> for_range n body a w = Err e.
Proof.
  intros Hn He. unfold for_range.
  destruct (Z.to_nat n) as [|n'] eqn:E; [lia|].
  cbn [for_loop]. now apply bind_Err.
Qed.

Lemma wf_lattice_empty : wf_lattice 0 [].
Proof. split; [reflexivity|constructor]. Qed.

Lemma wf_lattice_0 lat : wf_lattice 0 lat -> lat = [].
Proof. intros [Hlen _]. destruct lat; [reflexivity|cbn in Hlen; lia]. Qed.

(** X8.  Where [measure_abs_magnetization_nb] fails: [ValueError] for
    [L < 0] (the allocation), [ZeroDivisionError] for [T = 0], for an empty
    lattice ([L = 0]) at the first measurement ([abs(lattice.sum()) / N] with
    [N = 0]) and for [n_steps = 0] (the final division, after the
    equilibration sweeps have run).  A negative [n_steps] is accepted and
    gives zero. *)
Theorem measure_abs_magnetization_nb_errors
        {GL : GeneratorLaws G} L T n_eq n_steps J w :
  (L < 0 -> measure_abs_magnetization_nb L T n_eq n_steps J w = Err ValueError) /\
  (0 <= L -> (T == 0)%Q ->
   measure_abs_magnetization_nb L T n_eq n_steps J w = Err ZeroDivisionError) /\
  (L = 0 -> ~ (T == 0)%Q -> 1 <= n_steps ->
   measure_abs_magnetization_nb L T n_eq n_steps J w = Err ZeroDivisionError) /\
  (0 <= L -> ~ (T == 0)%Q -> n_steps = 0 ->
   measure_abs_magnetization_nb L T n_eq n_steps J w = Err ZeroDivisionError) /\
  (0 <= L -> ~ (T == 0)%Q -> n_steps < 0 ->
   returns (measure_abs_magnetization_nb L T n_eq n_steps J) w
     (fun m _ => (m == 0)%Q)).
Proof.
  split; [|split; [|split; [|split]]].
  - intros HL. unfold measure_abs_magnetization_nb.
    apply bind_Err. now apply init_lattice_nb_negative.
  - intros HL HT. unfold measure_abs_magnetization_nb.
    destruct (init_lattice_nb_run L w HL) as ([] & w1 & H1 & Hw1).
    step_with H1. apply bind_Err. unfold py_div.
    apply Qeq_bool_iff in HT. now rewrite HT.
  - intros HL HT Hn. unfold measure_abs_magnetization_nb.
    destruct (init_lattice_nb_run L w ltac:(lia)) as ([] & w1 & H1 & Hw1).
    step_with H1. step_with (py_div_run 1 T w1 HT). cbv zeta.
    destruct (sweeps_run L (fdiv 1 T) J 0 n_eq w1 Hw1) as ([] & w2 & H2 & Hw2).
    step_with H2. apply bind_Err. apply for_range_first_Err; [exact Hn|].
    destruct (metropolis_step_nb_run L (fdiv 1 T) J 0 w2 Hw2) as (w3 & H3 & _ & Hw3).
    step_with H3. unfold lat_sum. cbn [bind]. subst L. reflexivity.
  - intros HL HT Hn. unfold measure_abs_magnetization_nb.
    destruct (init_lattice_nb_run L w HL) as ([] & w1 & H1 & Hw1).
    step_with H1. step_with (py_div_run 1 T w1 HT). cbv zeta.
    destruct (sweeps_run L (fdiv 1 T) J 0 n_eq w1 Hw1) as ([] & w2 & H2 & Hw2).
    step_with H2.
    rewrite (bind_OK _ _ _ _ _ (for_range_nonpos _ n_steps 0%Q w2 ltac:(lia))).
    subst n_steps. reflexivity.
  - intros HL HT Hn. unfold measure_abs_magnetization_nb.
    destruct (init_lattice_nb_run L w HL) as ([] & w1 & H1 & Hw1).
    unfold returns. step_with H1. step_with (py_div_run 1 T w1 HT). cbv zeta.
    destruct (sweeps_run L (fdiv 1 T) J 0 n_eq w1 Hw1) as ([] & w2 & H2 & Hw2).
    step_with H2.
    rewrite (bind_OK _ _ _ _ _ (for_range_nonpos _ n_steps 0%Q w2 ltac:(lia))).
    rewrite py_div_Z_run by lia.
    eexists _, _. split; [reflexivity|]. apply fdiv_0.
Qed.

End Magnetization.

Section FieldScan.
Context {F : Float64} {G : Generator}.

Ltac step_with H := rewrite (bind_OK _ _ _ _ _ H); cbv beta.

(** ** [compute_m_vs_h_nb] *)

Lemma arr_get_middle (pre rest : list Q) x w :
  arr_get (pre ++ x :: rest) (Z.of_nat (length pre)) w = OK (x, w).
Proof.
  unfold arr_get. rewrite norm_index_in_range.
  - rewrite Nat2Z.id, list_lookup_middle by reflexivity. reflexivity.
  - rewrite length_app. cbn [length]. lia.
Qed.

Lemma arr_set_middle (done rest : list Q) x y w :
  arr_set (done ++ x :: rest) (Z.of_nat (length done)) y w
    = OK ((done ++ [y]) ++ rest, w).
Proof.
  unfold arr_set. rewrite norm_index_in_range.
  - rewrite Nat2Z.id. unfold ret. do 2 f_equal.
    rewrite insert_app_r_alt by lia. rewrite Nat.sub_diag. cbn.
    now rewrite <- app_assoc.
  - rewrite length_app. cbn [length]. lia.
Qed.

Lemma m_vs_h_loop L T n_eq n_steps J :
  forall rest pre done w,
    length done = length pre ->
    for_loop (length rest) (Z.of_nat (length pre))
      (fun idx m_vs_h =>
         bind (arr_get (pre ++ rest) idx)
           (fun h => bind (measure_magnetization_nb L T h n_eq n_steps J)
                       (fun m => arr_set m_vs_h idx m)))
      (done ++ replicate (length rest) 0%Q) w
    = match measure_each L T rest n_eq n_steps J w with
      | OK (ms, w') => OK (done ++ ms, w')
      | Err e => Err e
      end.
Proof.
  induction rest as [|h rest IH]; intros pre done w Hlen.
  - reflexivity.
  - cbn [length for_loop replicate measure_each]. cbv beta.
    rewrite bind_assoc. step_with (arr_get_middle pre rest h w).
    rewrite bind_assoc.
    destruct (measure_magnetization_nb L T h n_eq n_steps J w) as [[m w1]|e] eqn:Hm.
    + step_with Hm. rewrite <- Hlen.
      step_with (arr_set_middle done (replicate (length rest) 0%Q) 0%Q m w1).
      replace (pre ++ h :: rest) with ((pre ++ [h]) ++ rest)
        by (now rewrite <- app_assoc).
      replace (Z.of_nat (length done) + 1) with (Z.of_nat (length (pre ++ [h])))
        by (rewrite length_app; cbn [length]; lia).
      rewrite (IH (pre ++ [h]) (done ++ [m]) w1)
        by (rewrite !length_app; cbn [length]; lia).
      destruct (measure_each L T rest n_eq n_steps J w1) as [[ms w2]|e];
        [|reflexivity].
      now rewrite <- app_assoc.
    + now rewrite (bind_Err _ _ _ e Hm).
Qed.

Lemma compute_m_vs_h_nb_unfold L T hs n_eq n_steps J w :
  compute_m_vs_h_nb L T hs n_eq n_steps J w = measure_each L T hs n_eq n_steps J w.
Proof.
  unfold compute_m_vs_h_nb. cbv zeta.
  step_with (np_zeros_run (Z.of_nat (length hs)) w ltac:(lia)).
  unfold for_range. rewrite Nat2Z.id.
  pose proof (m_vs_h_loop L T n_eq n_steps J hs [] [] w eq_refl) as H.
  cbn [length app] in H. change (Z.of_nat 0) with 0 in H. rewrite H.
  destruct (measure_each L T hs n_eq n_steps J w) as [[ms w']|e]; reflexivity.
Qed.

(** X9.  [compute_m_vs_h_nb] is [measure_magnetization_nb] mapped over the
    field values in order: every call starts from the generator state left
    by the call before it, the first call that raises ends the run with the
    same exception, and the result has one entry per field value.  With no
    field values the result is the empty array whatever the other
    arguments, and nothing is drawn from the generator. *)
Theorem compute_m_vs_h_nb_each L T hs n_eq n_steps J w :
  compute_m_vs_h_nb L T hs n_eq n_steps J w = measure_each L T hs n_eq n_steps J w /\
  compute_m_vs_h_nb L T [] n_eq n_steps J w = OK ([], w) /\
  (forall ms w', compute_m_vs_h_nb L T hs n_eq n_steps J w = OK (ms, w') ->
                 length ms = length hs).
Proof.
  split; [apply compute_m_vs_h_nb_unfold|].
  split; [now rewrite compute_m_vs_h_nb_unfold|].
  rewrite compute_m_vs_h_nb_unfold. revert w.
  induction hs as [|h hs IH]; intros w ms w' H; cbn [measure_each] in H.
  - now injection H as <- <-.
  - destruct (measure_magnetization_nb L T h n_eq n_steps J w) as [[m w1]|e];
      [|discriminate].
    destruct (measure_each L T hs n_eq n_steps J w1) as [[ms1 w2]|e] eqn:E;
      [|discriminate].
    injection H as <- <-. cbn [length]. f_equal. now apply (IH w1 ms1 w2).
Qed.

Context {FL : Float64Laws F}.

(** X10.  For [L >= 1], [T] not zero and [n_steps > 0],
    [compute_m_vs_h_nb] raises nothing and returns one magnetization in
    [-1, 1] per field value; for [L < 0] and at least one field value it
    raises [ValueError]. *)
Theorem compute_m_vs_h_nb_range {GL : GeneratorLaws G} L T hs n_eq n_steps J w :
  (1 <= L -> ~ (T == 0)%Q -> 0 < n_steps -> n_steps * (L * L) <= 2 ^ 53 ->
   returns (compute_m_vs_h_nb L T hs n_eq n_steps J) w
     (fun ms _ => length ms = length hs /\ Forall (fun m => (-1 <= m <= 1)%Q) ms)) /\
  (L < 0 -> hs <> [] ->
   compute_m_vs_h_nb L T hs n_eq n_steps J w = Err ValueError).
Proof.
  split.
  - intros HL HT Hn Hb. unfold returns. rewrite compute_m_vs_h_nb_unfold.
    revert w. induction hs as [|h hs IH]; intros w; cbn [measure_each].
    + eexists _, _. split; [reflexivity|]. split; [reflexivity|constructor].
    + destruct (measure_magnetization_nb_bound L T h n_eq n_steps J w HL HT Hn Hb)
        as (m & w1 & Hm & Hrange).
      rewrite Hm. destruct (IH w1) as (ms & w2 & Hms & Hlen & Hall).
      rewrite Hms. eexists _, _. split; [reflexivity|].
      split; [cbn [length]; now f_equal|now constructor].
  - intros HL Hne. rewrite compute_m_vs_h_nb_unfold.
    destruct hs as [|h hs]; [congruence|]. cbn [measure_each].
    unfold measure_magnetization_nb at 1.
    rewrite (bind_Err _ _ _ ValueError); [reflexivity|].
    now apply init_lattice_nb_negative.
Qed.

End FieldScan.

Section HistogramBins.
Context {F : Float64} {G : Generator} {FL : Float64Laws F}.

Ltac step_with H := rewrite (bind_OK _ _ _ _ _ H); cbv beta.

#[local] Instance rnd_Proper_window : Proper (Qeq ==> Qeq) rnd.
Proof. intros x y E. now apply rnd_proper. Qed.

(** ** The histogram bin as a function of the magnetization *)

Lemma py_int_proper x y : (x == y)%Q -> py_int x = py_int y.
Proof.
  intros E. unfold py_int.
  assert (Hb : Qle_bool 0 x = Qle_bool 0 y).
  { destruct (Qle_bool 0 x) eqn:Ex, (Qle_bool 0 y) eqn:Ey; try reflexivity.
    - apply Qle_bool_iff in Ex. rewrite E in Ex. apply Qle_bool_iff in Ex. congruence.
    - apply Qle_bool_iff in Ey. rewrite <- E in Ey. apply Qle_bool_iff in Ey. congruence. }
  rewrite Hb. destruct (Qle_bool 0 y).
  - now apply Qfloor_comp.
  - now apply Qceiling_comp.
Qed.

Lemma py_int_Z z : py_int (inject_Z z) = z.
Proof.
  unfold py_int. destruct (Qle_bool 0 (inject_Z z)).
  - apply Qfloor_Z.
  - apply Qceiling_Z.
Qed.

Lemma py_int_mono x y : (x <= y)%Q -> py_int x <= py_int y.
Proof.
  intros H. unfold py_int.
  destruct (Qle_bool 0 x) eqn:Ex, (Qle_bool 0 y) eqn:Ey.
  - now apply Qfloor_resp_le.
  - apply Qle_bool_iff in Ex.
    assert (Hy : (0 <= y)%Q) by (now apply Qle_trans with x).
    apply Qle_bool_iff in Hy. congruence.
  - apply Qle_bool_iff in Ey.
    assert (Hx : (x <= 0)%Q).
    { apply Qnot_lt_le. intros Hlt. apply Qlt_le_weak in Hlt.
      apply Qle_bool_iff in Hlt. congruence. }
    apply Z.le_trans with 0.
    + rewrite <- (Qceiling_Z 0). now apply Qceiling_resp_le.
    + rewrite <- (Qfloor_Z 0). now apply Qfloor_resp_le.
  - now apply Qceiling_resp_le.
Qed.

Lemma bin_of_mono L bins Mgrid M1 M2 :
  1 <= L -> 2 * (L * L) <= 2 ^ 53 -> 2 <= bins <= 2 ^ 53 ->
  (nth 0 Mgrid 0 == inject_Z (- (L * L)))%Q ->
  (List.last Mgrid 0 == inject_Z (L * L))%Q ->
  M1 <= M2 -> bin_of Mgrid bins M1 <= bin_of Mgrid bins M2.
Proof.
  intros HL Hb Hbins Hg0 Hg1 HM. unfold bin_of.
  assert (Hden : (fsub (List.last Mgrid 0) (nth 0 Mgrid 0) == inject_Z (2 * (L * L)))%Q).
  { replace (2 * (L * L)) with (L * L - - (L * L)) by lia.
    apply fsub_Z; [nia | exact Hg1 | exact Hg0]. }
  assert (Hbm : (of_Z (bins - 1) == inject_Z (bins - 1))%Q) by (apply of_Z_exact; lia).
  assert (Hpos : (0 < inject_Z (2 * (L * L)))%Q).
  { change 0%Q with (inject_Z 0). rewrite <- Zlt_Qlt. nia. }
  assert (Hb1 : (0 <= inject_Z (bins - 1))%Q).
  { change 0%Q with (inject_Z 0). rewrite <- Zle_Qle. lia. }
  apply py_int_mono. unfold fmul. apply rnd_mono. rewrite Hbm.
  apply Qmult_le_compat_r; [|exact Hb1].
  unfold fdiv. apply rnd_mono. rewrite Hden.
  unfold Qdiv. apply Qmult_le_compat_r.
  - unfold fsub. apply rnd_mono.
    apply Qplus_le_compat; [|apply Qle_refl].
    unfold of_Z. apply rnd_mono. now rewrite <- Zle_Qle.
  - apply Qlt_le_weak. now apply Qinv_lt_0_compat.
Qed.

Lemma bin_of_ends L bins Mgrid :
  1 <= L -> 2 * (L * L) <= 2 ^ 53 -> 2 <= bins <= 2 ^ 53 ->
  (nth 0 Mgrid 0 == inject_Z (- (L * L)))%Q ->
  (List.last Mgrid 0 == inject_Z (L * L))%Q ->
  bin_of Mgrid bins (- (L * L)) = 0 /\ bin_of Mgrid bins (L * L) = bins - 1.
Proof.
  intros HL Hb Hbins Hg0 Hg1. unfold bin_of.
  assert (Hden : (fsub (List.last Mgrid 0) (nth 0 Mgrid 0) == inject_Z (2 * (L * L)))%Q).
  { replace (2 * (L * L)) with (L * L - - (L * L)) by lia.
    apply fsub_Z; [nia | exact Hg1 | exact Hg0]. }
  assert (Hbm : (of_Z (bins - 1) == inject_Z (bins - 1))%Q) by (apply of_Z_exact; lia).
  assert (Hnz : ~ (inject_Z (2 * (L * L)) == 0)%Q) by (apply inject_Z_nonzero; nia).
  split.
  - assert (Hnum : (fsub (of_Z (- (L * L))) (nth 0 Mgrid 0) == inject_Z 0)%Q).
    { replace 0 with (- (L * L) - - (L * L)) at 2 by lia.
      apply fsub_Z; [nia | apply of_Z_exact; nia | exact Hg0]. }
    transitivity (py_int (inject_Z 0)); [|apply py_int_Z]. apply py_int_proper.
    unfold fmul, fdiv. rewrite Hnum, Hden, Hbm.
    apply (rnd_Z 0); [cbn; lia|].
    assert (E : (rnd (inject_Z 0 / inject_Z (2 * (L * L))) == 0)%Q).
    { apply (rnd_Z 0); [cbn; lia|]. unfold Qdiv. ring. }
    rewrite E. ring.
  - assert (Hnum : (fsub (of_Z (L * L)) (nth 0 Mgrid 0) == inject_Z (2 * (L * L)))%Q).
    { replace (2 * (L * L)) with (L * L - - (L * L)) by lia.
      apply fsub_Z; [nia | apply of_Z_exact; nia | exact Hg0]. }
    transitivity (py_int (inject_Z (bins - 1))); [|apply py_int_Z].
    apply py_int_proper.
    unfold fmul. rewrite Hbm.
    apply (rnd_Z (bins - 1)); [lia|].
    rewrite fdiv_same.
    + ring.
    + now rewrite Hnum, Hden.
    + now rewrite Hden.
Qed.

(** X11.  On the grid that [run_window_us] builds (line 429), the bin of
    line 449 does not decrease when the magnetization grows, the lowest
    magnetization [-L^2] falls into bin 0 and the highest, [L^2], into the
    last bin [bins - 1]. *)
Theorem hist_index_monotone L bins w :
  1 <= L -> 2 * (L * L) <= 2 ^ 53 -> 2 <= bins <= 2 ^ 53 ->
  exists Mgrid,
    np_linspace (- L * L) (L * L) bins w = OK (Mgrid, w) /\
    hist_index (- (L * L)) Mgrid bins w = OK (0, w) /\
    hist_index (L * L) Mgrid bins w = OK (bins - 1, w) /\
    forall M1 M2, - (L * L) <= M1 -> M1 <= M2 -> M2 <= L * L ->
      exists b1 b2,
        hist_index M1 Mgrid bins w = OK (b1, w) /\
        hist_index M2 Mgrid bins w = OK (b2, w) /\
        b1 <= b2.
Proof.
  intros HL Hb Hbins.
  destruct (np_linspace_grid L bins w HL Hb ltac:(lia)) as (Mgrid & Hgrid & Hlen & Hg0 & Hg1).
  assert (Hrun : forall M_, - (L * L) <= M_ <= L * L ->
            hist_index M_ Mgrid bins w = OK (bin_of Mgrid bins M_, w)).
  { intros M_ HM.
    now apply (hist_index_run L bins M_ Mgrid w HL Hb Hbins HM ltac:(lia) Hg0 Hg1). }
  destruct (bin_of_ends L bins Mgrid HL Hb Hbins Hg0 Hg1) as [E0 E1].
  exists Mgrid. split; [exact Hgrid|].
  split; [rewrite Hrun by nia; now rewrite E0|].
  split; [rewrite Hrun by nia; now rewrite E1|].
  intros M1 M2 H1 H12 H2. eexists _, _.
  split; [apply Hrun; lia|]. split; [apply Hrun; lia|].
  now apply (bin_of_mono L).
Qed.

End HistogramBins.

Section WindowArrays.
Context {F : Float64} {G : Generator}.

Ltac step_with H := rewrite (bind_OK _ _ _ _ _ H); cbv beta.

(** ** Where [run_window_us] fails *)

Lemma lat_sum_run w : lat_sum w = OK (total_sum (w_lat w), w).
Proof. reflexivity. Qed.

Lemma np_randint_empty_range lo hi w : hi <= lo -> np_randint lo hi w = Err ValueError.
Proof.
  intros H. unfold np_randint. destruct (Z.ltb_spec lo hi); [lia|reflexivity].
Qed.

Lemma us_trial_no_sites beta J k_bias M0 M_ w :
  us_trial 0 beta J k_bias M0 M_ w = Err ValueError.
Proof. unfold us_trial. apply bind_Err. now apply np_randint_empty_range. Qed.

Lemma np_linspace_frame start stop num Mgrid w w' :
  np_linspace start stop num w = OK (Mgrid, w') ->
  w' = w /\ 0 <= num /\ length Mgrid = Z.to_nat num /\
  forall w0, np_linspace start stop num w0 = OK (Mgrid, w0).
Proof.
  unfold np_linspace. destruct (Z.ltb_spec num 0); [discriminate|].
  unfold ret. intros E. injection E as <- <-.
  split; [reflexivity|]. split; [lia|]. split; [|reflexivity].
  destruct (1 <? num); rewrite ?length_insert, length_map, length_seq; reflexivity.
Qed.

Lemma np_zeros_frame n a w w' :
  np_zeros n w = OK (a, w') -> w' = w /\ 0 <= n /\ a = replicate (Z.to_nat n) 0%Q.
Proof.
  unfold np_zeros. destruct (Z.ltb_spec n 0); [discriminate|].
  unfold ret. intros E. injection E as <- <-. repeat split. lia.
Qed.

(** X12.  Where [run_window_us] fails for a [T] that is not zero: [L < 0]
    and [bins < 0] raise [ValueError] (the allocations of lines 426 and
    428); an empty lattice ([L = 0]) raises [ValueError] at the first trial
    of either loop, where [randint(0, 0)] has nothing to draw from; and
    [bins = 0] with [n_steps >= 1] raises [IndexError] at the first histogram
    update, which reads [Mgrid[0]] of an empty grid. *)
Theorem run_window_us_errors
        {GL : GeneratorLaws G} L T J k_bias M0 n_eq n_steps bins w :
  (~ (T == 0)%Q -> L < 0 ->
   run_window_us L T J k_bias M0 n_eq n_steps bins w = Err ValueError) /\
  (~ (T == 0)%Q -> 0 <= L -> bins < 0 ->
   run_window_us L T J k_bias M0 n_eq n_steps bins w = Err ValueError) /\
  (~ (T == 0)%Q -> L = 0 -> 0 <= bins -> 1 <= n_eq \/ 1 <= n_steps ->
   run_window_us L T J k_bias M0 n_eq n_steps bins w = Err ValueError) /\
  (~ (T == 0)%Q -> 1 <= L -> bins = 0 -> 1 <= n_steps ->
   run_window_us L T J k_bias M0 n_eq n_steps bins w = Err IndexError).
Proof.
  split; [|split; [|split]].
  - intros HT HL. unfold run_window_us, us_locals, us_setup.
    do 2 apply bind_Err. step_with (py_div_run 1 T w HT).
    apply bind_Err. now apply init_lattice_nb_negative.
  - intros HT HL Hb. unfold run_window_us, us_locals, us_setup.
    do 2 apply bind_Err. step_with (py_div_run 1 T w HT).
    destruct (init_lattice_nb_run L w HL) as ([] & w1 & H1 & Hw1).
    step_with H1. step_with (lat_sum_run w1).
    apply bind_Err. unfold np_zeros.
    destruct (Z.ltb_spec bins 0); [reflexivity|lia].
  - intros HT HL Hb Hn. subst L. unfold run_window_us, us_locals.
    apply bind_Err.
    destruct (init_lattice_nb_run 0 w ltac:(lia)) as ([] & w1 & H1 & Hw1).
    destruct (np_linspace_total (- 0 * 0) (0 * 0) bins w1 Hb) as (Mgrid & Hgrid).
    destruct (Z_le_dec 1 n_eq) as [Heq|Heq].
    + apply bind_Err. unfold us_setup.
      step_with (py_div_run 1 T w HT). step_with H1. step_with (lat_sum_run w1).
      step_with (np_zeros_run bins w1 Hb). step_with Hgrid.
      apply bind_Err. apply for_range_first_Err; [exact Heq|].
      apply us_trial_no_sites.
    + assert (Hset : us_setup 0 T J k_bias M0 n_eq bins w
               = OK ((fdiv 1 T, total_sum (w_lat w1),
                      replicate (Z.to_nat bins) 0%Q, Mgrid), w1)).
      { unfold us_setup.
        step_with (py_div_run 1 T w HT). step_with H1. step_with (lat_sum_run w1).
        step_with (np_zeros_run bins w1 Hb). step_with Hgrid.
        now rewrite (bind_OK _ _ _ _ _ (for_range_nonpos _ n_eq _ w1 ltac:(lia))). }
      step_with Hset. cbv beta iota zeta.
      apply bind_Err. apply for_range_first_Err; [lia|].
      unfold us_measure. apply bind_Err. apply us_trial_no_sites.
  - intros HT HL Hb Hn. subst bins. unfold run_window_us, us_locals.
    apply bind_Err.
    destruct (us_setup_total L T J k_bias M0 n_eq 0 w HL HT ltac:(lia))
      as (M1 & Mgrid & w1 & Hgrid & Hset & Hw1).
    step_with Hset. cbv beta iota zeta.
    apply bind_Err. apply for_range_first_Err; [exact Hn|].
    unfold us_measure. cbn [fst snd].
    destruct (us_trial_run L (fdiv 1 T) J k_bias M0 M1 w1 Hw1 ltac:(lia))
      as (M' & w2 & Htrial & _).
    step_with Htrial. apply bind_Err.
    destruct (np_linspace_frame _ _ _ _ _ _ (Hgrid w1)) as (_ & _ & Hlen & _).
    destruct Mgrid; [|discriminate Hlen].
    reflexivity.
Qed.

(** ** The arrays that [run_window_us] returns *)

Lemma for_loop_OK_inv {A} (inv : A -> Prop) (body : Z -> A -> M A) n :
  (forall k a w a' w', body k a w = OK (a', w') -> inv a -> inv a') ->
  forall i a w a' w',
    for_loop n i body a w = OK (a', w') -> inv a -> inv a'.
Proof.
  intros Hbody. induction n as [|n IH]; intros i a w a' w' H Ha; cbn [for_loop] in H.
  - unfold ret in H. now injection H as <- <-.
  - apply bind_inv in H as (a1 & w1 & H1 & H2).
    apply (IH _ _ _ _ _ H2). now apply (Hbody _ _ _ _ _ H1).
Qed.

Lemma arr_iadd_length (a : list Q) i x a' w w' :
  arr_iadd a i x w = OK (a', w') -> length a' = length a.
Proof.
  unfold arr_iadd. intros H. apply bind_inv in H as (y & w1 & _ & H).
  unfold arr_set in H. destruct (norm_index (length a) i); [|discriminate].
  unfold ret in H. injection H as <- <-. apply length_insert.
Qed.

Lemma run_window_us_shape L T J k_bias M0 n_eq n_steps bins w hist Mgrid w' :
  run_window_us L T J k_bias M0 n_eq n_steps bins w = OK ((hist, Mgrid), w') ->
  0 <= bins /\ length hist = Z.to_nat bins /\ length Mgrid = Z.to_nat bins /\
  forall w0, np_linspace (- L * L) (L * L) bins w0 = OK (Mgrid, w0).
Proof.
  unfold run_window_us. intros H.
  apply bind_inv in H as (loc & w1 & Hloc & Hret).
  unfold ret in Hret. injection Hret as <- <- <-.
  unfold us_locals in Hloc.
  apply bind_inv in Hloc as ([[[beta M1] hist0] Mgrid0] & w2 & Hset & Hloop).
  apply bind_inv in Hloop as (st & w3 & Hloop & Hret).
  unfold ret in Hret. injection Hret as <- <-. cbn [fst snd].
  unfold us_setup in Hset.
  apply bind_inv in Hset as (beta' & u1 & _ & Hset).
  apply bind_inv in Hset as ([] & u2 & _ & Hset).
  apply bind_inv in Hset as (Mi & u3 & _ & Hset).
  apply bind_inv in Hset as (h0 & u4 & Hz & Hset).
  apply bind_inv in Hset as (g0 & u5 & Hg & Hset).
  apply bind_inv in Hset as (M1' & u6 & _ & Hret).
  unfold ret in Hret. injection Hret as <- <- <- <- <-.
  apply np_zeros_frame in Hz as (_ & Hb & ->).
  apply np_linspace_frame in Hg as (_ & _ & Hlen & Hgrid).
  split; [exact Hb|]. split; [|split; [exact Hlen|exact Hgrid]].
  unfold for_range in Hloop.
  eapply (for_loop_OK_inv (fun st : Z * list Q => length (snd st) = Z.to_nat bins));
    [|exact Hloop|apply length_replicate].
  intros k a u a' u' Hbody Ha. unfold us_measure in Hbody.
  apply bind_inv in Hbody as (M' & v1 & _ & Hbody).
  apply bind_inv in Hbody as (idx & v2 & _ & Hbody).
  apply bind_inv in Hbody as (hist' & v3 & Hadd & Hret).
  unfold ret in Hret. injection Hret as <- <-. cbn [snd].
  now rewrite (arr_iadd_length _ _ _ _ _ _ Hadd).
Qed.

End WindowArrays.

Section Correlations.
Context {F : Float64} {G : Generator} {FL : Float64Laws F}.

Ltac step_with H := rewrite (bind_OK _ _ _ _ _ H); cbv beta.

Ltac step_div :=
  match goal with
  | |- context [bind (py_div_Z ?x ?n) _ ?w] =>
      let H := fresh in
      assert (H : py_div_Z x n w = OK (fdiv x (of_Z n), w))
        by (apply py_div_Z_run; nia);
      step_with H; clear H
  end.

#[local] Instance rnd_Proper_corr : Proper (Qeq ==> Qeq) rnd.
Proof. intros x y E. now apply rnd_proper. Qed.

(** ** The sums of the correlation functions *)

(** X13.  The double loop of lines 185-188 of
    [measure_spin_stats_explicit_nb] adds up the whole lattice: on an [L] by
    [L] lattice of spins it returns what [lattice.sum()] returns, the
    quantity the other measurement functions use, and changes nothing. *)
Theorem total_spin_loop_is_sum L w :
  wf_lattice L (w_lat w) -> total_spin_loop L w = lat_sum w.
Proof. intros Hwf. now rewrite (total_spin_loop_run L w Hwf). Qed.

(** ** The accumulators of the correlation functions *)

Lemma fadd_sym_bound t x y :
  0 <= t -> t + 1 <= 2 ^ 53 ->
  (inject_Z (- t) <= x <= inject_Z t)%Q -> (-1 <= y <= 1)%Q ->
  (inject_Z (- (t + 1)) <= fadd x y <= inject_Z (t + 1))%Q.
Proof.
  intros Ht Hb [Hlo Hhi] [Hy0 Hy1]. unfold fadd. split.
  - apply rnd_ge_Z; [lia|].
    rewrite inject_Z_opp, inject_Z_plus. rewrite inject_Z_opp in Hlo.
    change (inject_Z 1) with 1%Q. lra.
  - apply rnd_le_Z; [lia|]. rewrite inject_Z_plus.
    change (inject_Z 1) with 1%Q. lra.
Qed.

Lemma instant_magnetization_bound L lat :
  wf_lattice L lat -> 1 <= L -> L * L <= 2 ^ 53 ->
  (-1 <= fdiv (of_Z (total_sum lat)) (of_Z (L * L)) <= 1)%Q.
Proof.
  intros Hwf HL Hb. pose proof (wf_lattice_bound L lat Hwf) as Hs.
  apply fdiv_sym_unit; [nia|]. rewrite of_Z_exact by lia.
  split; rewrite <- Zle_Qle; lia.
Qed.

Lemma square_unit m : (-1 <= m <= 1)%Q -> (0 <= m * m <= 1)%Q.
Proof.
  intros [H0 H1]. split.
  - destruct (Qlt_le_dec m 0) as [Hneg|Hpos].
    + assert (E : (m * m == (- m) * (- m))%Q) by ring.
      rewrite E. apply Qmult_le_0_compat; lra.
    + now apply Qmult_le_0_compat.
  - assert (H : (0 <= (1 - m) * (1 + m))%Q) by (apply Qmult_le_0_compat; lra).
    assert (E : ((1 - m) * (1 + m) == 1 - m * m)%Q) by ring.
    rewrite E in H. lra.
Qed.

Lemma connected_at_zero_unit m c0 :
  (-1 <= m <= 1)%Q -> (c0 == fsub 1 (fmul m m))%Q -> (0 <= c0 <= 1)%Q.
Proof.
  intros Hm ->. unfold fsub, fmul.
  destruct (rnd_unit (m * m) (square_unit m Hm)) as [H0 H1].
  apply rnd_unit. lra.
Qed.

Lemma spin_stats_step_bound {GL : GeneratorLaws G} L max_r beta J h sum_m sp ss t w :
  wf_lattice L (w_lat w) -> 1 <= L -> L * L <= 2 ^ 53 -> 0 <= max_r ->
  0 <= t -> t + 1 <= 2 ^ 53 ->
  Z.of_nat (length sp) = max_r + 1 -> Z.of_nat (length ss) = max_r + 1 ->
  (inject_Z (- t) <= sum_m <= inject_Z t)%Q ->
  returns (spin_stats_step L (L * L) max_r beta J h (sum_m, sp, ss)) w
    (fun acc w' =>
       wf_lattice L (w_lat w') /\
       Z.of_nat (length (snd (fst acc))) = max_r + 1 /\
       Z.of_nat (length (snd acc)) = max_r + 1 /\
       (inject_Z (- (t + 1)) <= fst (fst acc) <= inject_Z (t + 1))%Q).
Proof.
  intros Hwf HL Hb Hmax Ht Htb Hlsp Hlss Hsum.
  unfold spin_stats_step, returns.
  destruct (metropolis_step_nb_run L beta J h w Hwf) as (w1 & Hsweep & _ & Hwf1).
  step_with Hsweep. step_with (total_spin_loop_run L w1 Hwf1).
  step_div.
  destruct (returns_for_range
    (fun (_ : Z) (arrs : list Q * list Q) w' =>
       w' = w1 /\
       Z.of_nat (length (fst arrs)) = max_r + 1 /\
       Z.of_nat (length (snd arrs)) = max_r + 1)
    (fun r (arrs : list Q * list Q) =>
       bind (pair_shift_loop L r) (fun ps =>
       bind (py_div_Z (fst ps) (L * L)) (fun p =>
       bind (arr_iadd (fst arrs) r p) (fun sum_pair =>
       bind (py_div_Z (snd ps) (L * L)) (fun q =>
       bind (arr_iadd (snd arrs) r q) (fun sum_shift =>
       ret (sum_pair, sum_shift)))))))
    (max_r + 1) (sp, ss) w1 ltac:(lia))
    as ([sp' ss'] & w2 & Hloop & -> & Hl1 & Hl2).
  - cbn [fst snd]. now split.
  - intros r [sp1 ss1] w2 Hr (-> & Hl1 & Hl2). cbn [fst snd] in *.
    destruct (pair_shift_loop_run L r w1 Hwf1 Hb) as (ps & Hps & _).
    unfold returns. step_with Hps. step_div.
    destruct (arr_iadd_in_range sp1 r (fdiv (fst ps) (of_Z (L * L))) w1 ltac:(lia))
      as (y1 & Hy1 & Hadd1).
    step_with Hadd1. step_div.
    destruct (arr_iadd_in_range ss1 r (fdiv (snd ps) (of_Z (L * L))) w1 ltac:(lia))
      as (y2 & Hy2 & Hadd2).
    step_with Hadd2.
    eexists _, _. split; [reflexivity|]. cbn [fst snd].
    rewrite !length_insert. now split.
  - step_with Hloop. eexists _, _. split; [reflexivity|]. cbn [fst snd].
    split; [exact Hwf1|]. split; [exact Hl1|]. split; [exact Hl2|].
    apply fadd_sym_bound; try assumption.
    now apply (instant_magnetization_bound L).
Qed.

Lemma measure_spin_stats_bound {GL : GeneratorLaws G} L T h n_eq n_steps J w :
  1 <= L -> L * L <= 2 ^ 53 -> ~ (T == 0)%Q -> 0 < n_steps <= 2 ^ 53 ->
  returns (measure_spin_stats_explicit_nb L T h n_eq n_steps J) w
    (fun r w' => (-1 <= fst r <= 1)%Q /\ Z.of_nat (length (snd r)) = L / 2 + 1 /\
                 wf_lattice L (w_lat w')).
Proof.
  intros HL Hb HT Hn. unfold measure_spin_stats_explicit_nb, returns.
  destruct (init_lattice_nb_run L w ltac:(lia)) as ([] & w1 & Hinit & Hwf1).
  step_with Hinit. step_with (py_div_run 1 T w1 HT). cbv zeta.
  destruct (sweeps_run L (fdiv 1 T) J h n_eq w1 Hwf1) as ([] & w2 & Heq & Hwf2).
  step_with Heq.
  assert (Hmax : 0 <= L / 2) by (apply Z.div_pos; lia).
  step_with (np_zeros_run (L / 2 + 1) w2 ltac:(lia)).
  step_with (np_zeros_run (L / 2 + 1) w2 ltac:(lia)).
  set (zs := replicate (Z.to_nat (L / 2 + 1)) 0%Q).
  assert (Hzl : Z.of_nat (length zs) = L / 2 + 1)
    by (unfold zs; rewrite length_replicate; lia).
  destruct (returns_for_range
    (fun t (acc : Q * list Q * list Q) w' =>
       wf_lattice L (w_lat w') /\
       Z.of_nat (length (snd (fst acc))) = L / 2 + 1 /\
       Z.of_nat (length (snd acc)) = L / 2 + 1 /\
       (inject_Z (- t) <= fst (fst acc) <= inject_Z t)%Q)
    (fun _ acc => spin_stats_step L (L * L) (L / 2) (fdiv 1 T) J h acc)
    n_steps (0%Q, zs, zs) w2 ltac:(lia))
    as ([[sum_m sp] ss] & w3 & Hloop & Hwf3 & Hlsp & Hlss & Hsum).
  - cbn [fst snd]. split; [exact Hwf2|]. split; [exact Hzl|]. split; [exact Hzl|].
    cbn. split; apply Qle_refl.
  - intros t [[sum_m sp] ss] w' Ht (Hwf' & Hl1 & Hl2 & Hs). cbn [fst snd] in *.
    apply spin_stats_step_bound; auto; lia.
  - cbn [fst snd] in *. step_with Hloop. cbv iota beta.
    step_div. step_with (np_zeros_run (L / 2 + 1) w3 ltac:(lia)). fold zs.
    set (m_avg := fdiv sum_m (of_Z n_steps)).
    destruct (returns_for_range
      (fun (_ : Z) (corr : list Q) w' =>
         w' = w3 /\ Z.of_nat (length corr) = L / 2 + 1)
      (fun r corr =>
         bind (arr_get sp r) (fun sp_r =>
         bind (py_div_Z sp_r n_steps) (fun avg_ss =>
         bind (arr_get ss r) (fun ss_r =>
         bind (py_div_Z ss_r n_steps) (fun avg_sj =>
         arr_set corr r (fsub avg_ss (fmul m_avg avg_sj)))))))
      (L / 2 + 1) zs w3 ltac:(lia))
      as (corr & w4 & Hcorr & -> & Hlc).
    + now split.
    + intros r corr w' Hr (-> & Hlc).
      destruct (arr_get_in_range sp r w3 ltac:(lia)) as (a & Ha & Hga).
      destruct (arr_get_in_range ss r w3 ltac:(lia)) as (b & Hb' & Hgb).
      unfold returns. step_with Hga. step_div. step_with Hgb. step_div.
      rewrite arr_set_in_range by lia.
      eexists _, _. split; [reflexivity|]. split; [reflexivity|].
      now rewrite length_insert.
    + step_with Hcorr. eexists _, _. split; [reflexivity|]. cbn [fst snd].
      split; [|split; [exact Hlc|exact Hwf3]].
      apply fdiv_sym_unit; [lia|exact Hsum].
Qed.

Lemma column_step_bound {GL : GeneratorLaws G} L max_r col_idx beta J sum_m cs t w :
  wf_lattice L (w_lat w) -> 1 <= L -> L * L <= 2 ^ 53 -> 0 <= col_idx < L ->
  0 <= max_r -> 0 <= t -> t + 1 <= 2 ^ 53 ->
  Z.of_nat (length cs) = max_r + 1 ->
  (inject_Z (- t) <= sum_m <= inject_Z t)%Q ->
  returns (column_step L (L * L) max_r col_idx beta J (sum_m, cs)) w
    (fun acc w' =>
       wf_lattice L (w_lat w') /\
       Z.of_nat (length (snd acc)) = max_r + 1 /\
       (inject_Z (- (t + 1)) <= fst acc <= inject_Z (t + 1))%Q).
Proof.
  intros Hwf HL Hb Hcol Hmax Ht Htb Hlcs Hsum.
  unfold column_step, returns.
  destruct (metropolis_step_nb_run L beta J 0 w Hwf) as (w1 & Hsweep & _ & Hwf1).
  step_with Hsweep. step_with (lat_sum_run w1). step_div.
  assert (HLb : L <= 2 ^ 53) by nia.
  cbn [fst snd].
  destruct (returns_for_range
    (fun (_ : Z) (cs' : list Q) w' =>
       w' = w1 /\ Z.of_nat (length cs') = max_r + 1)
    (fun r corr_sum =>
       bind (column_pair_loop L col_idx r) (fun c =>
       bind (py_div_Z c L) (fun q => arr_iadd corr_sum r q)))
    (max_r + 1) cs w1 ltac:(lia))
    as (cs' & w2 & Hloop & -> & Hl).
  - now split.
  - intros r cs1 w2 Hr (-> & Hl1).
    destruct (column_pair_loop_run L col_idx r w1 Hwf1 HLb Hcol) as (c & Hc & _).
    unfold returns. step_with Hc. step_div.
    destruct (arr_iadd_in_range cs1 r (fdiv c (of_Z L)) w1 ltac:(lia))
      as (y1 & Hy1 & Hadd1).
    rewrite Hadd1. eexists _, _. split; [reflexivity|]. split; [reflexivity|].
    now rewrite length_insert.
  - step_with Hloop. eexists _, _. split; [reflexivity|]. cbn [fst snd].
    split; [exact Hwf1|]. split; [exact Hl|].
    apply fadd_sym_bound; try assumption.
    now apply (instant_magnetization_bound L).
Qed.

Lemma measure_column_correlation_bound
      {GL : GeneratorLaws G} L T col_idx n_eq n_steps J w :
  1 <= L -> L * L <= 2 ^ 53 -> ~ (T == 0)%Q -> 0 < n_steps <= 2 ^ 53 ->
  0 <= col_idx < L ->
  returns (measure_column_correlation_nb L T col_idx n_eq n_steps J) w
    (fun r w' => (-1 <= fst r <= 1)%Q /\ Z.of_nat (length (snd r)) = L / 2 + 1 /\
                 wf_lattice L (w_lat w')).
Proof.
  intros HL Hb HT Hn Hcol. unfold measure_column_correlation_nb, returns.
  destruct (init_lattice_nb_run L w ltac:(lia)) as ([] & w1 & Hinit & Hwf1).
  step_with Hinit. step_with (py_div_run 1 T w1 HT). cbv zeta.
  destruct (sweeps_run L (fdiv 1 T) J 0 n_eq w1 Hwf1) as ([] & w2 & Heq & Hwf2).
  step_with Heq.
  assert (Hmax : 0 <= L / 2) by (apply Z.div_pos; lia).
  step_with (np_zeros_run (L / 2 + 1) w2 ltac:(lia)).
  set (zs := replicate (Z.to_nat (L / 2 + 1)) 0%Q).
  assert (Hzl : Z.of_nat (length zs) = L / 2 + 1)
    by (unfold zs; rewrite length_replicate; lia).
  destruct (returns_for_range
    (fun t (acc : Q * list Q) w' =>
       wf_lattice L (w_lat w') /\
       Z.of_nat (length (snd acc)) = L / 2 + 1 /\
       (inject_Z (- t) <= fst acc <= inject_Z t)%Q)
    (fun _ acc => column_step L (L * L) (L / 2) col_idx (fdiv 1 T) J acc)
    n_steps (0%Q, zs) w2 ltac:(lia))
    as ([sum_m cs] & w3 & Hloop & Hwf3 & Hlcs & Hsum).
  - cbn [fst snd]. split; [exact Hwf2|]. split; [exact Hzl|].
    cbn. split; apply Qle_refl.
  - intros t [sum_m cs] w' Ht (Hwf' & Hl1 & Hs). cbn [fst snd] in *.
    apply column_step_bound; auto; lia.
  - cbn [fst snd] in *. step_with Hloop. cbn [fst snd]. step_div.
    eexists _, _. split; [reflexivity|]. cbn [fst snd].
    split; [|split; [now rewrite length_map|exact Hwf3]].
    apply fdiv_sym_unit; [lia|exact Hsum].
Qed.

(** X14.  For [n_steps > 0] both correlation functions return a mean
    magnetization in [-1, 1] and a correlation array with [L // 2 + 1]
    entries, one per separation from 0 to [L // 2], whose entry at
    separation 0 lies in [0, 1]. *)
Theorem correlation_results_range
        {GL : GeneratorLaws G} L T h col_idx n_eq n_steps J w :
  1 <= L -> L * L <= 2 ^ 53 -> ~ (T == 0)%Q -> 0 < n_steps <= 2 ^ 53 ->
  0 <= col_idx < L ->
  returns (measure_spin_stats_explicit_nb L T h n_eq n_steps J) w
    (fun r _ => (-1 <= fst r <= 1)%Q /\ Z.of_nat (length (snd r)) = L / 2 + 1 /\
                exists c0, snd r !! 0%nat = Some c0 /\ (0 <= c0 <= 1)%Q) /\
  returns (measure_column_correlation_nb L T col_idx n_eq n_steps J) w
    (fun r _ => (-1 <= fst r <= 1)%Q /\ Z.of_nat (length (snd r)) = L / 2 + 1 /\
                exists c0, snd r !! 0%nat = Some c0 /\ (0 <= c0 <= 1)%Q).
Proof.
  intros HL Hb HT Hn Hcol. split.
  - destruct (measure_spin_stats_bound L T h n_eq n_steps J w HL Hb HT Hn)
      as ([m corr] & w' & Hrun & Hm & Hlen & _).
    destruct (measure_spin_stats_run L T h n_eq n_steps J w HL Hb HT Hn)
      as (m2 & corr2 & w2 & c0 & Hrun2 & Hc0 & Ec0).
    rewrite Hrun in Hrun2. injection Hrun2 as <- <- <-.
    exists (m, corr), w'. split; [exact Hrun|]. cbn [fst snd] in *.
    split; [exact Hm|]. split; [exact Hlen|].
    exists c0. split; [exact Hc0|]. now apply (connected_at_zero_unit m).
  - destruct (measure_column_correlation_bound L T col_idx n_eq n_steps J w
                HL Hb HT Hn Hcol) as ([m corr] & w' & Hrun & Hm & Hlen & _).
    destruct (measure_column_correlation_run L T col_idx n_eq n_steps J w
                HL Hb HT Hn Hcol) as (m2 & corr2 & w2 & c0 & Hrun2 & Hc0 & Ec0).
    rewrite Hrun in Hrun2. injection Hrun2 as <- <- <-.
    exists (m, corr), w'. split; [exact Hrun|]. cbn [fst snd] in *.
    split; [exact Hm|]. split; [exact Hlen|].
    exists c0. split; [exact Hc0|]. now apply (connected_at_zero_unit m).
Qed.

(** X15.  With [n_steps = 0] both correlation functions raise
    [ZeroDivisionError] at [sum_m / n_steps], after the equilibration sweeps
    have run; a negative [n_steps] is accepted, no measurement is made and
    the result is a zero mean with a correlation array of zeros.  The
    column index is never used in either case. *)
Theorem correlation_degenerate_steps
        {GL : GeneratorLaws G} L T h col_idx n_eq n_steps J w :
  1 <= L -> ~ (T == 0)%Q ->
  (n_steps = 0 ->
   measure_spin_stats_explicit_nb L T h n_eq n_steps J w = Err ZeroDivisionError /\
   measure_column_correlation_nb L T col_idx n_eq n_steps J w = Err ZeroDivisionError) /\
  (n_steps < 0 ->
   returns (measure_spin_stats_explicit_nb L T h n_eq n_steps J) w
     (fun r _ => (fst r == 0)%Q /\ Z.of_nat (length (snd r)) = L / 2 + 1 /\
                 Forall (fun c => (c == 0)%Q) (snd r)) /\
   returns (measure_column_correlation_nb L T col_idx n_eq n_steps J) w
     (fun r _ => (fst r == 0)%Q /\ Z.of_nat (length (snd r)) = L / 2 + 1 /\
                 Forall (fun c => (c == 0)%Q) (snd r))).
Proof.
  intros HL HT.
  assert (Hmax : 0 <= L / 2) by (apply Z.div_pos; lia).
  destruct (init_lattice_nb_run L w ltac:(lia)) as ([] & w1 & Hinit & Hwf1).
  destruct (sweeps_run L (fdiv 1 T) J h n_eq w1 Hwf1) as ([] & w2 & Heq & Hwf2).
  destruct (sweeps_run L (fdiv 1 T) J 0 n_eq w1 Hwf1) as ([] & w2' & Heq' & Hwf2').
  set (zs := replicate (Z.to_nat (L / 2 + 1)) 0%Q).
  assert (Hzl : Z.of_nat (length zs) = L / 2 + 1)
    by (unfold zs; rewrite length_replicate; lia).
  split.
  - intros ->. split.
    + unfold measure_spin_stats_explicit_nb.
      step_with Hinit. step_with (py_div_run 1 T w1 HT). cbv zeta.
      step_with Heq.
      step_with (np_zeros_run (L / 2 + 1) w2 ltac:(lia)).
      step_with (np_zeros_run (L / 2 + 1) w2 ltac:(lia)).
      rewrite (bind_OK _ _ _ _ _ (for_range_nonpos _ 0 _ w2 ltac:(lia))).
      reflexivity.
    + unfold measure_column_correlation_nb.
      step_with Hinit. step_with (py_div_run 1 T w1 HT). cbv zeta.
      step_with Heq'.
      step_with (np_zeros_run (L / 2 + 1) w2' ltac:(lia)).
      rewrite (bind_OK _ _ _ _ _ (for_range_nonpos _ 0 _ w2' ltac:(lia))).
      reflexivity.
  - intros Hn.
    assert (Hzero : forall m, (fsub (fdiv 0 (of_Z n_steps)) (fmul m (fdiv 0 (of_Z n_steps)))
                               == 0)%Q).
    { intros m. unfold fsub, fmul. apply (rnd_Z 0); [cbn; lia|].
      rewrite (fdiv_0 (of_Z n_steps)).
      assert (E : (rnd (m * 0) == 0)%Q) by (apply (rnd_Z 0); [cbn; lia|ring]).
      rewrite E. ring. }
    split.
    + unfold measure_spin_stats_explicit_nb, returns.
      step_with Hinit. step_with (py_div_run 1 T w1 HT). cbv zeta.
      step_with Heq.
      step_with (np_zeros_run (L / 2 + 1) w2 ltac:(lia)).
      step_with (np_zeros_run (L / 2 + 1) w2 ltac:(lia)). fold zs.
      rewrite (bind_OK _ _ _ _ _ (for_range_nonpos _ n_steps _ w2 ltac:(lia))).
      cbv iota beta. step_div.
      step_with (np_zeros_run (L / 2 + 1) w2 ltac:(lia)). fold zs.
      set (m_avg := fdiv 0 (of_Z n_steps)).
      destruct (returns_for_range
        (fun (_ : Z) (corr : list Q) w' =>
           w' = w2 /\ Z.of_nat (length corr) = L / 2 + 1 /\
           Forall (fun c => (c == 0)%Q) corr)
        (fun r corr =>
           bind (arr_get zs r) (fun sp_r =>
           bind (py_div_Z sp_r n_steps) (fun avg_ss =>
           bind (arr_get zs r) (fun ss_r =>
           bind (py_div_Z ss_r n_steps) (fun avg_sj =>
           arr_set corr r (fsub avg_ss (fmul m_avg avg_sj)))))))
        (L / 2 + 1) zs w2 ltac:(lia))
        as (corr & w4 & Hcorr & -> & Hlc & Hall).
      * split; [reflexivity|]. split; [exact Hzl|].
        unfold zs. apply Forall_replicate. reflexivity.
      * intros r corr w' Hr (-> & Hlc & Hall).
        destruct (arr_get_in_range zs r w2 ltac:(lia)) as (a & Ha & Hga).
        assert (a = 0%Q) as ->.
        { unfold zs in Ha. apply lookup_replicate in Ha. now destruct Ha. }
        unfold returns. step_with Hga. step_div. step_with Hga. step_div.
        rewrite arr_set_in_range by lia.
        eexists _, _. split; [reflexivity|]. split; [reflexivity|].
        rewrite length_insert. split; [exact Hlc|].
        apply Forall_insert; [exact Hall|]. apply Hzero.
      * step_with Hcorr. eexists _, _. split; [reflexivity|]. cbn [fst snd].
        split; [apply fdiv_0|]. now split.
    + unfold measure_column_correlation_nb, returns.
      step_with Hinit. step_with (py_div_run 1 T w1 HT). cbv zeta.
      step_with Heq'.
      step_with (np_zeros_run (L / 2 + 1) w2' ltac:(lia)). fold zs.
      rewrite (bind_OK _ _ _ _ _ (for_range_nonpos _ n_steps _ w2' ltac:(lia))).
      cbn [fst snd]. step_div.
      eexists _, _. split; [reflexivity|]. cbn [fst snd].
      split; [apply fdiv_0|]. split; [now rewrite length_map|].
      apply List.Forall_map. unfold zs. apply Forall_replicate.
      unfold fsub, fmul. apply (rnd_Z 0); [cbn; lia|].
      rewrite (fdiv_0 (of_Z n_steps)).
      assert (E : (rnd (0 * 0) == 0)%Q) by (apply (rnd_Z 0); [cbn; lia|ring]).
      rewrite E. ring.
Qed.

End Correlations.

Section SolverArrays.
Context {F : Float64}.

(** ** The arrays that [wham_us] returns *)

Lemma wham_update_length inp f :
  length (fst (wham_update inp f)) = length (wi_Mgrid inp).
Proof.
  unfold wham_update. cbv zeta. cbn [fst].
  now rewrite !length_map, length_seq.
Qed.

Lemma wham_run_P inp : exists f, ws_P (wham_run inp) = fst (wham_update inp f).
Proof.
  unfold wham_run. change 5000%nat with (S 4999).
  destruct (wham_loop_spec inp 4999 (wham_start inp) eq_refl) as (_ & HP & _).
  eexists. exact HP.
Qed.

Lemma wham_us_OK hist_list Mgrid k_bias M0_list beta :
  wham_shapes_ok hist_list Mgrid M0_list ->
  exists inp f,
    wham_prepare hist_list Mgrid k_bias M0_list beta = OK inp /\
    wi_H inp = hist_list /\ wi_Mgrid inp = Mgrid /\
    wham_us hist_list Mgrid k_bias M0_list beta
      = OK (fst (wham_update inp f), wham_F beta (fst (wham_update inp f))).
Proof.
  intros Hok.
  destruct (wham_prepare_ok hist_list Mgrid k_bias M0_list beta Hok)
    as (inp & Hprep & HH & HM & _).
  destruct (wham_run_P inp) as (f & Hf).
  exists inp, f. split; [exact Hprep|]. split; [exact HH|]. split; [exact HM|].
  unfold wham_us. rewrite Hprep. cbv zeta. now rewrite Hf.
Qed.

(** X16.  For histograms, grid and targets of matching shapes [wham_us]
    returns two arrays with one entry per grid point; an empty list of
    histograms, or histograms of different lengths, make [np.vstack] raise
    [ValueError]. *)
Theorem wham_us_shapes hist_list Mgrid k_bias M0_list beta :
  (wham_shapes_ok hist_list Mgrid M0_list ->
   exists P F_,
     wham_us hist_list Mgrid k_bias M0_list beta = OK (P, F_) /\
     length P = length Mgrid /\ length F_ = length Mgrid) /\
  wham_us [] Mgrid k_bias M0_list beta = Err ValueError /\
  (forall h h' rest, In h' rest -> length h' <> length h ->
     wham_us (h :: rest) Mgrid k_bias M0_list beta = Err ValueError).
Proof.
  split; [|split].
  - intros Hok.
    destruct (wham_us_OK hist_list Mgrid k_bias M0_list beta Hok)
      as (inp & f & _ & _ & HM & Hrun).
    eexists _, _. split; [exact Hrun|].
    unfold wham_F. rewrite length_map, wham_update_length, HM. now split.
  - reflexivity.
  - intros h h' rest Hin Hlen. unfold wham_us, wham_prepare.
    destruct (forallb _ rest) eqn:E; [|reflexivity].
    rewrite forallb_forall in E. specialize (E h' Hin).
    apply Nat.eqb_eq in E. contradiction.
Qed.

Context {FL : Float64Laws F}.

(** ** Histograms without samples *)

Lemma zero_or_nan_sign q : (q == 0)%Q -> np_sign (Fin q) = 0.
Proof.
  intros E. unfold np_sign.
  assert (H1 : Qle_bool q 0 = true) by (apply Qle_bool_iff; rewrite E; apply Qle_refl).
  assert (H2 : Qle_bool 0 q = true) by (apply Qle_bool_iff; rewrite E; apply Qle_refl).
  now rewrite H1, H2.
Qed.

Lemma rnd_zero q : (q == 0)%Q -> (rnd q == 0)%Q.
Proof. intros E. apply (rnd_Z 0); [cbn; lia|exact E]. Qed.

Lemma np_add_zero_or_nan a b :
  zero_or_nan a -> zero_or_nan b -> zero_or_nan (np_add a b).
Proof.
  intros [->|(x & -> & Hx)] [->|(y & -> & Hy)]; cbn; try (now left).
  right. eexists. split; [reflexivity|]. apply rnd_zero. rewrite Hx, Hy. ring.
Qed.

Lemma np_mul_zero_or_nan_l a b : zero_or_nan a -> zero_or_nan (np_mul a b).
Proof.
  intros [->|(x & -> & Hx)]; [now left|].
  destruct b as [y| | |]; unfold np_mul.
  - right. eexists. split; [reflexivity|]. apply rnd_zero. rewrite Hx. ring.
  - rewrite (zero_or_nan_sign x Hx). now left.
  - rewrite (zero_or_nan_sign x Hx). now left.
  - now left.
Qed.

Lemma np_mul_zero_or_nan_r a b : zero_or_nan b -> zero_or_nan (np_mul a b).
Proof.
  intros [->|(y & -> & Hy)]; [destruct a; now left|].
  destruct a as [x| | |]; unfold np_mul.
  - right. eexists. split; [reflexivity|]. apply rnd_zero. rewrite Hy. ring.
  - rewrite (zero_or_nan_sign y Hy). now left.
  - rewrite (zero_or_nan_sign y Hy). now left.
  - now left.
Qed.

Lemma np_div_2_zero_or_nan a : zero_or_nan a -> zero_or_nan (np_div a (Fin 2)).
Proof.
  intros [->|(x & -> & Hx)]; [now left|].
  right. cbn. eexists. split; [reflexivity|].
  apply rnd_zero. rewrite Hx. reflexivity.
Qed.

Lemma np_sum_zero_or_nan l : Forall zero_or_nan l -> zero_or_nan (np_sum l).
Proof.
  destruct l as [|x t]; cbn [np_sum].
  - intros _. right. exists 0%Q. split; reflexivity.
  - intros H. apply Forall_cons in H as [Hx Ht].
    revert x Hx. induction Ht as [|y t Hy Ht IH]; intros x Hx; cbn [fold_left].
    + exact Hx.
    + apply IH. now apply np_add_zero_or_nan.
Qed.

Lemma nth_zero_or_nan l j : Forall zero_or_nan l -> zero_or_nan (nth j l NaN).
Proof.
  intros H. revert j. induction H as [|x t Hx Ht IH]; intros [|j]; cbn [nth];
    try (now left); auto.
Qed.

Lemma np_lt_eps_zero_or_nan a : zero_or_nan a -> np_lt wham_eps a = false.
Proof.
  intros [->|(x & -> & Hx)]; [reflexivity|].
  unfold np_lt, wham_eps.
  assert (H : Qle_bool x (1 # 1000000000000000000000000000000) = true).
  { apply Qle_bool_iff. rewrite Hx. discriminate. }
  now rewrite H.
Qed.

Lemma np_div_zero_by_zero_or_nan n : zero_or_nan n -> np_div (Fin 0) n = NaN.
Proof.
  intros [->|(x & -> & Hx)]; [reflexivity|].
  unfold np_div. apply Qeq_bool_iff in Hx. now rewrite Hx.
Qed.

Lemma map_const {A B} (c : B) (l : list A) :
  map (fun _ => c) l = replicate (length l) c.
Proof. induction l as [|x l IH]; cbn; [reflexivity|now rewrite IH]. Qed.

Lemma Forall_map_intro {A B} (P : B -> Prop) (f : A -> B) l :
  (forall x, P (f x)) -> Forall P (map f l).
Proof. intros H. induction l; cbn; constructor; auto. Qed.

Lemma wham_update_empty inp f :
  Forall (Forall (fun x => x = Fin 0)) (wi_H inp) ->
  wi_n_k inp = map np_sum (wi_H inp) ->
  fst (wham_update inp f) = replicate (length (wi_Mgrid inp)) NaN.
Proof.
  intros Hzero Hnk. unfold wham_update. cbv zeta. cbn [fst].
  assert (Hn : Forall zero_or_nan (wi_n_k inp)).
  { rewrite Hnk. clear Hnk. induction Hzero as [|h t Hh Ht IH]; cbn [map]; constructor.
    - apply np_sum_zero_or_nan. eapply Forall_impl; [exact Hh|].
      intros a ->. right. exists 0%Q. split; reflexivity.
    - exact IH. }
  set (terms := map _ (seq 0 (length (wi_n_k inp)))).
  assert (Hterms : Forall (Forall zero_or_nan) terms).
  { unfold terms. apply Forall_map_intro. intros k.
    apply Forall_map_intro. intros v.
    apply np_mul_zero_or_nan_l. now apply nth_zero_or_nan. }
  set (denom := sum_axis0 terms _).
  assert (Hdenom : Forall zero_or_nan denom).
  { unfold denom, sum_axis0. apply Forall_map_intro. intros j.
    apply np_sum_zero_or_nan.
    clear -Hterms. induction Hterms as [|row t Hrow Ht IH]; cbn [map]; constructor.
    - now apply nth_zero_or_nan.
    - exact IH. }
  set (P0 := map _ (seq 0 (length (wi_Mgrid inp)))).
  assert (HP0 : P0 = map (fun _ => Fin 0) (seq 0 (length (wi_Mgrid inp)))).
  { unfold P0. apply map_ext. intros j.
    now rewrite np_lt_eps_zero_or_nan by now apply nth_zero_or_nan. }
  assert (HP0z : Forall zero_or_nan P0).
  { rewrite HP0. apply Forall_map_intro. intros _. right. exists 0%Q. split; reflexivity. }
  assert (Hnorm : zero_or_nan (trapezoid P0 (wi_Mgrid inp))).
  { unfold trapezoid. apply np_sum_zero_or_nan. apply Forall_map_intro. intros i.
    apply np_div_2_zero_or_nan. apply np_mul_zero_or_nan_r.
    apply np_add_zero_or_nan; now apply nth_zero_or_nan. }
  set (norm := trapezoid P0 (wi_Mgrid inp)) in *. clearbody norm.
  rewrite HP0, map_map.
  rewrite (map_ext _ (fun _ => NaN)).
  - now rewrite map_const, length_seq.
  - intros _. now apply np_div_zero_by_zero_or_nan.
Qed.

Lemma wham_F_nan beta n : wham_F beta (replicate n NaN) = replicate n NaN.
Proof.
  unfold wham_F. induction n as [|n IH]; cbn [replicate map]; [reflexivity|].
  now rewrite IH.
Qed.

(** X17.  When no window has recorded a sample (every histogram is all
    zeros) the denominators of line 479 never exceed [eps], the
    unnormalised [P] is zero everywhere, its integral is zero (or NaN, on a
    grid with infinite entries) and the normalisation of line 485 turns
    every entry into NaN: [wham_us] returns [P] and [F] filled with NaN,
    whatever the grid, the targets, [k_bias] and [beta], and raises
    nothing. *)
Theorem wham_us_empty_histograms hist_list Mgrid k_bias M0_list beta :
  wham_shapes_ok hist_list Mgrid M0_list ->
  Forall (Forall (fun x => x = Fin 0)) hist_list ->
  wham_us hist_list Mgrid k_bias M0_list beta
    = OK (replicate (length Mgrid) NaN, replicate (length Mgrid) NaN).
Proof.
  intros Hok Hzero.
  destruct (wham_us_OK hist_list Mgrid k_bias M0_list beta Hok)
    as (inp & f & Hprep & HH & HM & Hrun).
  rewrite Hrun, wham_update_empty, HM, wham_F_nan; [reflexivity|now rewrite HH|].
  unfold wham_prepare in Hprep. destruct hist_list as [|h rest]; [discriminate|].
  destruct (forallb _ rest); [|discriminate].
  injection Hprep as <-. reflexivity.
Qed.

End SolverArrays.

Section Pipeline.
Context {F : Float64} {G : Generator}.

(** X18.  The histograms of any number of windows run with the same [L]
    and [bins] fit the solver: every window returns the same grid, which
    depends on [L] and [bins] only, and a histogram as long as the grid, so
    [wham_us] on the collected histograms, the grid of the last window and
    one target per window raises nothing. *)
Theorem run_window_us_outputs_fit_wham
        L bins (outs : list (list Q * list Q)) (M0s : list Q) k_bias beta :
  outs <> [] -> length M0s = length outs ->
  Forall (fun o => exists T J k M0 n_eq n_steps w w',
                     run_window_us L T J k M0 n_eq n_steps bins w = OK (o, w')) outs ->
  let Mgrid := snd (List.last outs ([], [])) in
  Forall (fun o => snd o = Mgrid /\ length (fst o) = length Mgrid) outs /\
  wham_shapes_ok (map (fun o => map Fin (fst o)) outs) (map Fin Mgrid) (map Fin M0s) /\
  exists P F_,
    wham_us (map (fun o => map Fin (fst o)) outs) (map Fin Mgrid) k_bias
            (map Fin M0s) beta = OK (P, F_) /\
    length P = length Mgrid /\ length F_ = length Mgrid.
Proof.
  intros Hne Hlen Hall Mgrid.
  assert (Hshape : Forall (fun o => length (fst o) = Z.to_nat bins /\
                                    length (snd o) = Z.to_nat bins /\
                                    forall w0, np_linspace (- L * L) (L * L) bins w0
                                               = OK (snd o, w0)) outs).
  { eapply Forall_impl; [exact Hall|].
    intros [hist g] (T & J & k & M0 & n_eq & n_steps & w & w' & Hrun).
    destruct (run_window_us_shape _ _ _ _ _ _ _ _ _ _ _ _ Hrun) as (_ & H1 & H2 & H3).
    cbn [fst snd]. auto. }
  assert (Hlast : length Mgrid = Z.to_nat bins /\
                  forall w0, np_linspace (- L * L) (L * L) bins w0 = OK (Mgrid, w0)).
  { destruct (exists_last Hne) as (l' & a & ->). subst Mgrid.
    rewrite last_last. apply Forall_app in Hshape as [_ Ha].
    apply Forall_cons in Ha as [(_ & H2 & H3) _]. auto. }
  destruct Hlast as [HlenG HG].
  assert (Hw : exists w0 : world, True).
  { destruct outs as [|o outs']; [congruence|].
    apply Forall_cons in Hall as [(T & J & k & M0 & n_eq & n_steps & w & _) _].
    now exists w. }
  destruct Hw as [w0 _].
  assert (Hsame : Forall (fun o => snd o = Mgrid /\ length (fst o) = length Mgrid) outs).
  { eapply Forall_impl; [exact Hshape|].
    intros o (H1 & H2 & H3). split; [|lia].
    specialize (H3 w0). rewrite (HG w0) in H3. now injection H3. }
  assert (Hok : wham_shapes_ok (map (fun o => map Fin (fst o)) outs)
                               (map Fin Mgrid) (map Fin M0s)).
  { split; [|split].
    - destruct outs; [congruence|discriminate].
    - apply List.Forall_map. eapply Forall_impl; [exact Hsame|].
      intros o [_ Ho]. cbv beta. now rewrite !length_map.
    - now rewrite !length_map. }
  split; [exact Hsame|]. split; [exact Hok|].
  destruct (wham_us_OK _ _ k_bias _ beta Hok) as (inp & f & _ & _ & HM & Hrun).
  eexists _, _. split; [exact Hrun|].
  unfold wham_F. rewrite length_map, wham_update_length, HM, length_map. now split.
Qed.

End Pipeline.

(* ================================================================== *)
(** * The concrete parameters satisfy the laws; examples *)
(* ================================================================== *)

Lemma exact_arith_laws : Float64Laws exact_arith.
Proof.
  split.
  - intros x y H. cbn. now rewrite !Qred_correct.
  - intros z _. cbn. apply Qred_correct.
Qed.

Lemma fixed_point_arith_laws : Float64Laws fixed_point_arith.
Proof.
  split.
  - intros x y H. cbn. unfold round_1024, Qle. cbn [Qnum Qden].
    apply Z.mul_le_mono_nonneg_r; [lia|].
    apply Qfloor_resp_le.
    apply Qplus_le_l. apply Qmult_le_compat_r; [exact H|].
    unfold Qle. cbn. lia.
  - intros z _. cbn. unfold round_1024.
    assert (E : (inject_Z z * inject_Z 1024 + (1 # 2) == Qmake (1 + z * 1024 * 2) 2)%Q).
    { unfold Qeq, Qplus, Qmult, inject_Z. cbn [Qnum Qden]. lia. }
    rewrite E. unfold Qfloor.
    rewrite Z.div_add by lia. change (1 / Z.pos 2) with 0.
    unfold Qeq, inject_Z. cbn [Qnum Qden]. lia.
Qed.

Lemma tape_laws : GeneratorLaws tape.
Proof.
  split.
  - intros lo hi [|x t] H; cbn; [lia|].
    pose proof (Z.mod_pos_bound x (hi - lo) ltac:(lia)). lia.
  - intros [|x t]; cbn.
    + split; [apply Qle_refl|reflexivity].
    + pose proof (Z.mod_pos_bound x 1000 ltac:(lia)) as Hm.
      unfold Qle, Qlt. cbn. lia.
Qed.

Lemma demo_lattice_wf : wf_lattice 2 demo_lattice.
Proof.
  split; [reflexivity|].
  repeat constructor; first [now left | now right].
Qed.

(** C1 on the demo world: a sweep of the 2 by 2 lattice is 4 trials. *)
Lemma metropolis_step_nb_sweep_witness :
  exists w', metropolis_step_nb (F := exact_arith) 1 1 0 demo_world = OK (tt, w') /\
             trials_spec (F := exact_arith) 2 1 1 0 4 demo_world w' /\
             wf_lattice 2 (w_lat w').
Proof.
  exact (metropolis_step_nb_sweep (F := exact_arith) (GL := tape_laws)
           2 1 1 0 demo_world demo_lattice_wf).
Defined.

(** C2 on the demo world, at site (0, 1) with [J = 1] and [h = 1/2]. *)
Lemma delta_energy_nb_formula_witness :
  delta_energy_nb (F := exact_arith) 0 1 1 (1 # 2) demo_world
    = OK (energy_change (F := exact_arith) 2 demo_lattice 0 1 1 (1 # 2), demo_world) /\
  ((forall x, rnd (Float64 := exact_arith) x == x)%Q ->
   (energy_change (F := exact_arith) 2 demo_lattice 0 1 1 (1 # 2)
    == energy_change_exact 2 demo_lattice 0 1 1 (1 # 2))%Q).
Proof.
  apply (delta_energy_nb_formula (F := exact_arith) 2 demo_world 0 1 1 (1 # 2)).
  - exact demo_lattice_wf.
  - lia.
  - lia.
Defined.

(** C3 on the demo world, at site (1, 0) with [M = 0] and [M0 = 2]. *)
Lemma delta_E_and_dM_formula_witness :
  delta_E_and_dM (F := exact_arith) 1 0 1 2 2 0 demo_world
    = OK ((biased_change (F := exact_arith) 2 demo_lattice 1 0 1 2 2 0,
           -2 * spin demo_lattice 1 0), demo_world) /\
  ((forall x, rnd (Float64 := exact_arith) x == x)%Q ->
   (biased_change (F := exact_arith) 2 demo_lattice 1 0 1 2 2 0
    == biased_change_exact 2 demo_lattice 1 0 1 2 2 0)%Q).
Proof.
  apply (delta_E_and_dM_formula (F := exact_arith) 2 demo_world 1 0 1 2 2 0).
  - exact demo_lattice_wf.
  - lia.
  - lia.
Defined.

(** C10 on the demo world: both calls return and leave it as it was, and a
    trial leaves the lattice or flips one site. *)
Lemma delta_functions_frame_witness :
  (exists v w', delta_energy_nb (F := exact_arith) 0 1 1 (1 # 2) demo_world
                = OK (v, w') /\ w' = demo_world) /\
  (exists v w', delta_E_and_dM (F := exact_arith) 0 1 1 2 2 0 demo_world
                = OK (v, w') /\ w' = demo_world) /\
  returns (metropolis_trial (F := exact_arith) 2 1 1 (1 # 2)) demo_world
    (fun _ w' => w_lat w' = demo_lattice \/
                 exists a b, w_lat w' = flip demo_lattice a b) /\
  returns (us_trial (F := exact_arith) 2 1 1 2 2 0) demo_world
    (fun _ w' => w_lat w' = demo_lattice \/
                 exists a b, w_lat w' = flip demo_lattice a b).
Proof.
  destruct (delta_functions_frame (F := exact_arith) (GL := tape_laws)
              demo_world 0 1 1 (1 # 2) 2 2 0) as (H1 & H2 & H3).
  split.
  { eexists _, _. split; [vm_compute; reflexivity|].
    eapply H1. vm_compute. reflexivity. }
  split.
  { eexists _, _. split; [vm_compute; reflexivity|].
    eapply H2. vm_compute. reflexivity. }
  apply (H3 2 1%Q demo_lattice_wf). lia.
Defined.

Ltac side :=
  first [ exact demo_lattice_wf
        | lia
        | (split; lia)
        | (intros H; discriminate H)
        | (vm_compute; intros H; discriminate H) ].

(** C4 on a fresh 2 by 2 lattice: one equilibration and two measurement
    trials. *)
Lemma tracked_magnetization_is_lattice_sum_witness :
  (forall beta M_ w0,
     wf_lattice 2 (w_lat w0) -> M_ = total_sum (w_lat w0) ->
     returns (us_trial (F := exact_arith) (G := tape) 2 beta 1 2 0 M_) w0
       (fun M' w' =>
          M' = total_sum (w_lat w') /\ - (2 * 2) <= M' <= 2 * 2 /\
          ((M' = M_ /\ w_lat w' = w_lat w0) \/
           (exists i j, w_lat w' = flip (w_lat w0) i j /\
                        (M' = M_ + 2 \/ M' = M_ - 2))))) /\
  returns (us_setup (F := exact_arith) 2 2 1 2 0 1 5)
    (fresh_world [1; 0; 0; 1; 0; 0; 1; 1; 0; 1])
    (fun s w' => snd (fst (fst s)) = total_sum (w_lat w') /\
                 - (2 * 2) <= snd (fst (fst s)) <= 2 * 2) /\
  returns (us_locals (F := exact_arith) 2 2 1 2 0 1 2 5)
    (fresh_world [1; 0; 0; 1; 0; 0; 1; 1; 0; 1])
    (fun s w' => fst (fst s) = total_sum (w_lat w') /\
                 - (2 * 2) <= fst (fst s) <= 2 * 2).
Proof.
  apply (tracked_magnetization_is_lattice_sum
           (F := exact_arith) (FL := exact_arith_laws) (GL := tape_laws)
           2 2 1 2 0 1 2 5 (fresh_world [1; 0; 0; 1; 0; 0; 1; 1; 0; 1])); side.
Defined.

(** C5 for a 10 by 10 lattice, 351 bins and [M = 100], the upper end, in
    the arithmetic that rounds to multiples of 1/1024. *)
Lemma hist_index_in_bounds_witness :
  exists Mgrid idx,
    np_linspace (F := fixed_point_arith) (- 10 * 10) (10 * 10) 351 demo_world
      = OK (Mgrid, demo_world) /\
    hist_index (F := fixed_point_arith) 100 Mgrid 351 demo_world = OK (idx, demo_world) /\
    0 <= idx <= 351 - 1 /\
    forall hist, Z.of_nat (length hist) = 351 ->
      exists hist', arr_iadd (F := fixed_point_arith) hist idx 1 demo_world
                      = OK (hist', demo_world) /\
                    length hist' = length hist.
Proof.
  apply (hist_index_in_bounds (F := fixed_point_arith) (FL := fixed_point_arith_laws)
           10 351 100 demo_world); side.
Defined.

(** C9 on a fresh 2 by 2 lattice: one equilibration and two measurement
    trials on five bins. *)
Lemma run_window_us_histogram_witness :
  exists w0 M1 w1 hist Mgrid M2 w',
    (forall lat,
       init_lattice_nb 2
         (World lat (w_gen (fresh_world [1; 0; 0; 1; 0; 0; 1; 1; 0; 1]))) = OK (tt, w0)) /\
    wf_lattice 2 (w_lat w0) /\
    for_range 1 (fun _ M_ => us_trial (F := exact_arith) 2 (fdiv (F := exact_arith) 1 2)
                                      1 2 0 M_)
              (total_sum (w_lat w0)) w0 = OK (M1, w1) /\
    for_range 2 (fun _ M_ => us_trial (F := exact_arith) 2 (fdiv (F := exact_arith) 1 2)
                                      1 2 0 M_) M1 w1
      = OK (M2, w') /\
    us_setup (F := exact_arith) 2 2 1 2 0 1 5 (fresh_world [1; 0; 0; 1; 0; 0; 1; 1; 0; 1])
      = OK ((fdiv (F := exact_arith) 1 2, M1, replicate (Z.to_nat 5) 0%Q, Mgrid), w1) /\
    run_window_us (F := exact_arith) 2 2 1 2 0 1 2 5
        (fresh_world [1; 0; 0; 1; 0; 0; 1; 1; 0; 1])
      = OK ((hist, Mgrid), w') /\
    Z.of_nat (length Mgrid) = 5 /\
    (nth 0 Mgrid 0 == inject_Z (- (2 * 2)))%Q /\
    (List.last Mgrid 0 == inject_Z (2 * 2))%Q /\
    Z.of_nat (length hist) = 5 /\
    let Ms := us_trace (F := exact_arith) (Z.to_nat 2) 2
                (fdiv (F := exact_arith) 1 2) 1 2 0 M1 w1 in
    Z.of_nat (length Ms) = Z.max 0 2 /\
    (Qsum hist == inject_Z (Z.max 0 2))%Q /\
    (forall b, 0 <= b < 5 ->
       exists x, hist !! Z.to_nat b = Some x /\
                 (x == inject_Z (tally (map (bin_of (F := exact_arith) Mgrid 5) Ms) b))%Q).
Proof.
  apply (run_window_us_histogram
           (F := exact_arith) (FL := exact_arith_laws) (GL := tape_laws)
           2 2 1 2 0 1 2 5 (fresh_world [1; 0; 0; 1; 0; 0; 1; 1; 0; 1])); side.
Defined.

(** C8 on a fresh 2 by 2 lattice, one sweep measured. *)
Lemma correlation_at_zero_witness :
  (exists m_avg corr w' c0,
     measure_spin_stats_explicit_nb (F := exact_arith) 2 1 0 0 1 1
         (fresh_world [1; 1; 1; 1; 0; 0; 500; 0; 1; 500; 1; 0; 500; 1; 1; 500])
       = OK ((m_avg, corr), w') /\
     corr !! 0%nat = Some c0 /\
     (c0 == fsub (F := exact_arith) 1 (fmul (F := exact_arith) m_avg m_avg))%Q) /\
  (exists m_avg corr w' c0,
     measure_column_correlation_nb (F := exact_arith) 2 1 0 0 1 1
         (fresh_world [1; 1; 1; 1; 0; 0; 500; 0; 1; 500; 1; 0; 500; 1; 1; 500])
       = OK ((m_avg, corr), w') /\
     corr !! 0%nat = Some c0 /\
     (c0 == fsub (F := exact_arith) 1 (fmul (F := exact_arith) m_avg m_avg))%Q).
Proof.
  apply (correlation_at_zero
           (F := exact_arith) (FL := exact_arith_laws) (GL := tape_laws)
           2 1 0 0 0 1 1
           (fresh_world [1; 1; 1; 1; 0; 0; 500; 0; 1; 500; 1; 0; 500; 1; 1; 500])); side.
Defined.

(** C8: the correlation at separation 0 is not 1, as the specification has
    it.  On a lattice that starts and stays all up (at [T = 1] the draws
    0.5 do not pass [exp(-8)]), one measured sweep gives [m_avg = 1] and a
    correlation 0 at separation 0, in both accumulators. *)
Lemma correlation_at_zero_is_not_one :
  measure_spin_stats_explicit_nb (F := exact_arith) 2 1 0 0 1 1
      (fresh_world [1; 1; 1; 1; 0; 0; 500; 0; 1; 500; 1; 0; 500; 1; 1; 500])
    = OK ((1%Q, [0%Q; 0%Q]), World (G := tape) [[1; 1]; [1; 1]] []) /\
  measure_column_correlation_nb (F := exact_arith) 2 1 0 0 1 1
      (fresh_world [1; 1; 1; 1; 0; 0; 500; 0; 1; 500; 1; 0; 500; 1; 1; 500])
    = OK ((1%Q, [0%Q; 0%Q]), World (G := tape) [[1; 1]; [1; 1]] []) /\
  ~ (0 == 1)%Q.
Proof.
  split; [vm_compute; reflexivity|]. split; [vm_compute; reflexivity|].
  intros H. discriminate H.
Qed.

(** C9: the loops count single trials, not sweeps as the specification has
    it.  With [n_steps = 1] on a 2 by 2 lattice the histogram holds one
    sample, not the four of a sweep of [L * L] trials. *)
Lemma run_window_us_counts_trials_not_sweeps :
  run_window_us (F := exact_arith) 2 2 1 2 0 0 1 5 (fresh_world [1; 0; 0; 1; 0; 0])
    = OK (([0; 1; 0; 0; 0]%Q, [-4; -2; 0; 2; 4]%Q),
          World (G := tape) [[-1; -1]; [-1; 1]] []) /\
  (Qsum [0; 1; 0; 0; 0] == 1)%Q /\
  ~ (Qsum [0; 1; 0; 0; 0] == inject_Z (1 * (2 * 2)))%Q.
Proof.
  split; [vm_compute; reflexivity|]. split; [reflexivity|].
  intros H. discriminate H.
Qed.

(** C6 on a 1 by 1 lattice with [T = -1]. *)
Lemma entry_points_do_not_validate_witness :
  (exists m w', measure_magnetization_nb (F := exact_arith) 1 (-1) 0 0 1 1
                  (fresh_world [1; 0; 0; 500]) = OK (m, w')) /\
  measure_magnetization_nb (F := exact_arith) 2 1 0 0 (- 2 ^ 62) 1
      (fresh_world [1; 0; 0; 1]) = Err ZeroDivisionError /\
  (exists Mgrid w',
     run_window_us (F := exact_arith) 1 (-1) 1 2 0 0 (-3) 1 (fresh_world [1; 0; 0; 500])
       = OK ((replicate (Z.to_nat 1) 0%Q, Mgrid), w')).
Proof.
  destruct (entry_points_do_not_validate
              (F := exact_arith) (FL := exact_arith_laws) (GL := tape_laws)
              1 (-1) 0 1 2 0 0 1 1 (fresh_world [1; 0; 0; 500]))
    as (_ & _ & _ & H4 & _).
  destruct (entry_points_do_not_validate
              (F := exact_arith) (FL := exact_arith_laws) (GL := tape_laws)
              2 1 0 1 2 0 0 (- 2 ^ 62) 1 (fresh_world [1; 0; 0; 1]))
    as (_ & _ & H3 & _).
  destruct (entry_points_do_not_validate
              (F := exact_arith) (FL := exact_arith_laws) (GL := tape_laws)
              1 (-1) 0 1 2 0 0 (-3) 1 (fresh_world [1; 0; 0; 500]))
    as (_ & _ & _ & _ & _ & H5 & _).
  split; [|split].
  - apply H4; side.
  - apply H3; [lia | side | vm_compute; reflexivity].
  - apply H5; side.
Defined.

(** C6: an invalid configuration is not rejected, as the specification has
    it.  A negative temperature, a negative number of steps and a single bin
    are all accepted; the calls return. *)
Lemma invalid_configuration_is_accepted :
  measure_magnetization_nb (F := exact_arith) 1 (-1) 0 0 1 1 (fresh_world [1; 0; 0; 500])
    = OK ((-1)%Q, World (G := tape) [[-1]] []) /\
  measure_magnetization_nb (F := exact_arith) 1 1 0 0 (-1) 1 (fresh_world [1; 0; 0; 500])
    = OK (0%Q, World (G := tape) [[1]] [0; 0; 500]) /\
  run_window_us (F := exact_arith) 1 1 1 2 0 0 0 1 (fresh_world [1; 0; 0; 500])
    = OK (([0%Q], [(-1)%Q]), World (G := tape) [[1]] [0; 0; 500]).
Proof.
  split; [vm_compute; reflexivity|]. split; vm_compute; reflexivity.
Qed.

(** C7 on one window with three bins. *)
Lemma wham_us_iterations_witness :
  exists inp,
    wham_prepare (F := exact_arith) [[Fin 1; Fin 2; Fin 1]] [Fin (-1); Fin 0; Fin 1]
                 (Fin 2) [Fin 0] (Fin 1) = OK inp /\
    let st := wham_run (F := exact_arith) inp in
    wham_us (F := exact_arith) [[Fin 1; Fin 2; Fin 1]] [Fin (-1); Fin 0; Fin 1]
            (Fin 2) [Fin 0] (Fin 1)
      = OK (ws_P st, wham_F (F := exact_arith) (Fin 1) (ws_P st)) /\
    (1 <= ws_iters st <= 5000)%nat /\
    ws_P st = fst (wham_update (F := exact_arith) inp
                     (wham_iterate (F := exact_arith) inp (pred (ws_iters st)))) /\
    (forall m, (1 <= m < ws_iters st)%nat ->
               wham_close_at (F := exact_arith) inp m = false) /\
    ws_converged st = wham_close_at (F := exact_arith) inp (ws_iters st) /\
    (ws_converged st = false -> ws_iters st = 5000%nat).
Proof.
  apply (wham_us_iterations (F := exact_arith)
           [[Fin 1; Fin 2; Fin 1]] [Fin (-1); Fin 0; Fin 1] (Fin 2) [Fin 0] (Fin 1)).
  split; [discriminate|]. split; [repeat constructor|reflexivity].
Defined.

(** C7: the convergence indicator of the specification is not returned, and
    the value returned does not tell whether the iteration converged.  On a
    one-point grid with an empty histogram, [beta = 1] leaves the loop by
    [break] at the second iteration and [beta = 0] makes all 5000
    iterations without passing the test (the offsets are infinite); both
    calls return the same pair of arrays. *)
Lemma wham_us_result_hides_convergence :
  wham_demo 1 = OK ([NaN], [NaN]) /\
  wham_demo 0 = OK ([NaN], [NaN]) /\
  (exists st, wham_demo_state 1 = OK st /\
              ws_converged st = true /\ ws_iters st = 2%nat) /\
  (exists st, wham_demo_state 0 = OK st /\
              ws_converged st = false /\ ws_iters st = 5000%nat).
Proof.
  split; [vm_compute; reflexivity|]. split; [vm_compute; reflexivity|].
  split; eexists; (split; [vm_compute; reflexivity|]); split; reflexivity.
Qed.

(** ** Instances of the further properties *)

Lemma init_lattice_nb_fresh_witness :
  init_lattice_nb 2 (World (G := tape) [] [1; 0; 0; 1])
    = init_lattice_nb 2 (World (G := tape) demo_lattice [1; 0; 0; 1]) /\
  returns (init_lattice_nb 2) (World (G := tape) [] [1; 0; 0; 1])
    (fun _ w' => wf_lattice 2 (w_lat w') /\
                 - (2 * 2) <= total_sum (w_lat w') <= 2 * 2).
Proof.
  destruct (init_lattice_nb_fresh (GL := tape_laws) 2 [] demo_lattice [1; 0; 0; 1])
    as (H1 & H2 & _).
  split; [exact H1|apply H2; lia].
Defined.

Lemma delta_energy_nb_reverse_witness :
  flip (flip demo_lattice 0 1) 0 1 = demo_lattice /\
  delta_energy_nb (F := exact_arith) (G := tape) 0 1 1 (1 # 2)
      (World (G := tape) (flip demo_lattice 0 1) [])
    = OK (fmul (F := exact_arith) (of_Z (F := exact_arith) (2 * - spin demo_lattice 0 1))
            (fadd (F := exact_arith)
               (fmul (F := exact_arith) 1
                  (of_Z (F := exact_arith) (neighbor_sum 2 demo_lattice 0 1))) (1 # 2)),
          World (G := tape) (flip demo_lattice 0 1) []) /\
  ((forall x, rnd (Float64 := exact_arith) x == x)%Q ->
   (energy_change (F := exact_arith) 2 (flip demo_lattice 0 1) 0 1 1 (1 # 2)
    == - energy_change (F := exact_arith) 2 demo_lattice 0 1 1 (1 # 2))%Q).
Proof.
  apply (delta_energy_nb_reverse (F := exact_arith) (G := tape) 2 demo_lattice ([] : list Z)); side.
Defined.

Lemma delta_E_and_dM_reverse_witness :
  let dM := -2 * spin demo_lattice 1 0 in
  (dM = 2 \/ dM = -2) /\
  total_sum (flip demo_lattice 1 0) = total_sum demo_lattice + dM /\
  exists dE',
    delta_E_and_dM (F := exact_arith) (G := tape) 1 0 1 2 2 (0 + dM)
        (World (G := tape) (flip demo_lattice 1 0) [])
      = OK ((dE', - dM), World (G := tape) (flip demo_lattice 1 0) []) /\
    ((forall x, rnd (Float64 := exact_arith) x == x)%Q ->
     (dE' == - biased_change (F := exact_arith) 2 demo_lattice 1 0 1 2 2 0)%Q).
Proof.
  apply (delta_E_and_dM_reverse (F := exact_arith) (G := tape) 2 demo_lattice ([] : list Z)); side.
Defined.

Lemma delta_E_and_dM_indices_witness :
  (forall i' j', i' = 1 \/ i' = 1 - 2 -> j' = 0 \/ j' = 0 - 2 ->
     delta_E_and_dM (F := exact_arith) i' j' 1 2 2 0 demo_world
       = delta_E_and_dM (F := exact_arith) 1 0 1 2 2 0 demo_world) /\
  (forall i' j', i' < - 2 \/ 2 <= i' \/ j' < - 2 \/ 2 <= j' ->
     delta_E_and_dM (F := exact_arith) i' j' 1 2 2 0 demo_world = Err IndexError).
Proof.
  apply (delta_E_and_dM_indices (F := exact_arith) 2 demo_world); side.
Defined.

Lemma zero_bias_is_zero_field_witness :
  exists dE dEb dM,
    delta_energy_nb (F := exact_arith) 0 1 1 0 demo_world = OK (dE, demo_world) /\
    delta_E_and_dM (F := exact_arith) 0 1 1 0 2 0 demo_world
      = OK ((dEb, dM), demo_world) /\
    (dEb == dE)%Q.
Proof.
  apply (zero_bias_is_zero_field (F := exact_arith) 2 demo_world); try side.
  exact Qred_correct.
Defined.

Lemma measure_magnetization_nb_range_witness :
  returns (measure_magnetization_nb (F := exact_arith) 2 2 (1 # 2) 1 2 1)
    (fresh_world [1; 0; 0; 1])
    (fun m _ => (-1 <= m <= 1)%Q) /\
  returns (measure_magnetization_nb (F := exact_arith) 2 2 (1 # 2) 1 (-2) 1)
    (fresh_world [1; 0; 0; 1])
    (fun m _ => (m == 0)%Q).
Proof.
  split.
  - apply (measure_magnetization_nb_range (F := exact_arith) (FL := exact_arith_laws)
             (GL := tape_laws) 2 2 (1 # 2) 1 2 1); side.
  - apply (measure_magnetization_nb_range (F := exact_arith) (FL := exact_arith_laws)
             (GL := tape_laws) 2 2 (1 # 2) 1 (-2) 1); side.
Defined.

Lemma measure_abs_magnetization_nb_range_witness :
  returns (measure_abs_magnetization_nb (F := exact_arith) 2 2 1 2 1)
    (fresh_world [1; 0; 0; 1])
    (fun m w' => (0 <= m <= 1)%Q /\ wf_lattice 2 (w_lat w')).
Proof.
  apply (measure_abs_magnetization_nb_range (F := exact_arith) (FL := exact_arith_laws)
           (GL := tape_laws) 2 2 1 2 1); side.
Defined.

Lemma measure_abs_magnetization_nb_errors_witness :
  measure_abs_magnetization_nb (F := exact_arith) (-1) 2 1 2 1 (fresh_world [1; 0])
    = Err ValueError /\
  measure_abs_magnetization_nb (F := exact_arith) 2 0 1 2 1 (fresh_world [1; 0])
    = Err ZeroDivisionError /\
  measure_abs_magnetization_nb (F := exact_arith) 0 2 1 2 1 (fresh_world [1; 0])
    = Err ZeroDivisionError /\
  measure_abs_magnetization_nb (F := exact_arith) 2 2 1 0 1 (fresh_world [1; 0])
    = Err ZeroDivisionError /\
  returns (measure_abs_magnetization_nb (F := exact_arith) 2 2 1 (-1) 1)
    (fresh_world [1; 0]) (fun m _ => (m == 0)%Q).
Proof.
  split; [|split; [|split; [|split]]].
  - apply (measure_abs_magnetization_nb_errors (F := exact_arith)
             (FL := exact_arith_laws) (GL := tape_laws) (-1) 2 1 2 1). lia.
  - destruct (measure_abs_magnetization_nb_errors (F := exact_arith)
                (FL := exact_arith_laws) (GL := tape_laws) 2 0 1 2 1 (fresh_world [1; 0]))
      as (_ & Hc & _).
    apply Hc; [lia|reflexivity].
  - destruct (measure_abs_magnetization_nb_errors (F := exact_arith)
                (FL := exact_arith_laws) (GL := tape_laws) 0 2 1 2 1 (fresh_world [1; 0]))
      as (_ & _ & Hc & _).
    apply Hc; side.
  - destruct (measure_abs_magnetization_nb_errors (F := exact_arith)
                (FL := exact_arith_laws) (GL := tape_laws) 2 2 1 0 1 (fresh_world [1; 0]))
      as (_ & _ & _ & Hc & _).
    apply Hc; side.
  - destruct (measure_abs_magnetization_nb_errors (F := exact_arith)
                (FL := exact_arith_laws) (GL := tape_laws) 2 2 1 (-1) 1
                (fresh_world [1; 0]))
      as (_ & _ & _ & _ & Hc).
    apply Hc; side.
Defined.

Lemma compute_m_vs_h_nb_range_witness :
  returns (compute_m_vs_h_nb (F := exact_arith) 2 2 [0; 1 # 2; 1]%Q 1 2 1)
    (fresh_world [1; 0; 0; 1])
    (fun ms _ => length ms = length [0; 1 # 2; 1]%Q /\
                 Forall (fun m => (-1 <= m <= 1)%Q) ms) /\
  compute_m_vs_h_nb (F := exact_arith) (-2) 2 [0; 1 # 2; 1]%Q 1 2 1
    (fresh_world [1; 0; 0; 1]) = Err ValueError.
Proof.
  split.
  - apply (compute_m_vs_h_nb_range (F := exact_arith) (FL := exact_arith_laws)
             (GL := tape_laws) 2 2 [0; 1 # 2; 1]%Q 1 2 1); side.
  - apply (compute_m_vs_h_nb_range (F := exact_arith) (FL := exact_arith_laws)
             (GL := tape_laws) (-2) 2 [0; 1 # 2; 1]%Q 1 2 1); side.
Defined.

Lemma hist_index_monotone_witness :
  exists Mgrid,
    np_linspace (F := fixed_point_arith) (- 10 * 10) (10 * 10) 351 demo_world
      = OK (Mgrid, demo_world) /\
    hist_index (F := fixed_point_arith) (- (10 * 10)) Mgrid 351 demo_world
      = OK (0, demo_world) /\
    hist_index (F := fixed_point_arith) (10 * 10) Mgrid 351 demo_world
      = OK (351 - 1, demo_world) /\
    forall M1 M2, - (10 * 10) <= M1 -> M1 <= M2 -> M2 <= 10 * 10 ->
      exists b1 b2,
        hist_index (F := fixed_point_arith) M1 Mgrid 351 demo_world = OK (b1, demo_world) /\
        hist_index (F := fixed_point_arith) M2 Mgrid 351 demo_world = OK (b2, demo_world) /\
        b1 <= b2.
Proof.
  apply (hist_index_monotone (F := fixed_point_arith) (FL := fixed_point_arith_laws)
           10 351 demo_world); side.
Defined.

Lemma run_window_us_errors_witness :
  run_window_us (F := exact_arith) (-1) 2 1 2 0 1 1 5 (fresh_world [1; 0])
    = Err ValueError /\
  run_window_us (F := exact_arith) 2 2 1 2 0 1 1 (-5) (fresh_world [1; 0])
    = Err ValueError /\
  run_window_us (F := exact_arith) 0 2 1 2 0 0 1 5 (fresh_world [1; 0])
    = Err ValueError /\
  run_window_us (F := exact_arith) 2 2 1 2 0 1 1 0 (fresh_world [1; 0])
    = Err IndexError.
Proof.
  split; [|split; [|split]].
  - destruct (run_window_us_errors (F := exact_arith) (GL := tape_laws)
                (-1) 2 1 2 0 1 1 5 (fresh_world [1; 0])) as (Hc & _).
    apply Hc; side.
  - destruct (run_window_us_errors (F := exact_arith) (GL := tape_laws)
                2 2 1 2 0 1 1 (-5) (fresh_world [1; 0])) as (_ & Hc & _).
    apply Hc; side.
  - destruct (run_window_us_errors (F := exact_arith) (GL := tape_laws)
                0 2 1 2 0 0 1 5 (fresh_world [1; 0])) as (_ & _ & Hc & _).
    apply Hc; side.
  - destruct (run_window_us_errors (F := exact_arith) (GL := tape_laws)
                2 2 1 2 0 1 1 0 (fresh_world [1; 0])) as (_ & _ & _ & Hc).
    apply Hc; side.
Defined.

Lemma wham_us_shapes_witness :
  exists P F_,
    wham_us (F := exact_arith) [[Fin 1; Fin 2; Fin 1]] [Fin (-1); Fin 0; Fin 1]
            (Fin 2) [Fin 0] (Fin 1) = OK (P, F_) /\
    length P = 3%nat /\ length F_ = 3%nat.
Proof.
  apply (wham_us_shapes (F := exact_arith) [[Fin 1; Fin 2; Fin 1]]
           [Fin (-1); Fin 0; Fin 1] (Fin 2) [Fin 0] (Fin 1)).
  split; [discriminate|]. split; [|reflexivity].
  repeat constructor.
Defined.

Lemma wham_us_empty_histograms_witness :
  wham_us (F := exact_arith) [[Fin 0; Fin 0; Fin 0]; [Fin 0; Fin 0; Fin 0]]
          [Fin (-1); Fin 0; Fin 1] (Fin 2) [Fin (-1); Fin 1] (Fin 1)
    = OK (replicate 3 NaN, replicate 3 NaN).
Proof.
  apply (wham_us_empty_histograms (F := exact_arith) (FL := exact_arith_laws)
           [[Fin 0; Fin 0; Fin 0]; [Fin 0; Fin 0; Fin 0]]
           [Fin (-1); Fin 0; Fin 1] (Fin 2) [Fin (-1); Fin 1] (Fin 1)).
  - split; [discriminate|]. split; [|reflexivity]. repeat constructor.
  - repeat constructor.
Defined.

Lemma run_window_us_outputs_fit_wham_witness :
  let outs := [([0; 1; 0; 0; 0]%Q, [-4; -2; 0; 2; 4]%Q);
               ([0; 0; 0; 0; 0]%Q, [-4; -2; 0; 2; 4]%Q)] in
  let Mgrid := snd (List.last outs ([], [])) in
  Forall (fun o => snd o = Mgrid /\ length (fst o) = length Mgrid) outs /\
  wham_shapes_ok (map (fun o => map Fin (fst o)) outs) (map Fin Mgrid)
                 (map Fin [-4; 4]%Q) /\
  exists P F_,
    wham_us (F := exact_arith) (map (fun o => map Fin (fst o)) outs) (map Fin Mgrid)
            (Fin 2) (map Fin [-4; 4]%Q) (Fin (1 # 2)) = OK (P, F_) /\
    length P = length Mgrid /\ length F_ = length Mgrid.
Proof.
  apply (run_window_us_outputs_fit_wham (F := exact_arith) (G := tape) 2 5
           [([0; 1; 0; 0; 0]%Q, [-4; -2; 0; 2; 4]%Q);
            ([0; 0; 0; 0; 0]%Q, [-4; -2; 0; 2; 4]%Q)]
           [-4; 4]%Q (Fin 2) (Fin (1 # 2))).
  - discriminate.
  - reflexivity.
  - constructor; [|constructor; [|constructor]].
    + exists 2%Q, 1%Q, 2%Q, 0%Q, 0, 1, (fresh_world [1; 0; 0; 1; 0; 0]).
      eexists. vm_compute. reflexivity.
    + exists 2%Q, 1%Q, 2%Q, 0%Q, 0, 0, (fresh_world [1; 0; 0; 1; 0; 0]).
      eexists. vm_compute. reflexivity.
Defined.

Lemma total_spin_loop_is_sum_witness :
  total_spin_loop 2 demo_world = lat_sum demo_world.
Proof.
  apply (total_spin_loop_is_sum (G := tape) 2 demo_world); side.
Defined.

Lemma correlation_results_range_witness :
  returns (measure_spin_stats_explicit_nb (F := exact_arith) 2 1 0 0 1 1)
    (fresh_world [1; 1; 1; 1; 0; 0; 500; 0; 1; 500; 1; 0; 500; 1; 1; 500])
    (fun r _ => (-1 <= fst r <= 1)%Q /\ Z.of_nat (length (snd r)) = 2 / 2 + 1 /\
                exists c0, snd r !! 0%nat = Some c0 /\ (0 <= c0 <= 1)%Q) /\
  returns (measure_column_correlation_nb (F := exact_arith) 2 1 0 0 1 1)
    (fresh_world [1; 1; 1; 1; 0; 0; 500; 0; 1; 500; 1; 0; 500; 1; 1; 500])
    (fun r _ => (-1 <= fst r <= 1)%Q /\ Z.of_nat (length (snd r)) = 2 / 2 + 1 /\
                exists c0, snd r !! 0%nat = Some c0 /\ (0 <= c0 <= 1)%Q).
Proof.
  apply (correlation_results_range (F := exact_arith) (FL := exact_arith_laws)
           (GL := tape_laws) 2 1 0 0 0 1 1); side.
Defined.

Lemma correlation_degenerate_steps_witness :
  (measure_spin_stats_explicit_nb (F := exact_arith) 2 1 0 0 0 1
       (fresh_world [1; 1; 1; 1]) = Err ZeroDivisionError /\
   measure_column_correlation_nb (F := exact_arith) 2 1 7 0 0 1
       (fresh_world [1; 1; 1; 1]) = Err ZeroDivisionError) /\
  (returns (measure_spin_stats_explicit_nb (F := exact_arith) 2 1 0 0 (-3) 1)
     (fresh_world [1; 1; 1; 1])
     (fun r _ => (fst r == 0)%Q /\ Z.of_nat (length (snd r)) = 2 / 2 + 1 /\
                 Forall (fun c => (c == 0)%Q) (snd r)) /\
   returns (measure_column_correlation_nb (F := exact_arith) 2 1 7 0 (-3) 1)
     (fresh_world [1; 1; 1; 1])
     (fun r _ => (fst r == 0)%Q /\ Z.of_nat (length (snd r)) = 2 / 2 + 1 /\
                 Forall (fun c => (c == 0)%Q) (snd r))).
Proof.
  split.
  - apply (correlation_degenerate_steps (F := exact_arith) (FL := exact_arith_laws)
             (GL := tape_laws) 2 1 0 7 0 0 1); side.
  - apply (correlation_degenerate_steps (F := exact_arith) (FL := exact_arith_laws)
             (GL := tape_laws) 2 1 0 7 0 (-3) 1); side.
Defined.
